(** * xTrimoMultimer: the protein container and the MSA stack

    A shallow embedding of two parts of the repository:

    - [xtrimomultimer/np/protein.py]: the [Protein] dataclass with its
      [__post_init__] check, and [from_prediction];
    - [xtrimomultimer/model_acc/msa.py]: the MSA row/column attention blocks
      and the [MSAStack] / [ExtraMSAStack] orchestration, over a model of the
      tensor-parallel collectives they call. *)

From Stdlib Require Import ZArith String Ascii.
From Stdlib Require OrderedTypeEx QArith.
From stdpp Require Import base list gmap strings sorting pretty.

Open Scope Z_scope.
Set Warnings "-register-all".

(** ** Python exceptions as an error monad *)

Inductive exn :=
| KeyError (key : string)
| IndexError
| AttributeError
| ValueError (msg : string)
| ConfigurationError
| ProtocolError.

Inductive res (A : Type) : Type :=
| Ok (a : A)
| Err (e : exn).
Arguments Ok {A} a.
Arguments Err {A} e.

Definition raise {A} (e : exn) : res A := Err e.

#[global] Instance res_ret : MRet res := fun _ a => Ok a.
#[global] Instance res_bind : MBind res := fun _ _ f m =>
  match m with
  | Ok a => f a
  | Err e => Err e
  end.
#[global] Instance res_fmap : FMap res := fun _ _ f m =>
  match m with
  | Ok a => Ok (f a)
  | Err e => Err e
  end.

(** ** Scalars

    The element type of floating-point tensors is kept abstract: a type with
    the constants and the two operations the modelled code uses. *)

Class Num (F : Type) := {
  fzero : F;
  fone : F;
  fadd : F → F → F;
  fmul : F → F → F
}.

(** * Part I: [np/protein.py] *)

(** An [np.ndarray] as its nested contents: a 0-d array is a [Scalar]. *)
Inductive ndarray (A : Type) : Type :=
| Scalar (x : A)
| Array (l : list (ndarray A)).
Arguments Scalar {A} x.
Arguments Array {A} l.

(** [np.zeros_like(arr)]. *)
Fixpoint zeros_like {A} (zero : A) (a : ndarray A) : ndarray A :=
  match a with
  | Scalar _ => Scalar zero
  | Array l => Array (map (zeros_like zero) l)
  end.

(** Element-wise application, as in [arr + 1]. *)
Fixpoint ndmap {A B} (f : A → B) (a : ndarray A) : ndarray B :=
  match a with
  | Scalar x => Scalar (f x)
  | Array l => Array (map (ndmap f) l)
  end.

(** [arr.ravel()]: the elements in row-major order. *)
Fixpoint ravel {A} (a : ndarray A) : list A :=
  match a with
  | Scalar x => [x]
  | Array l => concat (map ravel l)
  end.

(** [arr[0]]: the first sub-array; a 0-d or an empty array has none. *)
Definition item0 {A} (a : ndarray A) : res (ndarray A) :=
  match a with
  | Array (x :: _) => Ok x
  | _ => raise IndexError
  end.

(** [np.unique] returns the sorted distinct elements of the flattened array. *)
Fixpoint insert_unique (x : Z) (l : list Z) : list Z :=
  match l with
  | [] => [x]
  | y :: l' =>
      if x <? y then x :: y :: l'
      else if x =? y then y :: l'
      else y :: insert_unique x l'
  end.

Definition np_unique (a : ndarray Z) : list Z :=
  foldr insert_unique [] (ravel a).

(** The integer types of numpy arrays.  The contents of an array do not
    tell its type; where the code computes in that type, the type is given
    beside the array. *)
Inductive int_dtype :=
| Int8 | Int16 | Int32 | Int64
| UInt8 | UInt16 | UInt32 | UInt64.

Definition dtype_bits (dt : int_dtype) : Z :=
  match dt with
  | Int8 | UInt8 => 8
  | Int16 | UInt16 => 16
  | Int32 | UInt32 => 32
  | Int64 | UInt64 => 64
  end.

Definition dtype_signed (dt : int_dtype) : bool :=
  match dt with
  | Int8 | Int16 | Int32 | Int64 => true
  | UInt8 | UInt16 | UInt32 | UInt64 => false
  end.

(** The value an integer has in the type: arithmetic on an array wraps
    around, modulo 2 to the number of bits. *)
Definition wrap (dt : int_dtype) (x : Z) : Z :=
  let m := 2 ^ dtype_bits dt in
  if dtype_signed dt then (x + m / 2) mod m - m / 2 else x mod m.

(** Complete sequence of chain IDs supported by the PDB format. *)
Definition PDB_CHAIN_IDS : string :=
  "ABCDEFGHIJKLMNOPQRSTUVWXYZabcdefghijklmnopqrstuvwxyz0123456789".
Definition PDB_MAX_CHAINS : nat := String.length PDB_CHAIN_IDS.

Definition too_many_chains_msg : string :=
  "Cannot build an instance with more than 62 chains because these cannot be written to PDB format".

Section WithFloat.
Context {F : Type} `{Num F}.

(** A model output value ([Any]): an array or a nested dictionary. *)
Inductive value :=
| VArr (a : ndarray F)
| VDict (d : gmap string (ndarray F)).

Record Protein := mkProtein {
  atom_positions : value;
  aatype : ndarray Z;
  atom_mask : value;
  residue_index : ndarray Z;
  b_factors : ndarray F;
  chain_index : ndarray Z;
  remark : option string;
  parents : option (list string);
  parents_chain_index : option (list Z)
}.

(** [Protein.__post_init__]. *)
Definition post_init (self : Protein) : res unit :=
  if decide (PDB_MAX_CHAINS < length (np_unique (chain_index self)))%nat
  then raise (ValueError too_many_chains_msg)
  else Ok tt.

(** The generated [__init__] of the dataclass: store the fields, then run
    [__post_init__]. *)
Definition Protein_init
    (atom_positions : value) (aatype : ndarray Z) (atom_mask : value)
    (residue_index : ndarray Z) (b_factors : ndarray F)
    (chain_index : ndarray Z) (remark : option string)
    (parents : option (list string))
    (parents_chain_index : option (list Z)) : res Protein :=
  let self := mkProtein atom_positions aatype atom_mask residue_index
                b_factors chain_index remark parents parents_chain_index in
  _ ← post_init self; mret self.

(** [d[key]] on a dictionary. *)
Definition subscript {V} (d : gmap string V) (key : string) : res V :=
  match d !! key with
  | Some v => Ok v
  | None => raise (KeyError key)
  end.

(** [fold_output] is the whole result or its ["structure_module"] entry. *)
Inductive fold_out :=
| Whole (d : gmap string value)
| Entry (v : value).

(** [fold_output[key]]. *)
Definition fold_subscript (fo : fold_out) (key : string) : res value :=
  match fo with
  | Whole d => subscript d key
  | Entry (VDict d) => VArr <$> subscript d key
  | Entry (VArr _) => raise IndexError
  end.

(** The bound method [fold_output.get]; an array has none. *)
Definition fold_get_method (fo : fold_out) : res (string → value → value) :=
  match fo with
  | Whole d => Ok (fun key dflt => default dflt (d !! key))
  | Entry (VDict d) => Ok (fun key dflt => default dflt (VArr <$> d !! key))
  | Entry (VArr _) => raise AttributeError
  end.

(** [np.zeros_like] of a model output value; numpy turns a dictionary into
    a 0-d object array before filling it. *)
Definition zeros_like_value (v : value) : ndarray F :=
  match v with
  | VArr a => zeros_like fzero a
  | VDict _ => Scalar fzero
  end.

(** The local helper [_maybe_remove_leading_dim] of [from_prediction]. *)
Definition _maybe_remove_leading_dim {A}
    (remove_leading_feature_dimension : bool) (arr : ndarray A)
    : res (ndarray A) :=
  if remove_leading_feature_dimension then item0 arr else Ok arr.

(** [from_prediction]: assembles a protein from a prediction.  The sum
    [features["residue_index"] + 1] is computed in the integer type of that
    array, [residue_index_dtype]. *)
Definition from_prediction
    (features : gmap string (ndarray Z))
    (residue_index_dtype : int_dtype)
    (result : gmap string value)
    (b_factors : option (ndarray F))
    (chain_index : option (ndarray Z))
    (remark : option string)
    (parents : option (list string))
    (parents_chain_index : option (list Z))
    (remove_leading_feature_dimension : bool) : res Protein :=
  let mrld {A} := @_maybe_remove_leading_dim A remove_leading_feature_dimension in
  fold_output ←
    (if decide (is_Some (result !! "structure_module"))
     then Entry <$> subscript result "structure_module"
     else Ok (Whole result));
  b_factors ←
    match b_factors with
    | None => v ← fold_subscript fold_output "final_atom_mask";
              Ok (Some (zeros_like_value v))
    | Some b => Ok (Some b)
    end;
  get ← fold_get_method fold_output;
  dflt ← subscript result "final_atom_mask";
  let atom_mask := get "final_atom_mask" dflt in
  get ← fold_get_method fold_output;
  dflt ← subscript result "final_atom_positions";
  let atom_positions := get "final_atom_positions" dflt in
  chain_index ←
    (if decide (is_Some (features !! "asym_id"))
     then a ← subscript features "asym_id"; mrld a
     else a ← subscript features "aatype"; a' ← mrld a;
          Ok (zeros_like 0%Z a'));
  b_factors ←
    match b_factors with
    | None => v ← subscript result "final_atom_mask";
              Ok (zeros_like_value v)
    | Some b => Ok b
    end;
  aatype ← (a ← subscript features "aatype"; mrld a);
  residue_index ←
    (a ← subscript features "residue_index"; a' ← mrld a;
     Ok (ndmap (fun x => wrap residue_index_dtype (x + 1)) a'));
  Protein_init atom_positions aatype atom_mask residue_index b_factors
    chain_index remark parents parents_chain_index.

End WithFloat.

Arguments value : clear implicits.
Arguments fold_out : clear implicits.
Arguments Protein : clear implicits.


(** * Part II: tensors, collectives and [model_acc/msa.py] *)

Close Scope Z_scope.

(** ** Tensors as nested lists

    [nest d A] is [d] nested list levels over cells of type [A]; a tensor
    with axes [0..d] whose cells below axis [d] have type [A] is a
    [nest (S d) A].  Torch tensors are rectangular; the nested lists that
    stand for them are the rectangular ones. *)

Fixpoint nest (d : nat) (A : Type) : Type :=
  match d with
  | O => A
  | S d' => list (nest d' A)
  end.

(** Apply [f] to every list lying along axis [d]. *)
Fixpoint map_at {A B} (d : nat) (f : list A → list B)
    : nest (S d) A → nest (S d) B :=
  match d return nest (S d) A → nest (S d) B with
  | O => f
  | S d' => fmap (map_at d' f)
  end.

(** [tensor.shape[d]], read off the first cell along each outer axis. *)
Fixpoint size_along {A} (d : nat) : nest (S d) A → nat :=
  match d return nest (S d) A → nat with
  | O => length
  | S d' => fun t => match t with
                     | [] => O
                     | x :: _ => size_along d' x
                     end
  end.

(** Every list along axis [d] satisfies [P]. *)
Fixpoint all_at {A} (d : nat) (P : list A → Prop) : nest (S d) A → Prop :=
  match d return nest (S d) A → Prop with
  | O => P
  | S d' => Forall (all_at d' P)
  end.

(** The tensor has extent [n] along axis [d] everywhere. *)
Definition rect_at {A} (d n : nat) (t : nest (S d) A) : Prop :=
  all_at d (fun l => length l = n) t.

(** [torch.cat([t1, t2], dim=d)]. *)
Fixpoint app_at {A} (d : nat) : nest (S d) A → nest (S d) A → nest (S d) A :=
  match d return nest (S d) A → nest (S d) A → nest (S d) A with
  | O => app
  | S d' => zip_with (app_at d')
  end.

(** [torch.cat(ts, dim=d)] for a non-empty list of tensors. *)
Fixpoint cat_at {A} (d : nat) (ts : list (nest (S d) A)) : nest (S d) A :=
  match ts with
  | [] => []
  | t :: ts' => match ts' with
                | [] => t
                | _ :: _ => app_at d t (cat_at d ts')
                end
  end.

(** [torch.split(l, k)[r]] on one axis: the [r]-th chunk of size [k]. *)
Definition chunk {A} (k r : nat) (l : list A) : list A :=
  take k (drop (r * k) l).

(** [tensor.numel()]: the number of scalars of a tensor of [d] axes whose
    cells hold [cell] scalars each. *)
Fixpoint numel {A} (cell : A → nat) (d : nat) : nest d A → nat :=
  match d return nest d A → nat with
  | O => cell
  | S d' => fun t => sum_list (numel cell d' <$> t)
  end.

(** ** The process group *)

Record comm := mkComm { world_size : nat; rank : nat }.

(** Modelled from the spec: the helper behind the precondition of [scatter]
    (section 4.1): the size along the axis must be evenly divisible by the
    worker count, and violating this is a fatal configuration error. *)
Definition divide (numerator denominator : nat) : res nat :=
  if decide (denominator ≠ O ∧ numerator `mod` denominator = O)
  then Ok (numerator `div` denominator)
  else raise ConfigurationError.

(** Modelled from the spec: [scatter(tensor, dim)] of
    [model_acc/distributed] (section 4.1) splits [tensor] along axis [dim]
    into equal-sized contiguous chunks, one per worker, and returns this
    worker's chunk; local slicing only. *)
Definition scatter {A} (c : comm) (dim : nat) (tensor : nest (S dim) A)
    : res (nest (S dim) A) :=
  k ← divide (size_along dim tensor) (world_size c);
  mret (map_at dim (chunk k (rank c)) tensor).

(** Modelled from the spec: the synchronous [gather] (section 4.1), seen
    from the whole group: every worker receives the local shards of all
    workers concatenated along [dim] in rank order. *)
Definition gather_all {A} (dim : nat) (shards : list (nest (S dim) A))
    : nest (S dim) A :=
  cat_at dim shards.

(** Modelled from the spec: [row_to_col] (section 4.2), seen from the whole
    group, as an all-to-all exchange: worker [i] sends the column slice [j]
    of its local tensor to worker [j]; worker [j] concatenates what it
    receives along the row axis, in rank order. *)
Definition row_to_col_all {A} (locals : list (nest 3 A)) : res (list (nest 3 A)) :=
  let w := length locals in
  mapM (fun j =>
          received ← mapM (scatter (mkComm w j) 2) locals;
          mret (cat_at 1 received))
       (seq 0 w).

(** Modelled from the spec: the hypothetical inverse column-to-row transform
    of section 8, the same exchange with the two axes swapped. *)
Definition col_to_row_all {A} (locals : list (nest 3 A)) : res (list (nest 3 A)) :=
  let w := length locals in
  mapM (fun i =>
          received ← mapM (scatter (mkComm w i) 1) locals;
          mret (cat_at 2 received))
       (seq 0 w).

(** ** Tensor operations of torch used by [msa.py] *)

Abbreviation T2 F := (list (list F)) (only parsing).
Abbreviation T3 F := (list (list (list F))) (only parsing).
Abbreviation T4 F := (list (list (list (list F)))) (only parsing).

(** Apply [f] to every cell below three axes. *)
Definition map3 {A B} (f : A → B) (t : list (list (list A))) : list (list (list B)) :=
  fmap (M:=list) (fmap (M:=list) (fmap (M:=list) f)) t.

(** A matrix of [n] columns, transposed. *)
Definition transpose_n {A} (n : nat) (rows : list (list A)) : list (list A) :=
  foldr (zip_with cons) (replicate n []) rows.

(** The transpose of a matrix given by its rows. *)
Definition transpose {A} (rows : list (list A)) : list (list A) :=
  match rows with
  | [] => []
  | r :: _ => transpose_n (length r) rows
  end.

(** [t.transpose(1, 2)] on a tensor of at least three axes; this is
    [transpose(-2, -3)] on a 4-D tensor and [transpose(-1, -2)] on a 3-D one. *)
Definition transpose_1_2 {A} (t : list (list (list A))) : list (list (list A)) :=
  transpose <$> t.

(** Element-wise [a + b] and [a * b] of two tensors of the same shape. *)
Definition add1 `{Num F} (a b : list F) : list F := zip_with fadd a b.
Definition add4 `{Num F} (a b : T4 F) : T4 F :=
  zip_with (zip_with (zip_with add1)) a b.
Definition mul1 `{Num F} (a b : list F) : list F := zip_with fmul a b.

(** [torch.ones_like(t)] and [torch.zeros_like(t)]. *)
Definition ones_like `{Num F} (t : T4 F) : T4 F :=
  map3 (fmap (M:=list) (fun _ => fone)) t.
Definition zeros_like4 `{Num F} (t : T4 F) : T4 F :=
  map3 (fmap (M:=list) (fun _ => fzero)) t.

(** [F.linear(x, weight)]: every feature vector [v] of [x] becomes
    [weight · v]. *)
Definition dot `{Num F} (u v : list F) : F :=
  foldr fadd fzero (mul1 u v).
Definition linear `{Num F} (x : T4 F) (weight : T2 F) : T4 F :=
  map3 (fun v => (fun w => dot w v) <$> weight) x.

(** [torch.cat(ts, dim)] on 4-D tensors. *)
Definition cat4 {F} (dim : nat) (ts : list (T4 F)) : res (T4 F) :=
  match dim with
  | 0 => Ok (cat_at 0 ts)
  | 1 => Ok (cat_at 1 ts)
  | 2 => Ok (cat_at 2 ts)
  | 3 => Ok (cat_at 3 ts)
  | _ => raise IndexError
  end.

(** ** Programs of one worker

    The code of one worker is a tree of the communication calls it makes;
    everything else is computed in place.  [GatherAsync] answers with a
    placeholder tensor and a handle; [Wait] on the handle answers with the
    finalized tensor.  [Dropout] is the one call that reads the worker's
    random generator. *)

Definition handle := nat.

Inductive prog (F R : Type) : Type :=
| Ret (r : R)
| Raise (e : exn)
| RowToCol (t : T4 F) (k : T4 F → prog F R)
| Gather (t : T4 F) (dim : nat) (k : T4 F → prog F R)
| GatherAsync (t : T4 F) (dim : nat) (k : T4 F * handle → prog F R)
| Wait (h : handle) (k : T4 F → prog F R)
| Dropout (mask : T4 F) (p : F) (k : T4 F → prog F R).
Arguments Ret {F R} r.
Arguments Raise {F R} e.
Arguments RowToCol {F R} t k.
Arguments Gather {F R} t dim k.
Arguments GatherAsync {F R} t dim k.
Arguments Wait {F R} h k.
Arguments Dropout {F R} mask p k.

Fixpoint prog_bind {F R R'} (f : R → prog F R') (p : prog F R) : prog F R' :=
  match p with
  | Ret r => f r
  | Raise e => Raise e
  | RowToCol t k => RowToCol t (fun x => prog_bind f (k x))
  | Gather t dim k => Gather t dim (fun x => prog_bind f (k x))
  | GatherAsync t dim k => GatherAsync t dim (fun x => prog_bind f (k x))
  | Wait h k => Wait h (fun x => prog_bind f (k x))
  | Dropout m p k => Dropout m p (fun x => prog_bind f (k x))
  end.

#[global] Instance prog_ret {F} : MRet (prog F) := fun _ r => Ret r.
#[global] Instance prog_mbind {F} : MBind (prog F) := fun _ _ f p => prog_bind f p.

(** A local computation that may fail. *)
Definition lift {F A} (m : res A) : prog F A :=
  match m with
  | Ok a => Ret a
  | Err e => Raise e
  end.

(** Modelled from the spec: the communication calls of
    [model_acc/distributed] (sections 4.1 and 4.2) as one worker issues them. *)
Definition row_to_col {F} (input_ : T4 F) : prog F (T4 F) :=
  RowToCol input_ Ret.
Definition gather {F} (tensor : T4 F) (dim : nat) : prog F (T4 F) :=
  Gather tensor dim Ret.
Definition gather_async {F} (tensor : T4 F) (dim : nat) : prog F (T4 F * handle) :=
  GatherAsync tensor dim Ret.
Definition wait {F} (work : handle) : prog F (T4 F) :=
  Wait work Ret.
Definition dropout {F} (mask : T4 F) (p : F) : prog F (T4 F) :=
  Dropout mask p Ret.

(** ** The group semantics: workers in lockstep

    All workers run the same program on their own data and meet at every
    communication call (section 5: SPMD).  A worker that is elsewhere when
    the others reach a call is a protocol error, unless it raised, in which
    case its exception is the group's. *)

(** The mutable state around the group: the random generator of each worker
    and the collectives started by [gather_async] that nobody waited for
    yet, by handle, with their axis and the shards of all workers. *)
Record world (F G : Type) := mkWorld {
  gens : list G;
  inflight : gmap handle (nat * list (T4 F))
}.
Arguments mkWorld {F G} gens inflight.
Arguments gens {F G} _.
Arguments inflight {F G} _.

(** What the model leaves open: how a generator draws a dropout mask, and
    what the tensor returned by [gather_async] holds before [wait]. *)
Record backend (F G : Type) := mkBackend {
  draw : G → T4 F → F → T4 F * G;
  placeholder : nat → T4 F → T4 F
}.
Arguments mkBackend {F G} draw placeholder.
Arguments draw {F G} _ _ _ _.
Arguments placeholder {F G} _ _ _.

(** The communication calls of a run, in order. *)
Inductive comm_event :=
| EvRowToCol
| EvGather (dim : nat)
| EvGatherAsync (dim : nat) (h : handle)
| EvWait (h : handle)
| EvDropout.

Definition expect_Ret {F R} (p : prog F R) : res R :=
  match p with
  | Ret r => Ok r
  | Raise e => Err e
  | _ => Err ProtocolError
  end.

Definition expect_RowToCol {F R} (p : prog F R) : res (T4 F * (T4 F → prog F R)) :=
  match p with
  | RowToCol t k => Ok (t, k)
  | Raise e => Err e
  | _ => Err ProtocolError
  end.

Definition expect_Gather {F R} (dim : nat) (p : prog F R)
    : res (T4 F * (T4 F → prog F R)) :=
  match p with
  | Gather t dim' k => if decide (dim' = dim) then Ok (t, k) else Err ProtocolError
  | Raise e => Err e
  | _ => Err ProtocolError
  end.

Definition expect_GatherAsync {F R} (dim : nat) (p : prog F R)
    : res (T4 F * (T4 F * handle → prog F R)) :=
  match p with
  | GatherAsync t dim' k => if decide (dim' = dim) then Ok (t, k) else Err ProtocolError
  | Raise e => Err e
  | _ => Err ProtocolError
  end.

Definition expect_Wait {F R} (h : handle) (p : prog F R) : res (T4 F → prog F R) :=
  match p with
  | Wait h' k => if decide (h' = h) then Ok k else Err ProtocolError
  | Raise e => Err e
  | _ => Err ProtocolError
  end.

Definition expect_Dropout {F R} (p : prog F R) : res (T4 F * F * (T4 F → prog F R)) :=
  match p with
  | Dropout m q k => Ok (m, q, k)
  | Raise e => Err e
  | _ => Err ProtocolError
  end.

(** The result of a run: a result per worker by rank, the state it leaves,
    and the communication calls made. *)
Definition outcome (F G R : Type) : Type := list R * world F G * list comm_event.

Definition logged {F G R} (ev : comm_event) (m : res (outcome F G R))
    : res (outcome F G R) :=
  '(rs, σ, tr) ← m; Ok (rs, σ, ev :: tr).

(** [run B p0 ps σ]: worker 0 runs [p0] and workers 1, 2, ... run [ps]. *)
Fixpoint run {F G R} (B : backend F G) (p0 : prog F R) (ps : list (prog F R))
    (σ : world F G) {struct p0} : res (outcome F G R) :=
  match p0 with
  | Ret r0 =>
      rs ← mapM expect_Ret ps;
      Ok (r0 :: rs, σ, [])
  | Raise e => Err e
  | RowToCol t0 k0 =>
      tks ← mapM expect_RowToCol ps;
      outs ← row_to_col_all (t0 :: tks.*1);
      match outs with
      | o0 :: os =>
          logged EvRowToCol
            (run B (k0 o0) (zip_with (fun tk o => tk.2 o) tks os) σ)
      | [] => Err ProtocolError
      end
  | Gather t0 dim k0 =>
      tks ← mapM (expect_Gather dim) ps;
      full ← cat4 dim (t0 :: tks.*1);
      logged (EvGather dim)
        (run B (k0 full) ((fun tk => tk.2 full) <$> tks) σ)
  | GatherAsync t0 dim k0 =>
      tks ← mapM (expect_GatherAsync dim) ps;
      let h := fresh (dom (inflight σ)) in
      let σ' := mkWorld (gens σ) (<[h := (dim, t0 :: tks.*1)]> (inflight σ)) in
      logged (EvGatherAsync dim h)
        (run B (k0 (placeholder B dim t0, h))
           ((fun tk => tk.2 (placeholder B dim tk.1, h)) <$> tks) σ')
  | Wait h k0 =>
      ks ← mapM (expect_Wait h) ps;
      match inflight σ !! h with
      | Some (dim, shards) =>
          full ← cat4 dim shards;
          logged (EvWait h)
            (run B (k0 full) ((fun k => k full) <$> ks)
               (mkWorld (gens σ) (delete h (inflight σ))))
      | None => Err ProtocolError
      end
  | Dropout m0 q0 k0 =>
      mks ← mapM expect_Dropout ps;
      match gens σ with
      | g0 :: gs =>
          if decide (length gs = length mks) then
            let d0 := draw B g0 m0 q0 in
            let ds := zip_with (fun g mk => draw B g mk.1.1 mk.1.2) gs mks in
            logged EvDropout
              (run B (k0 d0.1) (zip_with (fun mk d => mk.2 d.1) mks ds)
                 (mkWorld (d0.2 :: ds.*2) (inflight σ)))
          else Err ProtocolError
      | [] => Err ProtocolError
      end
  end.

(** A group of [w] workers running the program [P] of their rank. *)
Definition run_spmd {F G R} (B : backend F G) (w : nat) (P : nat → prog F R)
    (σ : world F G) : res (outcome F G R) :=
  match w with
  | O => Err ProtocolError
  | S w' => run B (P O) (P <$> seq 1 w') σ
  end.

(** ** The kernels [msa.py] imports

    [model_acc/kernel] and [model_acc/ops] are not part of the sources at
    hand.  Each class is modelled by what the specification says of it; its
    weights and hyper-parameters are folded into the function it carries. *)

Module LayerNorm.

(** Modelled from the spec: [LayerNorm] of [model_acc/kernel] (section 2,
    supporting kernels): layer normalization, which normalizes every feature
    vector (the last axis) on its own. *)
Record t (F : Type) := mk { fn : list F → list F }.
Arguments mk {F} fn.
Arguments fn {F} _ _.

Definition forward {F} (self : t F) (x : T4 F) : T4 F :=
  map3 (fn self) x.

End LayerNorm.

Module SelfAttention.

(** Modelled from the spec: [SelfAttention] of [model_acc/ops] (section
    4.3): attention over the innermost two axes, so every [positions,
    features] slice is attended on its own, under its row of the mask and,
    when there is one, the pair bias of its batch element.  When the bias
    comes with the handle of its gather, the handle is waited for at the
    point the bias is needed (section 4.4). *)
Record t (F : Type) := mk { core : option (T3 F) → list F → T2 F → T2 F }.
Arguments mk {F} core.
Arguments core {F} _ _ _ _.

(** The attention itself, once the bias (if any) is there. *)
Definition attend {F} (self : t F) (in_data : T4 F) (mask : T3 F)
    (bias : option (T4 F)) : T4 F :=
  match bias with
  | None =>
      zip_with (fun M_b mask_b => zip_with (core self None) mask_b M_b)
        in_data mask
  | Some bias =>
      zip_with
        (fun Mm bias_b => zip_with (core self (Some bias_b)) Mm.2 Mm.1)
        (zip in_data mask) bias
  end.

Definition forward {F} (self : t F) (in_data : T4 F) (mask : T3 F)
    (nonbatched_bias : option (T4 F * handle)) : prog F (T4 F) :=
  match nonbatched_bias with
  | None => mret (attend self in_data mask None)
  | Some (_, work) =>
      bias ← wait work;
      mret (attend self in_data mask (Some bias))
  end.

End SelfAttention.

Module GlobalAttention.

(** Modelled from the spec: [GlobalAttention] of [model_acc/ops] (section
    4.3): attention over the innermost two axes with the queries averaged
    over the attended axis; no pair bias. *)
Record t (F : Type) := mk { core : list F → T2 F → T2 F }.
Arguments mk {F} core.
Arguments core {F} _ _ _.

Definition forward {F} (self : t F) (in_data : T4 F) (mask : T3 F) : T4 F :=
  zip_with (fun M_b mask_b => zip_with (core self) mask_b M_b) in_data mask.

End GlobalAttention.

Module Transition.

(** Modelled from the spec: [Transition] of [model_acc/ops] (section 4.6,
    step 4): the two-layer feed-forward with nonlinearity, applied to every
    feature vector, with residual addition. *)
Record t (F : Type) := mk { ff : list F → list F }.
Arguments mk {F} ff.
Arguments ff {F} _ _.

Definition forward {F} `{Num F} (self : t F) (src : T4 F) : T4 F :=
  map3 (fun v => add1 v (ff self v)) src.

End Transition.

(** The single row of a dropout mask of shape [batch, 1, columns, features]. *)
Definition mask_row {F} (m_b : T3 F) : T2 F :=
  match m_b with
  | row :: _ => row
  | [] => []
  end.

(** Modelled from the spec: [bias_dropout_add] of [model_acc/kernel]
    (sections 4.4 and 9): three composable operations: add the bias, apply
    the dropout mask during training only, add the residual.  The mask has
    one row, shared by all rows of [x]. *)
Definition bias_dropout_add {F} `{Num F} (x : T4 F) (bias : list F)
    (dropmask : T4 F) (residual : T4 F) (prob : F) (training : bool)
    : prog F (T4 F) :=
  let out := map3 (fun v => add1 v bias) x in
  out ← (if training
         then m ← dropout dropmask prob;
              mret (zip_with
                      (fun out_b m_b =>
                         (fun row => zip_with mul1 row (mask_row m_b)) <$> out_b)
                      out m)
         else mret out);
  mret (add4 residual out).

(** ** [model_acc/msa.py] *)

Module MSARowAttentionWithPairBias.

Record t (F : Type) := mk {
  p_drop : F;
  layernormM : LayerNorm.t F;
  layernormZ : LayerNorm.t F;
  linear_b_weights : T2 F;
  attention : SelfAttention.t F;
  out_bias : list F;
  training : bool
}.
Arguments mk {F}.
Arguments p_drop {F} _.
Arguments layernormM {F} _.
Arguments layernormZ {F} _.
Arguments linear_b_weights {F} _.
Arguments attention {F} _.
Arguments out_bias {F} _.
Arguments training {F} _.

Definition forward {F} `{Num F} (self : t F) (M_raw Z : T4 F) (M_mask : T3 F)
    : prog F (T4 F) :=
  let M := LayerNorm.forward (layernormM self) M_raw in
  let Z := LayerNorm.forward (layernormZ self) Z in
  let b := linear Z (linear_b_weights self) in
  bw ← gather_async b 1;
  M ← SelfAttention.forward (attention self) M M_mask (Some bw);
  let dropout_mask := ones_like (take 1 <$> M) in
  bias_dropout_add M (out_bias self) dropout_mask M_raw
    (p_drop self) (training self).

End MSARowAttentionWithPairBias.

Module MSAColumnAttention.

Record t (F : Type) := mk {
  layernormM : LayerNorm.t F;
  attention : SelfAttention.t F
}.
Arguments mk {F}.
Arguments layernormM {F} _.
Arguments attention {F} _.

Definition forward {F} `{Num F} (self : t F) (M_raw : T4 F) (M_mask : T3 F)
    : prog F (T4 F) :=
  let M := transpose_1_2 M_raw in
  let M := LayerNorm.forward (layernormM self) M in
  let M_mask := transpose_1_2 M_mask in
  M ← SelfAttention.forward (attention self) M M_mask None;
  let M := transpose_1_2 M in
  mret (add4 M_raw M).

End MSAColumnAttention.

Module MSAColumnGlobalAttention.

Record t (F : Type) := mk {
  layernormM : LayerNorm.t F;
  global_attention : GlobalAttention.t F
}.
Arguments mk {F}.
Arguments layernormM {F} _.
Arguments global_attention {F} _.

Definition forward {F} `{Num F} (self : t F) (M_raw : T4 F) (M_mask : T3 F)
    : prog F (T4 F) :=
  let M := transpose_1_2 M_raw in
  let M := LayerNorm.forward (layernormM self) M in
  let M_mask := transpose_1_2 M_mask in
  let M := GlobalAttention.forward (global_attention self) M M_mask in
  let M := transpose_1_2 M in
  mret (add4 M_raw M).

End MSAColumnGlobalAttention.

Module MSAStack.

Record t (F : Type) := mk {
  MSARowAttentionWithPairBias : MSARowAttentionWithPairBias.t F;
  MSAColumnAttention : MSAColumnAttention.t F;
  MSATransition : Transition.t F
}.
Arguments mk {F}.
Arguments MSARowAttentionWithPairBias {F} _.
Arguments MSAColumnAttention {F} _.
Arguments MSATransition {F} _.

(** [forward]; [c] is the tensor-parallel context of the calling worker. *)
Definition forward {F} `{Num F} (c : comm) (self : t F)
    (node pair : T4 F) (node_mask : T3 F) : prog F (T4 F) :=
  node_mask_row ← lift (scatter c 1 node_mask);
  node ← MSARowAttentionWithPairBias.forward
            (MSARowAttentionWithPairBias self) node pair node_mask_row;
  node ← row_to_col node;
  node_mask_col ← lift (scatter c 2 node_mask);
  node ← MSAColumnAttention.forward (MSAColumnAttention self) node node_mask_col;
  let node := Transition.forward (MSATransition self) node in
  mret node.

End MSAStack.

Module ExtraMSAStack.

Record t (F : Type) := mk {
  MSARowAttentionWithPairBias : MSARowAttentionWithPairBias.t F;
  MSAColumnAttention : MSAColumnGlobalAttention.t F;
  MSATransition : Transition.t F
}.
Arguments mk {F}.
Arguments MSARowAttentionWithPairBias {F} _.
Arguments MSAColumnAttention {F} _.
Arguments MSATransition {F} _.

Definition forward {F} `{Num F} (c : comm) (self : t F)
    (node pair : T4 F) (node_mask : T3 F) : prog F (T4 F) :=
  node_mask_row ← lift (scatter c 1 node_mask);
  node ← MSARowAttentionWithPairBias.forward
            (MSARowAttentionWithPairBias self) node pair node_mask_row;
  node ← row_to_col node;
  node_mask_col ← lift (scatter c 2 node_mask);
  node ← MSAColumnGlobalAttention.forward (MSAColumnAttention self) node node_mask_col;
  let node := Transition.forward (MSATransition self) node in
  mret node.

End ExtraMSAStack.

(** ** What the blocks compute, and what a run leaves behind

    The definitions below are what the statements about [msa.py] are
    written with: the value of each block at inference, the stages of a
    stack's forward pass in a group, shapes, shards and traces. *)

(** What a run leaves behind, apart from its trace. *)
Definition observable {F G R} (m : res (outcome F G R)) : res (list R * world F G) :=
  fst <$> m.

(** The results of a run, by rank. *)
Definition results {F G R} (m : res (outcome F G R)) : res (list R) :=
  (fun o => o.1.1) <$> m.

(** The number of row-to-column exchanges in a trace. *)
Fixpoint exchanges (tr : list comm_event) : nat :=
  match tr with
  | [] => 0
  | EvRowToCol :: tr => S (exchanges tr)
  | _ :: tr => exchanges tr
  end.

(** Sequencing two runs: the traces follow one another. *)
Definition then_run {F G R R'} (m : res (outcome F G R))
    (k : list R → world F G → res (outcome F G R')) : res (outcome F G R') :=
  '(rs, σ1, tr1) ← m;
  '(rs', σ2, tr2) ← k rs σ1;
  Ok (rs', σ2, tr1 ++ tr2).

(** The pair bias a worker projects from its part of the pair tensor. *)
Definition pair_bias {F} `{Num F} (self : MSARowAttentionWithPairBias.t F)
    (Z : T4 F) : T4 F :=
  linear (LayerNorm.forward (MSARowAttentionWithPairBias.layernormZ self) Z)
    (MSARowAttentionWithPairBias.linear_b_weights self).

(** The row block at inference, given the gathered bias. *)
Definition row_block {F} `{Num F} (self : MSARowAttentionWithPairBias.t F)
    (M_raw : T4 F) (bias : T4 F) (M_mask : T3 F) : T4 F :=
  let M := SelfAttention.attend (MSARowAttentionWithPairBias.attention self)
             (LayerNorm.forward (MSARowAttentionWithPairBias.layernormM self) M_raw)
             M_mask (Some bias) in
  add4 M_raw (map3 (fun v => add1 v (MSARowAttentionWithPairBias.out_bias self)) M).

(** The column block. *)
Definition col_block {F} `{Num F} (self : MSAColumnAttention.t F) (M_raw : T4 F)
    (M_mask : T3 F) : T4 F :=
  let M := SelfAttention.attend (MSAColumnAttention.attention self)
             (LayerNorm.forward (MSAColumnAttention.layernormM self)
                (transpose_1_2 M_raw))
             (transpose_1_2 M_mask) None in
  add4 M_raw (transpose_1_2 M).

(** The global column block of the extra stack. *)
Definition col_global_block {F} `{Num F} (self : MSAColumnGlobalAttention.t F)
    (M_raw : T4 F) (M_mask : T3 F) : T4 F :=
  let M := GlobalAttention.forward (MSAColumnGlobalAttention.global_attention self)
             (LayerNorm.forward (MSAColumnGlobalAttention.layernormM self)
                (transpose_1_2 M_raw))
             (transpose_1_2 M_mask) in
  add4 M_raw (transpose_1_2 M).

(** What a group of [w] workers computes in a stack's [forward] at
    inference, stage by stage, given the column block [col] of the stack. *)
Definition stack_stages {F} `{Num F} {G} (w : nat)
    (row : MSARowAttentionWithPairBias.t F) (col : T4 F → T3 F → T4 F)
    (trans : Transition.t F)
    (node pair : nat → T4 F) (node_mask : T3 F) (σ : world F G)
    : res (outcome F G (T4 F)) :=
  k_row ← divide (size_along 1 node_mask) w;
  let node_mask_row r := map_at 1 (chunk k_row r) node_mask in
  let bias := cat_at 1 ((fun r => pair_bias row (pair r)) <$> seq 0 w) in
  let node1 r := row_block row (node r) bias (node_mask_row r) in
  node2 ← row_to_col_all (node1 <$> seq 0 w);
  k_col ← divide (size_along 2 node_mask) w;
  let node_mask_col r := map_at 2 (chunk k_col r) node_mask in
  let node4 r := Transition.forward trans (col (node2 !!! r) (node_mask_col r)) in
  let h := fresh (dom (inflight σ)) in
  Ok (node4 <$> seq 0 w, σ, [EvGatherAsync 1 h; EvWait h; EvRowToCol]).

(** The stages of a stack's forward pass in a group of [w] workers: the row
    block on the row-sharded mask, the row-to-column exchange of the node,
    the column block [col] on the column shard of the full mask, the
    transition. *)
Definition stack_sequence {F G} `{Num F} (B : backend F G) (w : nat)
    (row : MSARowAttentionWithPairBias.t F) (col : T4 F → T3 F → T4 F)
    (trans : Transition.t F)
    (node pair : nat → T4 F) (node_mask : T3 F) (σ : world F G)
    : res (outcome F G (T4 F)) :=
  k_row ← divide (size_along 1 node_mask) w;
  then_run
    (run_spmd B w (fun r =>
       MSARowAttentionWithPairBias.forward row (node r) (pair r)
         (map_at 1 (chunk k_row r) node_mask)) σ)
    (fun node1 σ1 =>
       node2 ← row_to_col_all node1;
       k_col ← divide (size_along 2 node_mask) w;
       Ok ((fun r => Transition.forward trans
                       (col (node2 !!! r) (map_at 2 (chunk k_col r) node_mask)))
             <$> seq 0 w,
           σ1, [EvRowToCol])).

(** The whole stack on the full tensors, with column block [col]. *)
Definition stack_fn {F} `{Num F} (row : MSARowAttentionWithPairBias.t F)
    (col : T4 F → T3 F → T4 F) (trans : Transition.t F)
    (node pair : T4 F) (node_mask : T3 F) : T4 F :=
  Transition.forward trans
    (col (row_block row node (pair_bias row pair) node_mask) node_mask).

(** The row block written with the synchronous [gather]: the reference the
    asynchronous version is compared with. *)
Definition row_forward_with_gather {F} `{Num F}
    (self : MSARowAttentionWithPairBias.t F) (M_raw Z : T4 F) (M_mask : T3 F)
    : prog F (T4 F) :=
  let M := LayerNorm.forward (MSARowAttentionWithPairBias.layernormM self) M_raw in
  let Z := LayerNorm.forward (MSARowAttentionWithPairBias.layernormZ self) Z in
  let b := linear Z (MSARowAttentionWithPairBias.linear_b_weights self) in
  b ← gather b 1;
  let M := SelfAttention.attend (MSARowAttentionWithPairBias.attention self)
             M M_mask (Some b) in
  let dropout_mask := ones_like (take 1 <$> M) in
  bias_dropout_add M (MSARowAttentionWithPairBias.out_bias self) dropout_mask
    M_raw (MSARowAttentionWithPairBias.p_drop self)
    (MSARowAttentionWithPairBias.training self).

(** A matrix of [n] rows and [m] columns. *)
Definition matrix {A} (n m : nat) (rows : list (list A)) : Prop :=
  length rows = n ∧ Forall (fun r => length r = m) rows.

(** A tensor of extents [B], [R], [C] along its first three axes. *)
Definition shape3 {A} (B R C : nat) (t : list (list (list A))) : Prop :=
  length t = B ∧ Forall (matrix R C) t.

(** The attention returns a slice of as many positions as it is given. *)
Definition keeps_length {F} (core : option (T3 F) → list F → T2 F → T2 F) : Prop :=
  ∀ bias mask_row slice, length (core bias mask_row slice) = length slice.

(** The row shards and the column shards of a tensor [X] in a group of [w]
    workers, by rank. *)
Definition row_shards {A} (w kR : nat) (X : nest 3 A) : list (nest 3 A) :=
  (fun r => map_at 1 (chunk kR r) X) <$> seq 0 w.
Definition col_shards {A} (w kC : nat) (X : nest 3 A) : list (nest 3 A) :=
  (fun j => map_at 2 (chunk kC j) X) <$> seq 0 w.

(** The cell of batch element [b], row [i] and column [c]. *)
Definition at3 {A} (t : list (list (list A))) (b i c : nat) : option A :=
  match t !! b with
  | Some rows => match rows !! i with
                 | Some row => row !! c
                 | None => None
                 end
  | None => None
  end.

(** Scalars in which adding zero changes nothing. *)
Class NumLaws (F : Type) `{Num F} : Prop := {
  fadd_0_r : ∀ x : F, fadd x fzero = x;
  fadd_0_l : ∀ x : F, fadd fzero x = x
}.

(** ** Examples over the integers *)

#[global] Instance Z_num : Num Z :=
  {| fzero := 0%Z; fone := 1%Z; fadd := Z.add; fmul := Z.mul |}.
#[global] Instance Z_num_laws : NumLaws Z.
Proof. split; intros x; simpl; lia. Qed.

Open Scope Z_scope.

(** A prediction for two residues, without [asym_id]. *)
Definition features_ex : gmap string (ndarray Z) :=
  {[ "aatype" := Array [Array [Scalar 3; Scalar 7]];
     "residue_index" := Array [Array [Scalar 0; Scalar 1]] ]}.
Definition result_ex : gmap string (value Z) :=
  {[ "final_atom_mask" := VArr (Array [Scalar 1]);
     "final_atom_positions" := VArr (Array [Scalar 0]) ]}.
Definition protein_ex : Protein Z :=
  mkProtein (VArr (Array [Scalar 0])) (Array [Scalar 3; Scalar 7])
    (VArr (Array [Scalar 1])) (Array [Scalar 1; Scalar 2])
    (Array [Scalar 0]) (Array [Scalar 0; Scalar 0]) None None None.

(** A prediction whose residue index is the largest value of [int64]. *)
Definition features_last_ex : gmap string (ndarray Z) :=
  {[ "aatype" := Array [Array [Scalar 3]];
     "residue_index" := Array [Array [Scalar 9223372036854775807]] ]}.

Close Scope Z_scope.

(** Kernels that return zero, and a row block with a non-zero output bias. *)
Definition ln_id : LayerNorm.t Z := LayerNorm.mk (fun v => v).
Definition zero_attention : SelfAttention.t Z :=
  SelfAttention.mk (fun _ _ slice => fmap (M:=list) (fun _ => 0%Z) <$> slice).
Definition zero_global_attention : GlobalAttention.t Z :=
  GlobalAttention.mk (fun _ slice => fmap (M:=list) (fun _ => 0%Z) <$> slice).
Definition zero_transition : Transition.t Z :=
  Transition.mk (fun v => (fun _ => 0%Z) <$> v).
Definition biased_row : MSARowAttentionWithPairBias.t Z :=
  MSARowAttentionWithPairBias.mk 0%Z ln_id ln_id [[1%Z]] zero_attention [1%Z] false.

(** A backend that never drops a cell, and a world of [w] idle generators. *)
Definition idle : backend Z nat := mkBackend (fun g m _ => (m, g)) (fun _ t => t).
Definition fresh_world (w : nat) : world Z nat := mkWorld (replicate w 0) ∅.

(** A backend whose generator is a counter: even states drop every cell,
    odd states keep and double it. *)
Definition coin : backend Z nat :=
  mkBackend
    (fun g m _ => (map3 (fmap (M:=list) (fun x => if Nat.even g then 0%Z else (2 * x)%Z)) m,
                   S g))
    (fun _ t => t).

(** An attention that mixes the positions of a slice: every position
    receives the masked sum of all positions and the sum of the bias. *)
Definition pooled (mask_row : list Z) (slice : T2 Z) : list Z :=
  foldr add1
    (match slice with r :: _ => (fun _ => 0%Z) <$> r | [] => [] end)
    (zip_with (fun m row => Z.mul m <$> row) mask_row slice).
Definition bias_total (bias : option (T3 Z)) : Z :=
  match bias with
  | Some b => foldr Z.add 0%Z (concat (concat b))
  | None => 0%Z
  end.
Definition mixing_core (bias : option (T3 Z)) (mask_row : list Z) (slice : T2 Z)
    : T2 Z :=
  (fun row => Z.add (bias_total bias) <$> add1 row (pooled mask_row slice)) <$> slice.

Definition mixing_attention : SelfAttention.t Z := SelfAttention.mk mixing_core.
Definition mixing_global_attention : GlobalAttention.t Z :=
  GlobalAttention.mk (mixing_core None).
Definition ln_shift : LayerNorm.t Z := LayerNorm.mk (fmap (M:=list) (Z.add 1)).
Definition doubling_transition : Transition.t Z :=
  Transition.mk (fmap (M:=list) (Z.mul 2)).

(** Stacks for tensors of four node features and two pair features. *)
Definition row_ex (training : bool) : MSARowAttentionWithPairBias.t Z :=
  MSARowAttentionWithPairBias.mk 0%Z ln_shift ln_shift [[1; 2]; [3; 4]]%Z
    mixing_attention [1; 1; 1; 1]%Z training.
Definition stack_ex (training : bool) : MSAStack.t Z :=
  MSAStack.mk (row_ex training) (MSAColumnAttention.mk ln_shift mixing_attention)
    doubling_transition.
Definition extra_stack_ex (training : bool) : ExtraMSAStack.t Z :=
  ExtraMSAStack.mk (row_ex training)
    (MSAColumnGlobalAttention.mk ln_shift mixing_global_attention)
    doubling_transition.

(** Stacks for tensors of one node feature and one pair feature. *)
Definition row_small (training : bool) : MSARowAttentionWithPairBias.t Z :=
  MSARowAttentionWithPairBias.mk 0%Z ln_shift ln_shift [[2]]%Z
    mixing_attention [1]%Z training.
Definition stack_small (training : bool) : MSAStack.t Z :=
  MSAStack.mk (row_small training) (MSAColumnAttention.mk ln_shift mixing_attention)
    doubling_transition.
Definition extra_stack_small (training : bool) : ExtraMSAStack.t Z :=
  ExtraMSAStack.mk (row_small training)
    (MSAColumnGlobalAttention.mk ln_shift mixing_global_attention)
    doubling_transition.

(** An MSA tensor of shape [1, 8, 16, 4], its all-ones mask and a pair
    tensor of shape [1, 16, 16, 2]. *)
Definition node_ex : T4 Z :=
  [ (fun i => (fun c => (fun f => Z.of_nat (64 * i + 4 * c + f)) <$> seq 0 4)
                <$> seq 0 16) <$> seq 0 8 ].
Definition mask_ex : T3 Z := [ replicate 8 (replicate 16 1%Z) ].
Definition pair_ex : T4 Z :=
  [ (fun i => (fun c => [Z.of_nat (i + c); Z.of_nat (i * c)]) <$> seq 0 16)
      <$> seq 0 16 ].

(** Small inputs: a node of shape [1, 2, 2, 1], a mask with one position
    masked out and a pair tensor of shape [1, 2, 2, 1]. *)
Definition node_small : T4 Z := [ [ [[1]; [2]]; [[3]; [4]] ] ]%Z.
Definition mask_small : T3 Z := [ [ [1; 1]; [1; 0] ] ]%Z.
Definition pair_small : T4 Z := [ [ [[1]; [0]]; [[0]; [1]] ] ]%Z.

(** ** Examples over the rationals: dropout with a probability of one half *)

#[global] Instance Q_num : Num QArith_base.Q :=
  {| fzero := QArith_base.inject_Z 0;
     fone := QArith_base.inject_Z 1;
     fadd := fun a b => Qreduction.Qred (QArith_base.Qplus a b);
     fmul := fun a b => Qreduction.Qred (QArith_base.Qmult a b) |}.

(** The integers among the rationals, cell by cell. *)
Definition rational4 (t : T4 Z) : T4 QArith_base.Q :=
  map3 (fmap (M:=list) QArith_base.inject_Z) t.
Definition rational3 (t : T3 Z) : T3 QArith_base.Q :=
  fmap (M:=list) (fmap (M:=list) (fmap (M:=list) QArith_base.inject_Z)) t.

(** Dropout as [torch.nn.functional.dropout] does it in training mode, with
    a counter for generator: with [p = 0] the mask comes back as it is and
    nothing is drawn; with [p = 1] every cell is zero and nothing is drawn;
    otherwise a cell is dropped, or kept and divided by [1 - p].  This
    generator drops all cells on even states and keeps all on odd states. *)
Definition bernoulli : backend QArith_base.Q nat :=
  mkBackend
    (fun g m p =>
       if QArith_base.Qeq_bool p (QArith_base.inject_Z 0) then (m, g)
       else if QArith_base.Qeq_bool p (QArith_base.inject_Z 1)
       then (map3 (fmap (M:=list) (fun _ => QArith_base.inject_Z 0)) m, g)
       else (map3 (fmap (M:=list)
                     (fun x => if Nat.even g then QArith_base.inject_Z 0
                               else Qreduction.Qred
                                      (QArith_base.Qdiv x
                                         (QArith_base.Qminus (QArith_base.inject_Z 1) p))))
               m,
             S g))
    (fun _ t => t).

(** The kernels of the stacks over the integers, for any numbers. *)
Section KernelsOfNumbers.
Context {F : Type} `{Num F}.

Definition pooled_of (mask_row : list F) (slice : T2 F) : list F :=
  foldr add1
    (match slice with r :: _ => (fun _ => fzero) <$> r | [] => [] end)
    (zip_with (fun m row => fmul m <$> row) mask_row slice).
Definition bias_total_of (bias : option (T3 F)) : F :=
  match bias with
  | Some b => foldr fadd fzero (concat (concat b))
  | None => fzero
  end.
Definition mixing_core_of (bias : option (T3 F)) (mask_row : list F) (slice : T2 F)
    : T2 F :=
  (fun row => fadd (bias_total_of bias) <$> add1 row (pooled_of mask_row slice))
    <$> slice.
Definition ln_shift_of : LayerNorm.t F := LayerNorm.mk (fmap (M:=list) (fadd fone)).
Definition doubling_transition_of : Transition.t F :=
  Transition.mk (fmap (M:=list) (fmul (fadd fone fone))).

(** The stack [stack_small], with the dropout probability [p_drop]. *)
Definition stack_with (p_drop : F) (training : bool) : MSAStack.t F :=
  MSAStack.mk
    (MSARowAttentionWithPairBias.mk p_drop ln_shift_of ln_shift_of
       [[fadd fone fone]] (SelfAttention.mk mixing_core_of) [fone] training)
    (MSAColumnAttention.mk ln_shift_of (SelfAttention.mk mixing_core_of))
    doubling_transition_of.

End KernelsOfNumbers.

Definition one_half : QArith_base.Q := QArith_base.Qmake 1 2.

(** * Further code of [np/protein.py] and of [msa.py]

    The PDB side of [np/protein.py]: the chain table of [to_pdb],
    [_chain_end], [get_pdb_headers] and [add_pdb_headers]; and the
    constructors of [msa.py]. *)

Open Scope Z_scope.

(** Whether the outcome is a [ValueError]. *)
Definition raises_ValueError {A} (m : res A) : bool :=
  match m with
  | Err (ValueError _) => true
  | _ => false
  end.

(** A result in AlphaFold's layout, with the outputs under
    ["structure_module"] only. *)
Definition result_nested : gmap string (value Z) :=
  {[ "structure_module" :=
       VDict {[ "final_atom_mask" := Array [Scalar 1];
                "final_atom_positions" := Array [Scalar 0] ]} ]}.

(** ** The chain table of [to_pdb] *)

(** [arr.astype(np.int32)] on an integer: its low 32 bits, read as a signed
    number. *)
Definition int32 (x : Z) : Z := (x + 2 ^ 31) mod 2 ^ 32 - 2 ^ 31.

(** [s[i]] on a string: a negative index counts from the end. *)
Definition str_getitem (s : string) (i : Z) : res ascii :=
  let n := Z.of_nat (String.length s) in
  let j := if i <? 0 then i + n else i in
  if decide (0 ≤ j < n) then
    match String.get (Z.to_nat j) s with
    | Some c => Ok c
    | None => raise IndexError
    end
  else raise IndexError.

Definition invalid_aatypes_msg : string := "Invalid aatypes.".
Definition at_most_chains_msg : string := "The PDB format supports at most 62 chains.".

(** The loop of [to_pdb] that maps chain indices to chain IDs, over the
    sorted distinct chain indices. *)
Fixpoint chain_ids_loop (unique : list Z) (chain_ids : gmap Z ascii)
    : res (gmap Z ascii) :=
  match unique with
  | [] => Ok chain_ids
  | i :: unique' =>
      if decide (Z.of_nat PDB_MAX_CHAINS ≤ i) then raise (ValueError at_most_chains_msg)
      else
        c ← str_getitem PDB_CHAIN_IDS i;
        chain_ids_loop unique' (<[i := c]> chain_ids)
  end.

(** [to_pdb], up to the table of chain IDs it writes the atoms with: the
    check of the residue types against [residue_constants.restype_num] (a
    constant of a module that is not among the sources, hence a parameter)
    and the construction of [chain_ids]. *)
Definition to_pdb_chain_ids {F} (restype_num : Z) (prot : Protein F)
    : res (gmap Z ascii) :=
  let aatype := aatype prot in
  let chain_index := ndmap int32 (chain_index prot) in
  if existsb (fun a => restype_num <? a) (ravel aatype)
  then raise (ValueError invalid_aatypes_msg)
  else chain_ids_loop (np_unique chain_index) ∅.

(** ** Exceptions of built-in operations *)

(** The functions below can also raise [TypeError]. *)
Inductive exn_t :=
| TypeError
| Exn (e : exn).

Inductive result (A : Type) : Type :=
| Val (a : A)
| Exc (e : exn_t).
Arguments Val {A} a.
Arguments Exc {A} e.

#[global] Instance result_ret : MRet result := fun _ a => Val a.
#[global] Instance result_bind : MBind result := fun _ _ f m =>
  match m with
  | Val a => f a
  | Exc e => Exc e
  end.

(** ** Strings *)

(** [sep.join(l)]. *)
Fixpoint join (sep : string) (l : list string) : string :=
  match l with
  | [] => ""
  | s :: l' => match l' with
               | [] => s
               | _ :: _ => s +:+ sep +:+ join sep l'
               end
  end.

(** [sub in s]. *)
Fixpoint contains (sub s : string) : bool :=
  String.prefix sub s
  || match s with
     | EmptyString => false
     | String _ s' => contains sub s'
     end.

(** [s.split(c)] for a separator of one character. *)
Fixpoint split_on (c : ascii) (s : string) : list string :=
  match s with
  | EmptyString => [""]
  | String a s' =>
      if Ascii.eqb a c then "" :: split_on c s'
      else match split_on c s' with
           | x :: l => String a x :: l
           | [] => [String a ""]
           end
  end.

Definition newline : ascii := "010"%char.

(** [l[i]] on a list, for an index that is not negative. *)
Definition getitem {A} (l : list A) (i : nat) : res A :=
  match l !! i with
  | Some x => Ok x
  | None => raise IndexError
  end.

(** [max(l)] on a list of integers. *)
Definition py_max (l : list Z) : res Z :=
  match l with
  | [] => raise (ValueError "max() arg is an empty sequence")
  | x :: l' => Ok (foldl Z.max x l')
  end.

(** [f"{s:>w}"] and [f"{s:<w}"]: padding to at least [w] characters. *)
Fixpoint spaces (n : nat) : string :=
  match n with
  | O => ""
  | S n' => String " " (spaces n')
  end.
Definition rjust (w : nat) (s : string) : string :=
  spaces (w - String.length s) +:+ s.
Definition ljust (w : nat) (s : string) : string :=
  s +:+ spaces (w - String.length s).

(** ** [_chain_end] *)

Definition _chain_end (atom_index : Z) (end_resname chain_name : string)
    (residue_index : Z) : string :=
  let chain_end := "TER" in
  ljust 6 chain_end +:+ rjust 5 (pretty atom_index) +:+ "      "
  +:+ rjust 3 end_resname +:+ " "
  +:+ rjust 1 chain_name +:+ rjust 4 (pretty residue_index).

(** ** [get_pdb_headers] and [add_pdb_headers] *)

Definition make_parent_line (p : list string) : string :=
  "PARENT " +:+ join " " p.

Definition get_pdb_headers {F} (prot : Protein F) (chain_id : Z)
    : result (list string) :=
  let pdb_headers := [] in
  let pdb_headers :=
    match remark prot with
    | Some remark => pdb_headers ++ ["REMARK " +:+ remark]
    | None => pdb_headers
    end in
  parents ←
    match parents_chain_index prot with
    | Some parents_chain_index =>
        match parents prot with
        | Some parents =>
            Val (Some ((filter (fun ip => ip.1 = chain_id)
                          (zip parents_chain_index parents)).*2))
        | None => Exc TypeError
        end
    | None => Val (parents prot)
    end;
  let parents :=
    match parents with
    | None | Some [] => ["N/A"]
    | Some parents => parents
    end in
  Val (pdb_headers ++ ["PARENT " +:+ join " " parents]).

(** The dictionary [parent_dict] of [add_pdb_headers]: the parents of every
    chain, in the order they come.  Its keys are [str(i)], read back with
    [int]; the model keeps the integer. *)
Definition parent_dict_of (pairs : list (string * Z)) : gmap Z (list string) :=
  foldl (fun parent_dict pi =>
           let parent_dict :=
             match parent_dict !! pi.2 with
             | Some _ => parent_dict
             | None => <[pi.2 := []]> parent_dict
             end in
           <[pi.2 := default [] (parent_dict !! pi.2) ++ [pi.1]]> parent_dict)
        ∅ pairs.

(** The parents of every chain, as [add_pdb_headers] lists them in
    [parents_per_chain]. *)
Definition parents_per_chain_of {F} (prot : Protein F) : res (list (list string)) :=
  match parents prot with
  | Some parents =>
      if decide (0 < length parents)%nat then
        match parents_chain_index prot with
        | Some parents_chain_index =>
            cur_chain ← getitem parents_chain_index 0;
            let parent_dict := parent_dict_of (zip parents parents_chain_index) in
            max_idx ← py_max (map_to_list parent_dict).*1;
            Ok ((fun i => default ["N/A"] (parent_dict !! i)) <$> seqZ 0 (max_idx + 1))
        | None => Ok [parents]
        end
      else Ok [["N/A"]]
  | None => Ok [["N/A"]]
  end.

(** The loop of [add_pdb_headers] over the lines of the PDB string;
    [lines[i + 1]] is the line after the current one. *)
Fixpoint add_pdb_headers_loop (parents_per_chain : list (list string))
    (lines : list string) (chain_counter : nat) (out_pdb_lines : list string)
    : res (list string) :=
  match lines with
  | [] => Ok out_pdb_lines
  | l :: rest =>
      let out_pdb_lines :=
        if negb (contains "PARENT" l) && negb (contains "REMARK" l)
        then out_pdb_lines ++ [l] else out_pdb_lines in
      if contains "TER" l then
        next ← getitem rest 0;
        if negb (contains "END" next) then
          let chain_counter := S chain_counter in
          let chain_parents :=
            if decide (¬ (length parents_per_chain ≤ chain_counter)%nat)
            then parents_per_chain !!! chain_counter
            else ["N/A"] in
          add_pdb_headers_loop parents_per_chain rest chain_counter
            (out_pdb_lines ++ [make_parent_line chain_parents])
        else add_pdb_headers_loop parents_per_chain rest chain_counter out_pdb_lines
      else add_pdb_headers_loop parents_per_chain rest chain_counter out_pdb_lines
  end.

(** The lines [add_pdb_headers] joins: [out_pdb_lines] at its end. *)
Definition add_pdb_headers_lines {F} (prot : Protein F) (lines : list string)
    : res (list string) :=
  let out_pdb_lines := [] in
  let out_pdb_lines :=
    match remark prot with
    | Some remark => out_pdb_lines ++ ["REMARK " +:+ remark]
    | None => out_pdb_lines
    end in
  parents_per_chain ← parents_per_chain_of prot;
  first ← getitem parents_per_chain 0;
  let out_pdb_lines := out_pdb_lines ++ [make_parent_line first] in
  add_pdb_headers_loop parents_per_chain lines 0 out_pdb_lines.

Definition add_pdb_headers {F} (prot : Protein F) (pdb_str : string) : res string :=
  out_pdb_lines ← add_pdb_headers_lines prot (split_on newline pdb_str);
  Ok (join (String newline "") out_pdb_lines).

(** ** What the statements about the headers are written with *)

(** Whether [add_pdb_headers] copies a line: it drops the header lines the
    string already has. *)
Definition kept_line (l : string) : bool :=
  negb (contains "PARENT" l) && negb (contains "REMARK" l).

(** A string without a line break. *)
Definition one_line (s : string) : Prop :=
  Forall (fun c => c ≠ newline) (list_ascii_of_string s).

(** The number of chain ends in the lines: a line with [TER] whose next line
    has no [END]. *)
Fixpoint chain_breaks (lines : list string) : nat :=
  match lines with
  | [] => 0
  | l :: rest =>
      (match rest with
       | next :: _ => if contains "TER" l && negb (contains "END" next) then 1 else 0
       | [] => 0
       end + chain_breaks rest)%nat
  end.

(** The parents recorded for chain [k], in the order given. *)
Definition parents_of_chain (pairs : list (string * Z)) (k : Z) : list string :=
  (filter (fun pi => pi.2 = k) pairs).*1.

(** The header lines both functions start with. *)
Definition remark_lines {F} (prot : Protein F) : list string :=
  match remark prot with
  | Some remark => ["REMARK " +:+ remark]
  | None => []
  end.

(** A protein record with nothing but headers. *)
Definition headers_only (remark : option string) (parents : option (list string))
    (parents_chain_index : option (list Z)) : Protein Z :=
  mkProtein (VArr (Array [])) (Array []) (VArr (Array [])) (Array []) (Array [])
    (Array []) remark parents parents_chain_index.

(** Three templates, two of them for chain 0 and one for chain 2. *)
Definition headers_ex : Protein Z :=
  headers_only (Some "m1") (Some ["a"; "b"; "c"]) (Some [0; 2; 0]).

(** A PDB string of two chains, as [to_pdb] lays it out. *)
Definition two_chains_pdb : string :=
  join (String newline "")
    ["MODEL     1"; "PARENT old"; "ATOM      1"; "TER       2"; "ATOM      3";
     "TER       4"; "ENDMDL"; "END"; ""].

Close Scope Z_scope.

(** ** The constructors of [msa.py]

    The constructors of the imported kernels and the random initial weights
    are left open. *)
Record kernels (F : Type) := mkKernels {
  new_LayerNorm : nat → LayerNorm.t F;
  (* qkv_dim, c, n_head, out_dim, gating, last_bias_fuse (if given) *)
  new_SelfAttention : nat → nat → nat → nat → bool → option bool → SelfAttention.t F;
  (* qkv_dim, c, n_head, out_dim *)
  new_GlobalAttention : nat → nat → nat → nat → GlobalAttention.t F;
  new_Transition : nat → Transition.t F;
  (* [torch.nn.init.normal_] on a tensor of [n_head] rows and [d_pair] columns *)
  init_normal : nat → nat → T2 F
}.
Arguments mkKernels {F}.
Arguments new_LayerNorm {F} _ _.
Arguments new_SelfAttention {F} _ _ _ _ _ _ _.
Arguments new_GlobalAttention {F} _ _ _ _ _.
Arguments new_Transition {F} _ _.
Arguments init_normal {F} _ _ _.

(** [MSARowAttentionWithPairBias.__init__]; a new [nn.Module] is in training
    mode. *)
Definition MSARowAttentionWithPairBias__init__ {F} `{Num F} (K : kernels F)
    (d_node d_pair c n_head : nat) (p_drop : F) : MSARowAttentionWithPairBias.t F :=
  MSARowAttentionWithPairBias.mk p_drop
    (new_LayerNorm K d_node) (new_LayerNorm K d_pair)
    (init_normal K n_head d_pair)
    (new_SelfAttention K d_node c n_head d_node true (Some true))
    (replicate d_node fzero)
    true.

(** [MSAColumnAttention.__init__] and [MSAColumnGlobalAttention.__init__]. *)
Definition MSAColumnAttention__init__ {F} (K : kernels F) (d_node c n_head : nat)
    : MSAColumnAttention.t F :=
  MSAColumnAttention.mk (new_LayerNorm K d_node)
    (new_SelfAttention K d_node c n_head d_node true None).
Definition MSAColumnGlobalAttention__init__ {F} (K : kernels F)
    (d_node c n_head : nat) : MSAColumnGlobalAttention.t F :=
  MSAColumnGlobalAttention.mk (new_LayerNorm K d_node)
    (new_GlobalAttention K d_node c n_head d_node).

(** [MSAStack.__init__] and [ExtraMSAStack.__init__]. *)
Definition MSAStack__init__ {F} `{Num F} (K : kernels F) (d_node d_pair : nat)
    (is_extra : bool) (p_drop : F) : MSAStack.t F :=
  MSAStack.mk (MSARowAttentionWithPairBias__init__ K d_node d_pair 32 8 p_drop)
    (MSAColumnAttention__init__ K d_node 32 8)
    (new_Transition K d_node).
Definition ExtraMSAStack__init__ {F} `{Num F} (K : kernels F) (d_node d_pair : nat)
    (p_drop : F) : ExtraMSAStack.t F :=
  ExtraMSAStack.mk (MSARowAttentionWithPairBias__init__ K d_node d_pair 8 8 p_drop)
    (MSAColumnGlobalAttention__init__ K d_node 8 8)
    (new_Transition K d_node).

(** [module.eval()] on the row block: training mode off. *)
Definition row_eval {F} (self : MSARowAttentionWithPairBias.t F)
    : MSARowAttentionWithPairBias.t F :=
  MSARowAttentionWithPairBias.mk
    (MSARowAttentionWithPairBias.p_drop self)
    (MSARowAttentionWithPairBias.layernormM self)
    (MSARowAttentionWithPairBias.layernormZ self)
    (MSARowAttentionWithPairBias.linear_b_weights self)
    (MSARowAttentionWithPairBias.attention self)
    (MSARowAttentionWithPairBias.out_bias self)
    false.

(** Every feature vector of the tensor has [d] entries. *)
Definition features {A} (d : nat) (t : list (list (list (list A)))) : Prop :=
  Forall (Forall (Forall (fun v => length v = d))) t.

(** Kernels over the integers that return zero. *)
Definition zero_kernels : kernels Z :=
  mkKernels (fun _ => ln_id) (fun _ _ _ _ _ _ => zero_attention)
    (fun _ _ _ _ => zero_global_attention) (fun _ => zero_transition)
    (fun n_head d_pair => replicate n_head (replicate d_pair 1%Z)).

(** * [from_pdb_string]

    The reader of [np/protein.py].  The parser of [Bio.PDB] and the tables
    of [residue_constants] are not among the sources: the structure the
    parser returns and the tables are parameters. *)

Open Scope Z_scope.

(** ** What [Bio.PDB] hands over

    An atom, a residue and a chain, with the attributes [from_pdb_string]
    reads; a model is the list of its chains, a chain iterates over its
    residues and a residue over its atoms. *)
Module Atom.
Record t (F : Type) := mk {
  name : string;
  coord : F * F * F;
  bfactor : F
}.
Arguments mk {F}.
Arguments name {F}.
Arguments coord {F}.
Arguments bfactor {F}.
End Atom.

Module Residue.
Record t (F : Type) := mk {
  (* hetero flag, sequence number, insertion code *)
  id : string * Z * string;
  resname : string;
  atoms : list (Atom.t F)
}.
Arguments mk {F}.
Arguments id {F}.
Arguments resname {F}.
Arguments atoms {F}.
End Residue.

Module Chain.
Record t (F : Type) := mk {
  id : string;
  residues : list (Residue.t F)
}.
Arguments mk {F}.
Arguments id {F}.
Arguments residues {F}.
End Chain.

(** The tables of [residue_constants] that [from_pdb_string] reads. *)
Module residue_constants.
Record t := mk {
  restype_3to1 : gmap string string;
  restype_order : gmap string Z;
  restype_num : Z;
  atom_types : list string;
  atom_order : gmap string nat;
  atom_type_num : nat
}.
End residue_constants.

(** ** Built-ins *)

(** A [for] loop whose body can raise. *)
Fixpoint for_each {A B} (body : A → B → res A) (a : A) (l : list B) : res A :=
  match l with
  | [] => Ok a
  | x :: l' => a' ← body a x; for_each body a' l'
  end.

(** [arr[i] = x] on an array of one axis more than [x], for an index that is
    not negative. *)
Definition setitem {A} (l : list A) (i : nat) (x : A) : res (list A) :=
  if decide (i < length l)%nat then Ok (<[i := x]> l) else raise IndexError.

(** [c.isspace()] on a character below 256. *)
Definition isspace (c : ascii) : bool :=
  let n := nat_of_ascii c in
  ((9 <=? n) && (n <=? 13) || (28 <=? n) && (n <=? 32)
   || (n =? 133) || (n =? 160))%nat.

(** [s.split()]: the words between runs of whitespace. *)
Fixpoint split_whitespace (s : string) : list string :=
  match s with
  | EmptyString => []
  | String a s' =>
      if isspace a then split_whitespace s'
      else
        match s' with
        | EmptyString => [String a ""]
        | String b _ =>
            if isspace b then String a "" :: split_whitespace s'
            else match split_whitespace s' with
                 | x :: l => String a x :: l
                 | [] => [String a ""]
                 end
        end
  end.

(** [np.unique] on a list of strings: the distinct strings, sorted by code
    point. *)
Fixpoint insert_unique_str (x : string) (l : list string) : list string :=
  match l with
  | [] => [x]
  | y :: l' =>
      match String.compare x y with
      | Lt => x :: y :: l'
      | Eq => y :: l'
      | Gt => y :: insert_unique_str x l'
      end
  end.

Definition np_unique_str (l : list string) : list string :=
  foldr insert_unique_str [] l.

(** [enumerate(l)]. *)
Definition enumerate {A} (l : list A) : list (Z * A) :=
  zip (seqZ 0 (Z.of_nat (length l))) l.

(** ** The function *)

Definition single_model_msg (n : nat) : string :=
  "Only single model PDBs are supported. Found " +:+ pretty n +:+ " models.".

Definition insertion_code_msg (chain_id : string) (residue_index : Z) : string :=
  "PDB contains an insertion code at chain " +:+ chain_id
  +:+ " and residue index " +:+ pretty residue_index
  +:+ ". These are not supported.".

(** The six lists [from_pdb_string] appends to, a residue at a time.  The
    entries of a mask are 0.0 and 1.0: the model keeps whether the entry is
    1.0, until the list becomes an array. *)
Module Rows.
Record t (F : Type) := mk {
  atom_positions : list (list (F * F * F));
  aatype : list Z;
  atom_mask : list (list bool);
  residue_index : list Z;
  chain_ids : list string;
  b_factors : list (list F)
}.
Arguments mk {F}.
Arguments atom_positions {F}.
Arguments aatype {F}.
Arguments atom_mask {F}.
Arguments residue_index {F}.
Arguments chain_ids {F}.
Arguments b_factors {F}.
End Rows.

Section FromPdbString.
Context {F : Type} `{Num F}.
Import residue_constants.
Variable rc : residue_constants.t.

(** The body of [for atom in res]. *)
Definition atom_step (st : list (F * F * F) * list bool * list F)
    (atom : Atom.t F) : res (list (F * F * F) * list bool * list F) :=
  let '(pos, mask, res_b_factors) := st in
  if decide (Atom.name atom ∉ atom_types rc) then Ok st
  else
    i ← subscript (atom_order rc) (Atom.name atom);
    pos ← setitem pos i (Atom.coord atom);
    i ← subscript (atom_order rc) (Atom.name atom);
    mask ← setitem mask i true;
    i ← subscript (atom_order rc) (Atom.name atom);
    res_b_factors ← setitem res_b_factors i (Atom.bfactor atom);
    Ok (pos, mask, res_b_factors).

(** The body of [for res in chain]; [np.sum(mask) < 0.5] holds when no
    entry of the mask is 1.0. *)
Definition residue_step (chain : Chain.t F) (rows : Rows.t F)
    (r : Residue.t F) : res (Rows.t F) :=
  if decide ((Residue.id r).2 ≠ " ")
  then raise (ValueError (insertion_code_msg (Chain.id chain) (Residue.id r).1.2))
  else
    let res_shortname := default "X" (restype_3to1 rc !! Residue.resname r) in
    let restype_idx := default (restype_num rc) (restype_order rc !! res_shortname) in
    let pos := replicate (atom_type_num rc) (fzero, fzero, fzero) in
    let mask := replicate (atom_type_num rc) false in
    let res_b_factors := replicate (atom_type_num rc) fzero in
    '(pos, mask, res_b_factors) ←
      for_each atom_step (pos, mask, res_b_factors) (Residue.atoms r);
    if forallb negb mask then Ok rows
    else
      Ok (Rows.mk
            (Rows.atom_positions rows ++ [pos])
            (Rows.aatype rows ++ [restype_idx])
            (Rows.atom_mask rows ++ [mask])
            (Rows.residue_index rows ++ [(Residue.id r).1.2])
            (Rows.chain_ids rows ++ [Chain.id chain])
            (Rows.b_factors rows ++ [res_b_factors])).

(** The body of [for chain in model]. *)
Definition chain_step (chain_id : option string) (rows : Rows.t F)
    (chain : Chain.t F) : res (Rows.t F) :=
  if decide (chain_id ≠ None ∧ Some (Chain.id chain) ≠ chain_id) then Ok rows
  else for_each (residue_step chain) rows (Chain.residues chain).

(** The first line with [PARENT] and without [N/A] gives the parents. *)
Fixpoint parents_loop (lines : list string) (parents : option (list string))
    : option (list string) :=
  match lines with
  | [] => parents
  | l :: lines' =>
      if contains "PARENT" l && negb (contains "N/A" l)
      then Some (drop 1 (split_whitespace l))
      else parents_loop lines' parents
  end.

(** [np.array] of the lists of positions, of masks and of B-factors. *)
Definition positions_array (l : list (list (F * F * F))) : ndarray F :=
  Array ((fun pos =>
            Array ((fun c : F * F * F =>
                      Array [Scalar c.1.1; Scalar c.1.2; Scalar c.2]) <$> pos))
           <$> l).
Definition mask_array (l : list (list bool)) : ndarray F :=
  Array ((fun mask =>
            Array ((fun b : bool => Scalar (if b then fone else fzero)) <$> mask))
           <$> l).
Definition rows_array {A} (l : list (list A)) : ndarray A :=
  Array ((fun row => Array (Scalar <$> row)) <$> l).

Definition from_pdb_string
    (get_structure : string → res (list (list (Chain.t F))))
    (pdb_str : string) (chain_id : option string) : res (Protein F) :=
  models ← get_structure pdb_str;
  if decide (length models ≠ 1%nat)
  then raise (ValueError (single_model_msg (length models)))
  else
    model ← getitem models 0;
    rows ← for_each (chain_step chain_id) (Rows.mk [] [] [] [] [] []) model;
    let parents := None in
    let parents :=
      if contains "PARENT" pdb_str
      then parents_loop (split_on newline pdb_str) parents
      else parents in
    let unique_chain_ids := np_unique_str (Rows.chain_ids rows) in
    let chain_id_mapping : gmap string Z :=
      foldl (fun m nc => <[nc.2 := nc.1]> m) ∅ (enumerate unique_chain_ids) in
    chain_index ← mapM (subscript chain_id_mapping) (Rows.chain_ids rows);
    Protein_init
      (VArr (positions_array (Rows.atom_positions rows)))
      (Array (Scalar <$> Rows.aatype rows))
      (VArr (mask_array (Rows.atom_mask rows)))
      (Array (Scalar <$> Rows.residue_index rows))
      (rows_array (Rows.b_factors rows))
      (Array (Scalar <$> chain_index))
      None parents None.

End FromPdbString.

(** ** What the statements about [from_pdb_string] are written with *)

(** The order of strings by code point. *)
Definition str_lt (x y : string) : Prop := String.compare x y = Lt.

#[global] Instance str_lt_dec x y : Decision (str_lt x y).
Proof. unfold str_lt. solve_decision. Defined.

(** The number of distinct chain IDs below [id]. *)
Definition chain_rank (ids : list string) (id : string) : Z :=
  Z.of_nat (length (filter (fun u => str_lt u id) (remove_dups ids))).

Section FromPdbStringFacts.
Context {F : Type} `{Num F}.
Import residue_constants.
Variable rc : residue_constants.t.

(** Every atom type has a place in the arrays, as when [atom_order]
    numbers [atom_types] and [atom_type_num] is their number. *)
Definition atom_types_ordered : Prop :=
  ∀ a, a ∈ atom_types rc →
    ∃ i, atom_order rc !! a = Some i ∧ (i < atom_type_num rc)%nat.

(** The same for one atom. *)
Definition placed (a : Atom.t F) : Prop :=
  Atom.name a ∈ atom_types rc →
    ∃ i, atom_order rc !! Atom.name a = Some i ∧ (i < atom_type_num rc)%nat.

(** No residue type lies above [restype_num]. *)
Definition restypes_bounded : Prop :=
  ∀ k v, restype_order rc !! k = Some v → v ≤ restype_num rc.

(** The residues the loops visit, each with the ID of its chain, in order. *)
Definition visited (chain_id : option string) (model : list (Chain.t F))
    : list (string * Residue.t F) :=
  chain ← model;
  if decide (chain_id ≠ None ∧ Some (Chain.id chain) ≠ chain_id) then []
  else (fun r => (Chain.id chain, r)) <$> Chain.residues chain.

Definition insertion_code (cr : string * Residue.t F) : Prop :=
  (Residue.id cr.2).2 ≠ " ".

#[global] Instance insertion_code_dec cr : Decision (insertion_code cr).
Proof. unfold insertion_code. solve_decision. Defined.

(** The atoms of known type that go to entry [i] of the arrays. *)
Definition atoms_at (i : nat) (atoms : list (Atom.t F)) : list (Atom.t F) :=
  filter (fun a => Atom.name a ∈ atom_types rc
                   ∧ atom_order rc !! Atom.name a = Some i) atoms.

(** The residues that are kept: those with an atom of known type. *)
Definition known (cr : string * Residue.t F) : Prop :=
  Exists (fun a => Atom.name a ∈ atom_types rc) (Residue.atoms cr.2).
Definition kept (chain_id : option string) (model : list (Chain.t F))
    : list (string * Residue.t F) :=
  filter known (visited chain_id model).

(** The entries of a kept residue: the last atom of a type gives the
    position and the B-factor at the place of the type. *)
Definition pos_of (atoms : list (Atom.t F)) : list (F * F * F) :=
  (fun i => from_option Atom.coord (fzero, fzero, fzero) (last (atoms_at i atoms)))
    <$> seq 0 (atom_type_num rc).
Definition mask_of (atoms : list (Atom.t F)) : list bool :=
  (fun i => bool_decide (atoms_at i atoms ≠ [])) <$> seq 0 (atom_type_num rc).
Definition b_factors_of (atoms : list (Atom.t F)) : list F :=
  (fun i => from_option Atom.bfactor fzero (last (atoms_at i atoms)))
    <$> seq 0 (atom_type_num rc).
Definition restype_idx (r : Residue.t F) : Z :=
  default (restype_num rc)
    (restype_order rc !! default "X" (restype_3to1 rc !! Residue.resname r)).

(** The rows of a list of residues, appended to [rows]. *)
Definition rows_app (rows : Rows.t F) (crs : list (string * Residue.t F))
    : Rows.t F :=
  Rows.mk
    (Rows.atom_positions rows ++ ((fun cr => pos_of (Residue.atoms cr.2)) <$> crs))
    (Rows.aatype rows ++ ((fun cr => restype_idx cr.2) <$> crs))
    (Rows.atom_mask rows ++ ((fun cr => mask_of (Residue.atoms cr.2)) <$> crs))
    (Rows.residue_index rows ++ ((fun cr => (Residue.id cr.2).1.2) <$> crs))
    (Rows.chain_ids rows ++ crs.*1)
    (Rows.b_factors rows ++ ((fun cr => b_factors_of (Residue.atoms cr.2)) <$> crs)).

(** The body of both loops for one visited residue: of the chain, only its
    ID is read. *)
Definition visit (rows : Rows.t F) (cr : string * Residue.t F)
    : res (Rows.t F) :=
  residue_step rc (Chain.mk cr.1 []) rows cr.2.

(** A visited residue that passes: no insertion code, and a place for
    every atom. *)
Definition passes (cr : string * Residue.t F) : Prop :=
  ¬ insertion_code cr ∧ Forall placed (Residue.atoms cr.2).

(** The protein of a list of kept residues. *)
Definition protein_of (crs : list (string * Residue.t F))
    (parents : option (list string)) : Protein F :=
  let rows := rows_app (Rows.mk [] [] [] [] [] []) crs in
  mkProtein
    (VArr (positions_array (Rows.atom_positions rows)))
    (Array (Scalar <$> Rows.aatype rows))
    (VArr (mask_array (Rows.atom_mask rows)))
    (Array (Scalar <$> Rows.residue_index rows))
    (rows_array (Rows.b_factors rows))
    (Array (Scalar <$> (chain_rank crs.*1 <$> crs.*1)))
    None parents None.

(** The parents [from_pdb_string] reads from the string. *)
Definition parents_of_pdb (pdb_str : string) : option (list string) :=
  if contains "PARENT" pdb_str
  then parents_loop (split_on newline pdb_str) None
  else None.

End FromPdbStringFacts.


(** A word: not empty and without whitespace. *)
Definition word (s : string) : Prop :=
  s ≠ "" ∧ Forall (fun c => isspace c = false) (list_ascii_of_string s).

(** ** An example: two chains, read in the order B, A *)

Definition rc_ex : residue_constants.t :=
  residue_constants.mk
    {[ "ALA" := "A"; "GLY" := "G" ]} {[ "A" := 0; "G" := 7 ]} 20
    ["N"; "CA"] {[ "N" := 0%nat; "CA" := 1%nat ]} 2.

Definition model_ex : list (Chain.t Z) :=
  [ Chain.mk "B"
      [ Residue.mk (" ", 5, " ") "ALA" [Atom.mk "N" (1, 2, 3) 10];
        Residue.mk ("W", 6, " ") "HOH" [Atom.mk "O" (0, 0, 1) 30] ];
    Chain.mk "A"
      [ Residue.mk (" ", 1, " ") "GLY"
          [Atom.mk "CA" (4, 5, 6) 20; Atom.mk "CA" (7, 8, 9) 21] ] ].

(** The same with an insertion code at a residue of water in chain A. *)
Definition model_icode_ex : list (Chain.t Z) :=
  model_ex ++ [ Chain.mk "A" [ Residue.mk ("W", 2, "A") "HOH" [] ] ].

Definition pdb_ex : string :=
  join (String newline "") ["REMARK m1"; "PARENT 6xyz_A 1abc_B"; "ATOM      1"; "END"].

(** Sixty-three chains of one residue each. *)
Definition many_chains_ex : list (Chain.t Z) :=
  (fun i : nat =>
     Chain.mk (pretty i) [Residue.mk (" ", 1, " ") "ALA" [Atom.mk "N" (0, 0, 0) 0]])
    <$> seq 0 63.

(** A protein to write: a remark and two templates. *)
Definition written_ex : Protein Z :=
  headers_only (Some "m1") (Some ["6xyz_A"; "1abc_B"]) None.

(** What is read from [model_ex] and [pdb_ex]. *)
Definition protein_read_ex : Protein Z :=
  mkProtein
    (VArr (Array [Array [Array [Scalar 1; Scalar 2; Scalar 3];
                         Array [Scalar 0; Scalar 0; Scalar 0]];
                  Array [Array [Scalar 0; Scalar 0; Scalar 0];
                         Array [Scalar 7; Scalar 8; Scalar 9]]]))
    (Array [Scalar 0; Scalar 7])
    (VArr (Array [Array [Scalar 1; Scalar 0]; Array [Scalar 0; Scalar 1]]))
    (Array [Scalar 5; Scalar 1])
    (Array [Array [Scalar 10; Scalar 0]; Array [Scalar 0; Scalar 21]])
    (Array [Scalar 1; Scalar 0])
    None (Some ["6xyz_A"; "1abc_B"]) None.

Close Scope Z_scope.

(** * Properties

    Part I: [np/protein.py].  Part II: the tensors, the collectives and the
    runs of a group.  Part III: [model_acc/msa.py]. *)

Open Scope Z_scope.

Lemma insert_unique_elem x y l : y ∈ insert_unique x l ↔ y = x ∨ y ∈ l.
Proof.
  induction l as [|z l IH]; simpl.
  - rewrite list_elem_of_singleton, elem_of_nil. tauto.
  - destruct (Z.ltb_spec x z); [by rewrite elem_of_cons|].
    destruct (Z.eqb_spec x z) as [->|].
    + rewrite elem_of_cons. tauto.
    + rewrite !elem_of_cons, IH. tauto.
Qed.

Lemma insert_unique_sorted x l :
  StronglySorted Z.lt l → StronglySorted Z.lt (insert_unique x l).
Proof.
  induction 1 as [|z l Hs IH Hz]; simpl.
  - repeat constructor.
  - destruct (Z.ltb_spec x z).
    + constructor; [by constructor|]. constructor; [done|].
      rewrite Forall_forall in Hz |- *. intros y Hy. specialize (Hz y Hy). lia.
    + destruct (Z.eqb_spec x z); [by constructor|].
      constructor; [done|].
      rewrite Forall_forall in Hz |- *. intros y Hy.
      apply insert_unique_elem in Hy as [->|Hy]; [lia|by apply Hz].
Qed.

Lemma np_unique_sorted a : StronglySorted Z.lt (np_unique a).
Proof.
  unfold np_unique. induction (ravel a) as [|x l IH]; simpl.
  - constructor.
  - by apply insert_unique_sorted.
Qed.

Lemma np_unique_elem a y : y ∈ np_unique a ↔ y ∈ ravel a.
Proof.
  unfold np_unique. induction (ravel a) as [|x l IH]; simpl.
  - done.
  - rewrite insert_unique_elem, elem_of_cons, IH. done.
Qed.

Lemma sorted_lt_NoDup (l : list Z) : StronglySorted Z.lt l → NoDup l.
Proof.
  induction 1 as [|z l Hs IH Hz]; constructor; [|done].
  intros Hin. rewrite Forall_forall in Hz. specialize (Hz z Hin). lia.
Qed.

Lemma np_unique_length a :
  length (np_unique a) = size (list_to_set (ravel a) : gset Z).
Proof.
  rewrite <- (size_list_to_set (C:=gset Z) (np_unique a))
    by apply sorted_lt_NoDup, np_unique_sorted.
  f_equal. apply set_eq. intros y.
  rewrite !elem_of_list_to_set. apply np_unique_elem.
Qed.

Section ProteinFacts.
Context {F : Type} `{Num F}.

Lemma PDB_MAX_CHAINS_62 : PDB_MAX_CHAINS = 62%nat.
Proof. reflexivity. Qed.

(** C9. Constructing a [Protein] raises [ValueError] when [chain_index]
    holds more than 62 distinct values, and otherwise returns the protein
    with the given fields. *)
Theorem Protein_init_chain_limit
    (ap : value F) (aa : ndarray Z) (am : value F) (ri : ndarray Z)
    (bf : ndarray F) (ci : ndarray Z) (rm : option string)
    (pa : option (list string)) (pci : option (list Z)) :
  Protein_init ap aa am ri bf ci rm pa pci =
    if decide (62 < size (list_to_set (ravel ci) : gset Z))%nat
    then Err (ValueError too_many_chains_msg)
    else Ok (mkProtein ap aa am ri bf ci rm pa pci).
Proof.
  unfold Protein_init, post_init. simpl.
  rewrite np_unique_length, PDB_MAX_CHAINS_62.
  by destruct (decide _).
Qed.

Lemma subscript_Ok {V} (d : gmap string V) key v :
  subscript d key = Ok v ↔ d !! key = Some v.
Proof.
  unfold subscript. destruct (d !! key); split; intros; simplify_eq; done.
Qed.

Lemma Protein_init_Ok (ap : value F) aa am ri bf ci rm pa pci p :
  Protein_init ap aa am ri bf ci rm pa pci = Ok p →
  p = mkProtein ap aa am ri bf ci rm pa pci.
Proof.
  unfold Protein_init. destruct (post_init _); simpl; [|discriminate].
  intros [= <-]. done.
Qed.

Ltac bind_cases :=
  repeat match goal with
    | H : mbind _ ?m = Ok _ |- _ =>
        let E := fresh "E" in destruct m eqn:E; simpl in H; [|discriminate H]
    | H : (if ?b then _ else _) = Ok _ |- _ =>
        let E := fresh "E" in destruct b eqn:E; simpl in H
    end.

(** C10. [from_prediction] does not read its [chain_index] argument; the
    protein it returns has as [chain_index] the array [features["asym_id"]]
    when the key is present, and otherwise zeros shaped like
    [features["aatype"]], in both cases without the leading axis when
    [remove_leading_feature_dimension] is set. *)
Theorem from_prediction_chain_index
    (features : gmap string (ndarray Z)) (dt : int_dtype)
    (result : gmap string (value F))
    (b_factors : option (ndarray F)) (ci ci' : option (ndarray Z))
    (remark : option string) (parents : option (list string))
    (pci : option (list Z)) (flag : bool) :
  from_prediction features dt result b_factors ci remark parents pci flag
  = from_prediction features dt result b_factors ci' remark parents pci flag
  ∧ ∀ p, from_prediction features dt result b_factors ci remark parents pci flag = Ok p →
      match features !! "asym_id" with
      | Some a => _maybe_remove_leading_dim flag a = Ok (chain_index p)
      | None => ∃ aa, features !! "aatype" = Some aa
                 ∧ zeros_like 0 <$> _maybe_remove_leading_dim flag aa
                   = Ok (chain_index p)
      end.
Proof.
  split; [reflexivity|].
  intros p Hp. unfold from_prediction in Hp.
  bind_cases; apply Protein_init_Ok in Hp; subst p; simpl;
    repeat match goal with
      | H : subscript _ _ = Ok _ |- _ => apply subscript_Ok in H
      end.
  all: match goal with
       | H : ?f !! "asym_id" = Some _ |- _ => rewrite H; try done
       | H : ¬ is_Some (?f !! "asym_id") |- _ =>
           destruct (f !! "asym_id"); [destruct H; eauto|]
       end.
  all: eexists; split; [eassumption|].
  all: match goal with H : _maybe_remove_leading_dim _ _ = Ok _ |- _ => by rewrite H end.
Qed.

End ProteinFacts.

Lemma from_prediction_chain_index_witness :
  from_prediction features_ex Int64 result_ex None
    (Some (Array [Scalar 5; Scalar 6])) None None None true = Ok protein_ex
  ∧ ∃ aa, features_ex !! "aatype" = Some aa
      ∧ zeros_like 0 <$> _maybe_remove_leading_dim true aa
        = Ok (Array [Scalar 0; Scalar 0]).
Proof.
  assert (from_prediction features_ex Int64 result_ex None
    (Some (Array [Scalar 5; Scalar 6])) None None None true = Ok protein_ex) as E
    by (vm_compute; reflexivity).
  split; [exact E|].
  exact (proj2 (from_prediction_chain_index features_ex Int64 result_ex None
    (Some (Array [Scalar 5; Scalar 6])) None None None None true) protein_ex E).
Defined.


Close Scope Z_scope.

Section TensorFacts.
Context {A : Type}.
Implicit Types l : list A.

Lemma chunk_app_next k r l :
  take (r * k) l ++ chunk k r l = take (S r * k) l.
Proof.
  unfold chunk. rewrite take_drop_commute.
  replace (take (r * k) l) with (take (r * k) (take (r * k + k) l))
    by (rewrite take_take; f_equal; lia).
  rewrite take_drop. f_equal. lia.
Qed.

Lemma concat_chunks k w l :
  concat ((fun r => chunk k r l) <$> seq 0 w) = take (w * k) l.
Proof.
  induction w as [|w IH].
  - by rewrite take_0.
  - rewrite seq_S, fmap_app, concat_app, IH. simpl. rewrite app_nil_r.
    apply chunk_app_next.
Qed.

Lemma length_chunk k r w l :
  length l = w * k → r < w → length (chunk k r l) = k.
Proof.
  intros Hl Hr. unfold chunk. rewrite length_take, length_drop. nia.
Qed.

Lemma all_at_impl d (P Q : list A → Prop) (t : nest (S d) A) :
  (∀ l, P l → Q l) → all_at d P t → all_at d Q t.
Proof.
  intros HPQ. revert t. induction d as [|d IH]; simpl; intros t Ht; [by apply HPQ|].
  eapply Forall_impl; [exact Ht|]. apply IH.
Qed.

Lemma all_at_True d (t : nest (S d) A) : all_at d (fun _ => True) t.
Proof.
  revert t. induction d as [|d IH]; simpl; intros t; [done|].
  apply Forall_forall. intros x _. apply IH.
Qed.

Lemma map_at_ext {B} d (f g : list A → list B) (t : nest (S d) A) :
  all_at d (fun l => f l = g l) t → map_at d f t = map_at d g t.
Proof.
  revert t. induction d as [|d IH]; simpl; intros t Ht; [done|].
  apply Forall_fmap_ext_1. eapply Forall_impl; [exact Ht|]. apply IH.
Qed.

Lemma map_at_id d (f : list A → list A) (t : nest (S d) A) :
  all_at d (fun l => f l = l) t → map_at d f t = t.
Proof.
  revert t. induction d as [|d IH]; simpl; intros t Ht; [done|].
  rewrite <- (list_fmap_id t) at 2.
  apply Forall_fmap_ext_1. eapply Forall_impl; [exact Ht|]. apply IH.
Qed.

Lemma map_at_map_at {B C} d (f : list B → list C) (g : list A → list B)
    (t : nest (S d) A) :
  map_at d f (map_at d g t) = map_at d (fun l => f (g l)) t.
Proof.
  revert t. induction d as [|d IH]; simpl; intros t; [done|].
  rewrite <- list_fmap_compose. apply Forall_fmap_ext_1, Forall_forall; intros x _. apply IH.
Qed.

Lemma app_at_map_at {B} d (f g : list A → list B) (t : nest (S d) A) :
  app_at d (map_at d f t) (map_at d g t) = map_at d (fun l => f l ++ g l) t.
Proof.
  revert t. induction d as [|d IH]; simpl; intros t; [done|].
  rewrite zip_with_fmap_l, zip_with_fmap_r, zip_with_diag.
  apply Forall_fmap_ext_1, Forall_forall; intros x _. apply IH.
Qed.

Lemma cat_at_map_at {B} {I} d (f : I → list A → list B) (t : nest (S d) A)
    (i0 : I) (js : list I) :
  cat_at d ((fun i => map_at d (f i) t) <$> (i0 :: js))
  = map_at d (fun l => concat ((fun i => f i l) <$> (i0 :: js))) t.
Proof.
  revert i0. induction js as [|i1 js IH]; intros i0.
  - simpl. apply map_at_ext. eapply all_at_impl; [|apply all_at_True].
    intros l _. simpl. by rewrite app_nil_r.
  - change (cat_at d ((fun i => map_at d (f i) t) <$> i0 :: i1 :: js))
      with (app_at d (map_at d (f i0) t)
              (cat_at d ((fun i => map_at d (f i) t) <$> i1 :: js))).
    rewrite IH, app_at_map_at. done.
Qed.

(** Scatter then gather: the shards of a tensor, concatenated in rank order. *)
Lemma cat_at_chunks d k w (t : nest (S d) A) :
  0 < w →
  rect_at d (w * k) t →
  cat_at d ((fun r => map_at d (chunk k r) t) <$> seq 0 w) = t.
Proof.
  intros Hw Ht. destruct w as [|w]; [lia|].
  change (seq 0 (S w)) with (0 :: seq 1 w).
  rewrite cat_at_map_at. apply map_at_id.
  eapply all_at_impl; [|exact Ht]. intros l Hl. simpl in Hl.
  change (0 :: seq 1 w) with (seq 0 (S w)).
  rewrite concat_chunks. apply take_ge. lia.
Qed.

End TensorFacts.

Lemma mapM_res_fmap {A B} (f : A → res B) (g : A → B) (l : list A) :
  (∀ x, x ∈ l → f x = Ok (g x)) → mapM f l = Ok (g <$> l).
Proof.
  induction l as [|x l IH]; intros Hf; [done|].
  simpl. rewrite Hf by apply list_elem_of_here. simpl.
  rewrite IH by (intros y Hy; apply Hf; by apply list_elem_of_further). done.
Qed.

Lemma divide_Ok n w : w ≠ 0 → n `mod` w = 0 → divide n w = Ok (n `div` w).
Proof. intros ??. unfold divide. by rewrite decide_True. Qed.

Lemma divide_Err n w : n `mod` w ≠ 0 → divide n w = Err ConfigurationError.
Proof. intros ?. unfold divide. rewrite decide_False; [done|]. tauto. Qed.

Lemma scatter_Ok {A} c d (T : nest (S d) A) :
  world_size c ≠ 0 → size_along d T `mod` world_size c = 0 →
  scatter c d T
  = Ok (map_at d (chunk (size_along d T `div` world_size c) (rank c)) T).
Proof. intros ??. unfold scatter. by rewrite divide_Ok. Qed.

(** C2. For a tensor [T] that is rectangular along axis [d] and a group
    of [w] workers: when the size along [d] is divisible by [w], gathering
    the chunks that [scatter] gives the workers returns [T]; when it is not,
    [scatter] fails on every worker with the configuration error. *)
Theorem scatter_gather_roundtrip {A} (d w : nat) (T : nest (S d) A) :
  0 < w →
  rect_at d (size_along d T) T →
  (size_along d T `mod` w = 0 →
     gather_all d <$> mapM (fun r => scatter (mkComm w r) d T) (seq 0 w) = Ok T)
  ∧ (size_along d T `mod` w ≠ 0 →
     ∀ r, scatter (mkComm w r) d T = Err ConfigurationError).
Proof.
  intros Hw Hrect. split.
  - intros Hdiv.
    rewrite (mapM_res_fmap _
      (fun r => map_at d (chunk (size_along d T `div` w) r) T)).
    2:{ intros r _. rewrite scatter_Ok; simpl; [done|lia|done]. }
    simpl. f_equal. unfold gather_all. apply cat_at_chunks; [done|].
    replace (w * (size_along d T `div` w)) with (size_along d T); [done|].
    apply Nat.Div0.div_exact in Hdiv. lia.
  - intros Hndiv r. unfold scatter. simpl. by rewrite divide_Err.
Qed.

Lemma scatter_gather_roundtrip_witness :
  gather_all 1 <$> mapM (fun r => scatter (mkComm 2 r) 1
                            [[1; 2; 3; 4]; [5; 6; 7; 8]]) (seq 0 2)
    = Ok [[1; 2; 3; 4]; [5; 6; 7; 8]]
  ∧ ∀ r, scatter (mkComm 3 r) 1 [[1; 2; 3; 4]; [5; 6; 7; 8]]
         = Err ConfigurationError.
Proof.
  split.
  - apply (scatter_gather_roundtrip 1 2 [[1; 2; 3; 4]; [5; 6; 7; 8]]);
      [lia | repeat constructor | reflexivity].
  - apply (scatter_gather_roundtrip 1 3 [[1; 2; 3; 4]; [5; 6; 7; 8]]);
      [lia | repeat constructor | simpl; lia].
Defined.

Lemma mapM_res_compose {A B C} (f : B → res C) (g : A → B) (l : list A) :
  mapM f (g <$> l) = mapM (fun x => f (g x)) l.
Proof. induction l as [|x l IH]; [done|]. simpl. by rewrite <- IH. Qed.

Lemma mapM_res_length {A B} (f : A → res B) (l : list A) k :
  mapM f l = Ok k → length k = length l.
Proof.
  revert k. induction l as [|x l IH]; intros k; simpl.
  - by intros [= <-].
  - destruct (f x); [|done]. simpl. destruct (mapM f l); [|done]. simpl.
    intros [= <-]. simpl. f_equal. by apply IH.
Qed.

Section RunFacts.
Context {F G R : Type}.
Implicit Types (B : backend F G) (σ : world F G) (P Q : nat → prog F R).

Lemma run_spmd_ext B w P Q σ :
  (∀ r, r < w → P r = Q r) → run_spmd B w P σ = run_spmd B w Q σ.
Proof.
  intros HPQ. destruct w as [|w]; [done|]. simpl.
  rewrite (HPQ 0) by lia. f_equal.
  apply Forall_fmap_ext_1, Forall_forall. intros r Hr%elem_of_seq.
  apply HPQ. lia.
Qed.

Lemma run_spmd_Ret B w (v : nat → R) σ :
  0 < w → run_spmd B w (fun r => Ret (v r)) σ = Ok (v <$> seq 0 w, σ, []).
Proof.
  intros Hw. destruct w as [|w]; [lia|]. simpl.
  rewrite mapM_res_compose. simpl.
  by rewrite (mapM_res_fmap _ v).
Qed.

Lemma zip_with_seq_lookup {X Y Z} `{Inhabited Y} (f : X → Y → Z) (g : nat → X)
    (o0 : Y) (os : list Y) n :
  length os = n →
  zip_with f (g <$> seq 1 n) os = (fun r => f (g r) ((o0 :: os) !!! r)) <$> seq 1 n.
Proof.
  intros <-. apply list_eq. intros i.
  rewrite lookup_zip_with, !list_lookup_fmap.
  destruct (decide (i < length os)) as [Hi|Hi].
  - rewrite lookup_seq_lt by done. simpl.
    destruct (lookup_lt_is_Some_2 os i Hi) as [o Ho]. rewrite Ho. simpl.
    by rewrite (list_lookup_total_correct _ _ _ Ho).
  - rewrite lookup_seq_ge by lia. done.
Qed.

Lemma run_spmd_RowToCol B w (t : nat → T4 F) (k : nat → T4 F → prog F R) σ :
  run_spmd B w (fun r => RowToCol (t r) (k r)) σ
  = (outs ← row_to_col_all (t <$> seq 0 w);
     logged EvRowToCol (run_spmd B w (fun r => k r (outs !!! r)) σ)).
Proof.
  destruct w as [|w]; [done|]. simpl run_spmd. simpl run.
  rewrite mapM_res_compose. simpl.
  rewrite (mapM_res_fmap _ (fun r => (t r, k r))) by done. simpl.
  rewrite <- list_fmap_compose.
  change (t 0 :: ((fst ∘ (fun r => (t r, k r))) <$> seq 1 w)) with (t <$> seq 0 (S w)).
  change (t 0 :: list_fmap _ _ t (seq 1 w)) with (t <$> seq 0 (S w)).
  destruct (row_to_col_all (t <$> seq 0 (S w))) as [outs|e] eqn:E; [|done].
  simpl. apply mapM_res_length in E. rewrite length_seq in E.
  destruct outs as [|o0 os]; [done|]. simpl in E.
  rewrite length_fmap, length_seq in E.
  rewrite (zip_with_seq_lookup _ _ o0); [done|]. by injection E.
Qed.

Lemma row_to_col_all_length {A} (ts outs : list (nest 3 A)) :
  row_to_col_all ts = Ok outs → length outs = length ts.
Proof. intros E. apply mapM_res_length in E. by rewrite length_seq in E. Qed.

Lemma run_spmd_Gather B w (t : nat → T4 F) dim (k : nat → T4 F → prog F R) σ :
  run_spmd B w (fun r => Gather (t r) dim (k r)) σ
  = match w with
    | 0 => Err ProtocolError
    | _ => full ← cat4 dim (t <$> seq 0 w);
           logged (EvGather dim) (run_spmd B w (fun r => k r full) σ)
    end.
Proof.
  destruct w as [|w]; [done|]. simpl run_spmd. simpl run.
  rewrite mapM_res_compose. simpl.
  rewrite (mapM_res_fmap _ (fun r => (t r, k r)))
    by (intros; by rewrite decide_True). simpl.
  rewrite <- list_fmap_compose.
  change (t 0 :: ((fst ∘ (fun r => (t r, k r))) <$> seq 1 w)) with (t <$> seq 0 (S w)).
  change (t 0 :: list_fmap _ _ t (seq 1 w)) with (t <$> seq 0 (S w)).
  destruct (cat4 dim _); [|done]. simpl.
  by rewrite <- list_fmap_compose.
Qed.

Lemma run_spmd_GatherAsync B w (t : nat → T4 F) dim
    (k : nat → T4 F * handle → prog F R) σ :
  run_spmd B w (fun r => GatherAsync (t r) dim (k r)) σ
  = match w with
    | 0 => Err ProtocolError
    | _ => let h := fresh (dom (inflight σ)) in
           logged (EvGatherAsync dim h)
             (run_spmd B w (fun r => k r (placeholder B dim (t r), h))
                (mkWorld (gens σ) (<[h := (dim, t <$> seq 0 w)]> (inflight σ))))
    end.
Proof.
  destruct w as [|w]; [done|]. simpl run_spmd. simpl run.
  rewrite mapM_res_compose. simpl.
  rewrite (mapM_res_fmap _ (fun r => (t r, k r)))
    by (intros; by rewrite decide_True). simpl.
  rewrite <- !list_fmap_compose. done.
Qed.

Lemma run_spmd_Wait B w h (k : nat → T4 F → prog F R) σ :
  run_spmd B w (fun r => Wait h (k r)) σ
  = match w with
    | 0 => Err ProtocolError
    | _ => match inflight σ !! h with
           | Some (dim, shards) =>
               full ← cat4 dim shards;
               logged (EvWait h)
                 (run_spmd B w (fun r => k r full)
                    (mkWorld (gens σ) (delete h (inflight σ))))
           | None => Err ProtocolError
           end
    end.
Proof.
  destruct w as [|w]; [done|]. simpl run_spmd. simpl run.
  rewrite mapM_res_compose. simpl.
  rewrite (mapM_res_fmap _ k) by (intros; by rewrite decide_True). simpl.
  destruct (inflight σ !! h) as [[dim shards]|]; [|done].
  destruct (cat4 dim shards); [|done]. simpl.
  by rewrite <- list_fmap_compose.
Qed.

Lemma run_spmd_Raise B w e σ :
  0 < w → run_spmd (R:=R) B w (fun _ => Raise e) σ = Err e.
Proof. intros Hw. destruct w; [lia|]. done. Qed.

Lemma scatter_fmap_divide {A} c d (t : nest (S d) A) :
  scatter c d t
  = (fun k => map_at d (chunk k (rank c)) t) <$> divide (size_along d t) (world_size c).
Proof. unfold scatter. by destruct (divide _ _). Qed.

Lemma run_spmd_scatter {A} B w d (t : nest (S d) A)
    (f : nat → nest (S d) A → prog F R) σ :
  0 < w →
  run_spmd B w (fun r => lift (scatter (mkComm w r) d t) ≫= f r) σ
  = (k ← divide (size_along d t) w;
     run_spmd B w (fun r => f r (map_at d (chunk k r) t)) σ).
Proof.
  intros Hw.
  erewrite run_spmd_ext.
  2:{ intros r _. rewrite scatter_fmap_divide. simpl. reflexivity. }
  destruct (divide (size_along d t) w) as [k|e]; simpl; [done|].
  by apply run_spmd_Raise.
Qed.

Lemma observable_logged ev (m : res (outcome F G R)) :
  observable (logged ev m) = observable m.
Proof. by destruct m as [[[rs σ] tr]|e]. Qed.

Lemma world_restore σ h v :
  h = fresh (dom (inflight σ)) →
  mkWorld (gens σ) (delete h (<[h := v]> (inflight σ))) = σ.
Proof.
  intros ->. destruct σ as [gs m]. simpl. f_equal.
  rewrite delete_insert_eq. apply delete_id.
  apply not_elem_of_dom, is_fresh.
Qed.

End RunFacts.


Section Denotation.
Context {F : Type} `{Num F}.

Lemma MSAStack_run {G} (B : backend F G) w (self : MSAStack.t F)
    (node pair : nat → T4 F) (node_mask : T3 F) (σ : world F G) :
  0 < w →
  MSARowAttentionWithPairBias.training (MSAStack.MSARowAttentionWithPairBias self) = false →
  run_spmd B w (fun r => MSAStack.forward (mkComm w r) self (node r) (pair r) node_mask) σ
  = stack_stages w (MSAStack.MSARowAttentionWithPairBias self)
      (col_block (MSAStack.MSAColumnAttention self))
      (MSAStack.MSATransition self) node pair node_mask σ.
Proof.
  intros Hw Htr. unfold stack_stages, MSAStack.forward.
  rewrite (run_spmd_scatter (A:=list F) B w 1 node_mask) by done.
  destruct (divide (size_along 1 node_mask) w) as [k_row|e] eqn:Ek; [|done].
  cbn [mbind res_bind].
  unfold MSARowAttentionWithPairBias.forward. 
  cbn [mbind mret prog_mbind prog_ret prog_bind gather_async].
  rewrite run_spmd_GatherAsync. destruct w as [|w']; [lia|]. 
  set (w := S w') in *.
  cbn zeta.
  cbn [mbind mret prog_mbind prog_ret prog_bind SelfAttention.forward wait].
  rewrite run_spmd_Wait. subst w. cbn [inflight gens].
  rewrite lookup_insert_eq. cbn [cat4 mbind res_bind].
  rewrite world_restore by done.
  rewrite Htr. unfold bias_dropout_add.
  cbn [mbind mret prog_mbind prog_ret prog_bind row_to_col].
  rewrite run_spmd_RowToCol.
  unfold row_block, pair_bias.
  destruct (row_to_col_all _) as [node2|e]; [|done].
  cbn [mbind res_bind].
  rewrite (run_spmd_scatter (A:=F) B (S w') 2 node_mask) by done.
  destruct (divide (size_along 2 node_mask) (S w')) as [k_col|e]; [|done].
  cbn [mbind res_bind].
  unfold MSAColumnAttention.forward, SelfAttention.forward.
  cbn [mbind mret prog_mbind prog_ret prog_bind].
  unfold mret, prog_ret. rewrite run_spmd_Ret by done. reflexivity.
Qed.

Lemma ExtraMSAStack_run {G} (B : backend F G) w (self : ExtraMSAStack.t F)
    (node pair : nat → T4 F) (node_mask : T3 F) (σ : world F G) :
  0 < w →
  MSARowAttentionWithPairBias.training (ExtraMSAStack.MSARowAttentionWithPairBias self) = false →
  run_spmd B w (fun r => ExtraMSAStack.forward (mkComm w r) self (node r) (pair r) node_mask) σ
  = stack_stages w (ExtraMSAStack.MSARowAttentionWithPairBias self)
      (col_global_block (ExtraMSAStack.MSAColumnAttention self))
      (ExtraMSAStack.MSATransition self) node pair node_mask σ.
Proof.
  intros Hw Htr. unfold stack_stages, ExtraMSAStack.forward.
  rewrite (run_spmd_scatter (A:=list F) B w 1 node_mask) by done.
  destruct (divide (size_along 1 node_mask) w) as [k_row|e] eqn:Ek; [|done].
  cbn [mbind res_bind].
  unfold MSARowAttentionWithPairBias.forward. 
  cbn [mbind mret prog_mbind prog_ret prog_bind gather_async].
  rewrite run_spmd_GatherAsync. destruct w as [|w']; [lia|]. 
  cbn zeta.
  cbn [mbind mret prog_mbind prog_ret prog_bind SelfAttention.forward wait].
  rewrite run_spmd_Wait. cbn [inflight gens].
  rewrite lookup_insert_eq. cbn [cat4 mbind res_bind].
  rewrite world_restore by done.
  rewrite Htr. unfold bias_dropout_add.
  cbn [mbind mret prog_mbind prog_ret prog_bind row_to_col].
  rewrite run_spmd_RowToCol.
  unfold row_block, pair_bias.
  destruct (row_to_col_all _) as [node2|e]; [|done].
  cbn [mbind res_bind].
  rewrite (run_spmd_scatter (A:=F) B (S w') 2 node_mask) by done.
  destruct (divide (size_along 2 node_mask) (S w')) as [k_col|e]; [|done].
  cbn [mbind res_bind].
  unfold MSAColumnGlobalAttention.forward.
  cbn [mbind mret prog_mbind prog_ret prog_bind].
  unfold mret, prog_ret. rewrite run_spmd_Ret by done. reflexivity.
Qed.
End Denotation.


Section AsyncGather.
Context {F G : Type} `{Num F}.

(** C6. Waiting on the handle of [gather_async] leaves the same tensors
    and the same state as the synchronous [gather] of the same shards along
    the same axis; and [MSARowAttentionWithPairBias.forward] leaves what the
    same block leaves when it gathers its bias synchronously. *)
Theorem gather_async_wait_is_gather (B : backend F G) (w : nat)
    (tensor : nat → T4 F) (dim : nat) (σ : world F G)
    (self : MSARowAttentionWithPairBias.t F) (M_raw Z : nat → T4 F)
    (M_mask : nat → T3 F) :
  observable (run_spmd B w (fun r => bw ← gather_async (tensor r) dim; wait bw.2) σ)
  = observable (run_spmd B w (fun r => gather (tensor r) dim) σ)
  ∧ observable (run_spmd B w (fun r =>
        MSARowAttentionWithPairBias.forward self (M_raw r) (Z r) (M_mask r)) σ)
    = observable (run_spmd B w (fun r =>
        row_forward_with_gather self (M_raw r) (Z r) (M_mask r)) σ).
Proof.
  destruct w as [|w']; [done|]. split.
  - cbn [mbind mret prog_mbind prog_ret prog_bind gather_async gather wait snd].
    unfold gather. rewrite run_spmd_GatherAsync, run_spmd_Gather. cbn zeta.
    unfold wait. cbn [snd].
    rewrite observable_logged, run_spmd_Wait. cbn [inflight gens snd].
    rewrite lookup_insert_eq, world_restore by done.
    destruct (cat4 dim _) as [full|e]; [|done]. cbn [mbind res_bind].
    by rewrite !observable_logged.
  - unfold MSARowAttentionWithPairBias.forward, row_forward_with_gather.
    cbn [mbind mret prog_mbind prog_ret prog_bind gather_async gather].
    rewrite run_spmd_GatherAsync, run_spmd_Gather. cbn zeta.
    cbn [mbind mret prog_mbind prog_ret prog_bind SelfAttention.forward wait].
    rewrite observable_logged, run_spmd_Wait. cbn [inflight gens].
    rewrite lookup_insert_eq, world_restore by done.
    cbn [cat4 mbind res_bind].
    by rewrite !observable_logged.
Qed.

End AsyncGather.


Section Transpose.
Context {A : Type}.
Implicit Types (rows cols : list (list A)) (r : list A).

Lemma matrix_cons n m r rows :
  matrix (S n) m (r :: rows) ↔ length r = m ∧ matrix n m rows.
Proof.
  unfold matrix. simpl. rewrite Forall_cons. intuition lia.
Qed.

Lemma matrix_nil n m : matrix (A:=A) n m [] ↔ n = 0.
Proof. unfold matrix. simpl. intuition. Qed.

Lemma transpose_n_cons m r rows :
  transpose_n m (r :: rows) = zip_with cons r (transpose_n m rows).
Proof. done. Qed.

Lemma transpose_n_matrix n m rows :
  matrix n m rows → matrix m n (transpose_n m rows).
Proof.
  revert n. induction rows as [|r rows IH]; intros n.
  - intros ->%matrix_nil. split; [apply length_replicate|].
    apply Forall_replicate. done.
  - destruct n as [|n]; [intros [? _]; done|].
    intros [Hr Hrows]%matrix_cons. destruct (IH n Hrows) as [Hl Hf].
    rewrite transpose_n_cons. split.
    + rewrite length_zip_with. lia.
    + clear IH Hrows. revert r Hr Hl. generalize (transpose_n m rows) Hf.
      clear. intros T. revert m. induction T as [|c T IH]; intros m Hf r Hr Hl.
      * destruct r; constructor.
      * destruct r as [|x r]; [constructor|]. simpl.
        apply Forall_cons in Hf as [Hc Hf].
        constructor; [simpl; lia|].
        destruct m; [done|]. apply (IH m); simpl in *; [done|lia|lia].
Qed.

Lemma transpose_n_zip_cons n r T :
  length r = length T → Forall (fun c => length c = n) T →
  transpose_n (S n) (zip_with cons r T) = r :: transpose_n n T.
Proof.
  revert r. induction T as [|c T IH]; intros r Hr HT.
  - destruct r; [|done]. done.
  - destruct r as [|x r]; [done|]. simpl in Hr.
    apply Forall_cons in HT as [Hc HT].
    simpl zip_with. rewrite transpose_n_cons, IH by (done || lia).
    by rewrite transpose_n_cons.
Qed.

Lemma transpose_n_nil_cols m :
  transpose_n (A:=A) 0 (replicate m []) = [].
Proof. destruct m as [|m]; done. Qed.

Lemma transpose_n_involutive n m rows :
  matrix n m rows → transpose_n n (transpose_n m rows) = rows.
Proof.
  revert n. induction rows as [|r rows IH]; intros n.
  - intros ->%matrix_nil. apply transpose_n_nil_cols.
  - destruct n as [|n]; [intros [? _]; done|].
    intros [Hr Hrows]%matrix_cons.
    destruct (transpose_n_matrix n m rows Hrows) as [Hl Hf].
    rewrite transpose_n_cons, transpose_n_zip_cons by (done || lia).
    by rewrite IH.
Qed.

Lemma transpose_matrix n m rows :
  matrix n m rows → 0 < n → transpose rows = transpose_n m rows.
Proof.
  intros [Hn Hf] Hpos. destruct rows as [|r rows]; [simpl in Hn; lia|].
  simpl. apply Forall_cons in Hf as [-> _]. done.
Qed.

Lemma transpose_involutive n m rows :
  matrix n m rows → 0 < m → transpose (transpose rows) = rows.
Proof.
  intros Hm Hpos. destruct (decide (n = 0)) as [->|Hn].
  - destruct Hm as [->%nil_length_inv _]. done.
  - rewrite (transpose_matrix n m rows) by (done || lia).
    rewrite (transpose_matrix m n) by (by apply transpose_n_matrix || done).
    by apply transpose_n_involutive.
Qed.

End Transpose.

Lemma transpose_n_fmap {A B} (g : A → B) m (rows : list (list A)) :
  transpose_n m (fmap (M:=list) g <$> rows) = fmap (M:=list) g <$> transpose_n m rows.
Proof.
  induction rows as [|r rows IH].
  - simpl. unfold transpose_n. simpl. by rewrite fmap_replicate.
  - rewrite fmap_cons, !transpose_n_cons, IH.
    generalize (transpose_n m rows). clear. intros T. revert T.
    induction r as [|x r IH]; intros [|c T]; simpl; [done..|].
    by rewrite IH.
Qed.

Lemma transpose_fmap {A B} (g : A → B) (rows : list (list A)) :
  transpose (fmap (M:=list) g <$> rows) = fmap (M:=list) g <$> transpose rows.
Proof.
  destruct rows as [|r rows]; [done|].
  unfold transpose. rewrite fmap_cons, length_fmap, <- fmap_cons.
  apply transpose_n_fmap.
Qed.


Lemma zip_with_fmap_same {A B C} (f : A → B → C) (g : A → B) (l : list A) :
  zip_with f l (g <$> l) = (fun x => f x (g x)) <$> l.
Proof. by rewrite zip_with_fmap_r, zip_with_diag. Qed.

Lemma fmap_id_ext {A} (f : A → A) (l : list A) :
  (∀ x, f x = x) → f <$> l = l.
Proof.
  intros Hf. rewrite <- (list_fmap_id l) at 2.
  apply Forall_fmap_ext_1, Forall_forall. intros x _. apply Hf.
Qed.

Section Residual.
Context {F : Type} `{NumLaws F}.

Lemma add1_zeros (v : list F) : add1 v ((fun _ => fzero) <$> v) = v.
Proof.
  unfold add1. rewrite zip_with_fmap_same. apply fmap_id_ext.
  intros x. apply fadd_0_r.
Qed.

Lemma add4_zeros (M : T4 F) : add4 M (zeros_like4 M) = M.
Proof.
  unfold add4, zeros_like4, map3. rewrite zip_with_fmap_same.
  apply fmap_id_ext. intros Mb. rewrite zip_with_fmap_same.
  apply fmap_id_ext. intros row. rewrite zip_with_fmap_same.
  apply fmap_id_ext. intros v. apply add1_zeros.
Qed.

Lemma add1_zeros_bias (v bias : list F) :
  add1 v (add1 ((fun _ => fzero) <$> v) bias) = add1 v bias.
Proof.
  unfold add1. revert bias. induction v as [|x v IH]; intros [|b bias]; simpl; [done..|].
  by rewrite fadd_0_l, IH.
Qed.

Lemma add4_zeros_bias (M : T4 F) (bias : list F) :
  add4 M (map3 (fun v => add1 v bias) (zeros_like4 M))
  = map3 (fun v => add1 v bias) M.
Proof.
  unfold add4, zeros_like4, map3.
  rewrite <- list_fmap_compose, zip_with_fmap_same.
  apply Forall_fmap_ext_1, Forall_forall. intros Mb _. simpl.
  rewrite <- list_fmap_compose, zip_with_fmap_same.
  apply Forall_fmap_ext_1, Forall_forall. intros row _. simpl.
  rewrite <- list_fmap_compose, zip_with_fmap_same.
  apply Forall_fmap_ext_1, Forall_forall. intros v _. simpl.
  apply add1_zeros_bias.
Qed.

Lemma transpose_zeros (M : T4 F) B R C :
  shape3 B R C M → 0 < C →
  transpose_1_2 (zeros_like4 (transpose_1_2 M)) = zeros_like4 M.
Proof.
  intros [_ HM] HC. unfold transpose_1_2, zeros_like4, map3.
  rewrite <- !list_fmap_compose.
  apply Forall_fmap_ext_1. eapply Forall_impl; [exact HM|].
  intros Mb HMb. simpl.
  rewrite transpose_fmap. by rewrite (transpose_involutive R C).
Qed.

Lemma Row_run {G} (B : backend F G) w (self : MSARowAttentionWithPairBias.t F)
    (M_raw Z : nat → T4 F) (M_mask : nat → T3 F) (σ : world F G) :
  0 < w →
  MSARowAttentionWithPairBias.training self = false →
  observable (run_spmd B w (fun r =>
      MSARowAttentionWithPairBias.forward self (M_raw r) (Z r) (M_mask r)) σ)
  = Ok ((fun r => row_block self (M_raw r)
                    (cat_at 1 ((fun r => pair_bias self (Z r)) <$> seq 0 w))
                    (M_mask r)) <$> seq 0 w, σ).
Proof.
  intros Hw Htr. unfold MSARowAttentionWithPairBias.forward.
  cbn [mbind mret prog_mbind prog_ret prog_bind gather_async].
  rewrite run_spmd_GatherAsync. destruct w as [|w']; [lia|]. cbn zeta.
  cbn [mbind mret prog_mbind prog_ret prog_bind SelfAttention.forward wait].
  rewrite observable_logged, run_spmd_Wait. cbn [inflight gens].
  rewrite lookup_insert_eq. cbn [cat4 mbind res_bind].
  rewrite world_restore by done.
  rewrite Htr. unfold bias_dropout_add.
  cbn [mbind mret prog_mbind prog_ret prog_bind].
  unfold mret, prog_ret. rewrite observable_logged, run_spmd_Ret by done.
  reflexivity.
Qed.

(** C7, as amended.  When the sub-module returns zero, the column
    attention, the global column attention and the transition return their
    input unchanged.  The row attention with pair bias does not: at
    inference it returns its input plus the output bias, since
    [bias_dropout_add] adds [out_bias] to the (zero) attention output before
    the residual addition. *)
Theorem residual_paths {G} (B : backend F G) (w : nat) (σ : world F G) :
  (∀ (self : MSAColumnAttention.t F) M_raw M_mask Bt R C,
     shape3 Bt R C M_raw → 0 < C →
     SelfAttention.attend (MSAColumnAttention.attention self)
       (LayerNorm.forward (MSAColumnAttention.layernormM self) (transpose_1_2 M_raw))
       (transpose_1_2 M_mask) None
     = zeros_like4 (transpose_1_2 M_raw) →
     MSAColumnAttention.forward self M_raw M_mask = Ret M_raw)
  ∧ (∀ (self : MSAColumnGlobalAttention.t F) M_raw M_mask Bt R C,
     shape3 Bt R C M_raw → 0 < C →
     GlobalAttention.forward (MSAColumnGlobalAttention.global_attention self)
       (LayerNorm.forward (MSAColumnGlobalAttention.layernormM self) (transpose_1_2 M_raw))
       (transpose_1_2 M_mask)
     = zeros_like4 (transpose_1_2 M_raw) →
     MSAColumnGlobalAttention.forward self M_raw M_mask = Ret M_raw)
  ∧ (∀ (self : Transition.t F) src,
     (∀ v, Transition.ff self v = (fun _ => fzero) <$> v) →
     Transition.forward self src = src)
  ∧ (∀ (self : MSARowAttentionWithPairBias.t F) (M_raw Z : nat → T4 F)
       (M_mask : nat → T3 F),
     0 < w →
     MSARowAttentionWithPairBias.training self = false →
     (∀ r, r < w →
        SelfAttention.attend (MSARowAttentionWithPairBias.attention self)
          (LayerNorm.forward (MSARowAttentionWithPairBias.layernormM self) (M_raw r))
          (M_mask r)
          (Some (cat_at 1 ((fun r => pair_bias self (Z r)) <$> seq 0 w)))
        = zeros_like4 (M_raw r)) →
     observable (run_spmd B w (fun r =>
         MSARowAttentionWithPairBias.forward self (M_raw r) (Z r) (M_mask r)) σ)
     = Ok ((fun r => map3 (fun v => add1 v (MSARowAttentionWithPairBias.out_bias self))
                       (M_raw r)) <$> seq 0 w, σ)).
Proof.
  repeat split.
  - intros self M_raw M_mask Bt R C Hs HC Hz.
    unfold MSAColumnAttention.forward, SelfAttention.forward.
    cbn [mbind mret prog_mbind prog_ret prog_bind].
    rewrite Hz, (transpose_zeros _ Bt R C), add4_zeros by done. done.
  - intros self M_raw M_mask Bt R C Hs HC Hz.
    unfold MSAColumnGlobalAttention.forward.
    rewrite Hz, (transpose_zeros _ Bt R C), add4_zeros by done. done.
  - intros self src Hff. unfold Transition.forward, map3.
    do 3 (apply fmap_id_ext; intros ?). rewrite Hff. apply add1_zeros.
  - intros self M_raw Z M_mask Hw Htr Hz.
    rewrite Row_run by done. do 2 f_equal.
    apply Forall_fmap_ext_1, Forall_forall. intros r Hr%elem_of_seq.
    unfold row_block. rewrite Hz by lia. apply add4_zeros_bias.
Qed.

End Residual.

Lemma residual_row_counterexample :
  SelfAttention.attend (MSARowAttentionWithPairBias.attention biased_row)
    (LayerNorm.forward (MSARowAttentionWithPairBias.layernormM biased_row) [[[[5%Z]]]])
    [[[1%Z]]] (Some [[[[0%Z]]]])
  = zeros_like4 [[[[5%Z]]]]
  ∧ observable (run_spmd idle 1 (fun _ =>
        MSARowAttentionWithPairBias.forward biased_row [[[[5%Z]]]] [[[[0%Z]]]] [[[1%Z]]])
      (fresh_world 1))
    = Ok ([ [[[[6%Z]]]] ], fresh_world 1)
  ∧ [[[[6%Z]]]] ≠ [[[[5%Z]]]].
Proof.
  split; [vm_compute; reflexivity|].
  split; [vm_compute; reflexivity|discriminate].
Qed.

Lemma residual_paths_witness :
  MSAColumnAttention.forward (MSAColumnAttention.mk ln_id zero_attention)
    [[[[5%Z]; [6%Z]]; [[7%Z]; [8%Z]]]] [[[1%Z; 1%Z]; [1%Z; 1%Z]]]
  = Ret [[[[5%Z]; [6%Z]]; [[7%Z]; [8%Z]]]]
  ∧ Transition.forward zero_transition [[[[5%Z]; [6%Z]]; [[7%Z]; [8%Z]]]]
    = [[[[5%Z]; [6%Z]]; [[7%Z]; [8%Z]]]]
  ∧ observable (run_spmd idle 1 (fun _ =>
        MSARowAttentionWithPairBias.forward biased_row
          [[[[5%Z]]]] [[[[0%Z]]]] [[[1%Z]]]) (fresh_world 1))
    = Ok ((fun _ => map3 (fun v => add1 v [1%Z]) [[[[5%Z]]]]) <$> seq 0 1,
          fresh_world 1).
Proof.
  split; [|split].
  - apply (proj1 (residual_paths idle 1 (fresh_world 1))) with (Bt := 1) (R := 2) (C := 2).
    + repeat constructor.
    + lia.
    + vm_compute. reflexivity.
  - apply (proj1 (proj2 (proj2 (residual_paths idle 1 (fresh_world 1))))).
    intros v. reflexivity.
  - apply (proj2 (proj2 (proj2 (residual_paths idle 1 (fresh_world 1)))) biased_row
             (fun _ => [[[[5%Z]]]]) (fun _ => [[[[0%Z]]]]) (fun _ => [[[1%Z]]])).
    + lia.
    + reflexivity.
    + intros r Hr. vm_compute. reflexivity.
Defined.

Section RunDropout.
Context {F G R : Type}.

Lemma run_spmd_Dropout (B : backend F G) w (m : nat → T4 F) (q : nat → F)
    (k : nat → T4 F → prog F R) (σ : world F G) :
  0 < w →
  run_spmd B w (fun r => Dropout (m r) (q r) (k r)) σ
  = if decide (length (gens σ) = w) then
      let ds := zip_with (fun g r => draw B g (m r) (q r)) (gens σ) (seq 0 w) in
      logged EvDropout
        (run_spmd B w (fun r => k r (ds.*1 !!! r)) (mkWorld ds.*2 (inflight σ)))
    else Err ProtocolError.
Proof.
  intros Hw. destruct w as [|w]; [lia|]. simpl run_spmd. simpl run.
  rewrite mapM_res_compose. simpl.
  rewrite (mapM_res_fmap _ (fun r => (m r, q r, k r))) by done. simpl.
  destruct (gens σ) as [|g0 gs] eqn:Eg; [by rewrite decide_False|].
  rewrite length_fmap, length_seq. simpl length.
  destruct (decide (length gs = w)) as [Hl|Hl].
  2:{ rewrite decide_False by lia. done. }
  rewrite decide_True by lia.
  change (seq 0 (S w)) with (0 :: seq 1 w). simpl zip_with.
  rewrite zip_with_fmap_r. simpl.
  set (ds := zip_with (fun g r => draw B g (m r) (q r)) gs (seq 1 w)).
  f_equal. f_equal.
  rewrite <- (zip_with_fmap_r (fun mk o => mk.2 o) fst).
  rewrite (zip_with_seq_lookup _ _ (draw B g0 (m 0) (q 0)).1).
  2:{ unfold ds. rewrite length_fmap, length_zip_with, length_seq. lia. }
  done.
Qed.

End RunDropout.

Section Sequence.
Context {F G : Type} `{Num F}.
Implicit Types (B : backend F G) (σ : world F G).

Lemma then_run_logged {R R'} ev (m : res (outcome F G R))
    (k : list R → world F G → res (outcome F G R')) :
  then_run (logged ev m) k = logged ev (then_run m k).
Proof.
  destruct m as [[[rs σ1] tr1]|e]; [|done]. simpl.
  destruct (k rs σ1) as [[[rs' σ2] tr2]|e]; done.
Qed.

Lemma then_run_Ok {R R'} rs σ1 (k : list R → world F G → res (outcome F G R')) :
  then_run (Ok (rs, σ1, [])) k = k rs σ1.
Proof. simpl. by destruct (k rs σ1) as [[[rs' σ2] tr2]|e]. Qed.

Lemma run_spmd_seq_lookup {R} B w (f : nat → T4 F → prog F R) (v : nat → T4 F) σ :
  run_spmd B w (fun r => f r ((v <$> seq 0 w) !!! r)) σ
  = run_spmd B w (fun r => f r (v r)) σ.
Proof.
  apply run_spmd_ext. intros r Hr. f_equal.
  apply list_lookup_total_correct.
  rewrite list_lookup_fmap, lookup_seq_lt by done. done.
Qed.

(** The row block of every worker followed by a continuation: the run of the
    row block, then the run of the continuation on its results. *)
Lemma Row_run_bind {R} B w (self : MSARowAttentionWithPairBias.t F)
    (M_raw Z : nat → T4 F) (M_mask : nat → T3 F) (f : nat → T4 F → prog F R) σ :
  0 < w →
  run_spmd B w (fun r =>
      MSARowAttentionWithPairBias.forward self (M_raw r) (Z r) (M_mask r) ≫= f r) σ
  = then_run
      (run_spmd B w (fun r =>
         MSARowAttentionWithPairBias.forward self (M_raw r) (Z r) (M_mask r)) σ)
      (fun node1 σ1 => run_spmd B w (fun r => f r (node1 !!! r)) σ1).
Proof.
  intros Hw. unfold MSARowAttentionWithPairBias.forward.
  cbn [mbind mret prog_mbind prog_ret prog_bind gather_async].
  rewrite !run_spmd_GatherAsync. destruct w as [|w']; [lia|]. cbn zeta.
  cbn [mbind mret prog_mbind prog_ret prog_bind SelfAttention.forward wait].
  rewrite then_run_logged. f_equal.
  rewrite !run_spmd_Wait. cbn [inflight gens].
  rewrite lookup_insert_eq. cbn [cat4 mbind res_bind].
  rewrite then_run_logged. f_equal.
  rewrite world_restore by done.
  unfold bias_dropout_add.
  destruct (MSARowAttentionWithPairBias.training self).
  - cbn [mbind mret prog_mbind prog_ret prog_bind dropout].
    rewrite !run_spmd_Dropout by done.
    destruct (decide (length (gens σ) = S w')); [|done]. cbn zeta.
    rewrite then_run_logged. f_equal.
    unfold mret, prog_ret. rewrite run_spmd_Ret by done.
    rewrite then_run_Ok. by rewrite run_spmd_seq_lookup.
  - cbn [mbind mret prog_mbind prog_ret prog_bind].
    unfold mret, prog_ret. rewrite run_spmd_Ret by done.
    rewrite then_run_Ok. by rewrite run_spmd_seq_lookup.
Qed.

End Sequence.


Section RunLength.
Context {F G R : Type}.

Lemma logged_Ok ev (m : res (outcome F G R)) rs σ tr :
  logged ev m = Ok (rs, σ, tr) → ∃ tr', m = Ok (rs, σ, tr') ∧ tr = ev :: tr'.
Proof.
  destruct m as [[[rs' σ'] tr']|e]; simpl; [|done].
  intros [= <- <- <-]. eauto.
Qed.

Lemma res_bind_Ok {A B} (m : res A) (f : A → res B) b :
  m ≫= f = Ok b → ∃ a, m = Ok a ∧ f a = Ok b.
Proof. destruct m as [a|e]; simpl; [eauto|done]. Qed.

Lemma run_length (B : backend F G) (p0 : prog F R) ps σ rs σ' tr :
  run B p0 ps σ = Ok (rs, σ', tr) → length rs = S (length ps).
Proof.
  revert ps σ rs σ' tr.
  induction p0 as [r0|e|t0 k0 IH|t0 dim k0 IH|t0 dim k0 IH|h k0 IH|m0 q0 k0 IH];
    intros ps σ rs σ' tr; simpl.
  - intros (rs' & Hrs & [= <- <- <-])%res_bind_Ok.
    apply mapM_res_length in Hrs. simpl. by rewrite Hrs.
  - done.
  - intros (tks & Htks & (outs & Houts & Hrun)%res_bind_Ok)%res_bind_Ok.
    apply mapM_res_length in Htks. apply row_to_col_all_length in Houts.
    destruct outs as [|o0 os]; [done|].
    apply logged_Ok in Hrun as (tr' & Hrun & _). apply IH in Hrun.
    rewrite Hrun, length_zip_with. simpl in Houts. rewrite length_fmap in Houts.
    f_equal. lia.
  - intros (tks & Htks & (full & _ & Hrun)%res_bind_Ok)%res_bind_Ok.
    apply mapM_res_length in Htks.
    apply logged_Ok in Hrun as (tr' & Hrun & _). apply IH in Hrun.
    rewrite Hrun, length_fmap. by f_equal.
  - intros (tks & Htks & Hrun)%res_bind_Ok.
    apply mapM_res_length in Htks.
    apply logged_Ok in Hrun as (tr' & Hrun & _). apply IH in Hrun.
    rewrite Hrun, length_fmap. by f_equal.
  - intros (ks & Hks & Hrun)%res_bind_Ok.
    apply mapM_res_length in Hks.
    destruct (inflight σ !! h) as [[dim shards]|]; [|done].
    apply res_bind_Ok in Hrun as (full & _ & Hrun).
    apply logged_Ok in Hrun as (tr' & Hrun & _). apply IH in Hrun.
    rewrite Hrun, length_fmap. by f_equal.
  - intros (mks & Hmks & Hrun)%res_bind_Ok.
    apply mapM_res_length in Hmks.
    destruct (gens σ) as [|g0 gs]; [done|].
    destruct (decide _) as [Hl|]; [|done].
    apply logged_Ok in Hrun as (tr' & Hrun & _). apply IH in Hrun.
    rewrite Hrun, !length_zip_with. f_equal. lia.
Qed.

Lemma run_spmd_length (B : backend F G) w (P : nat → prog F R) σ rs σ' tr :
  run_spmd B w P σ = Ok (rs, σ', tr) → length rs = w.
Proof.
  destruct w as [|w]; [done|]. simpl. intros Hrun%run_length.
  by rewrite Hrun, length_fmap, length_seq.
Qed.

End RunLength.

Lemma fmap_lookup_total_seq {A} `{Inhabited A} (l : list A) :
  (fun r => l !!! r) <$> seq 0 (length l) = l.
Proof.
  apply list_eq. intros i. rewrite list_lookup_fmap.
  destruct (decide (i < length l)) as [Hi|Hi].
  - rewrite lookup_seq_lt by done. simpl.
    destruct (lookup_lt_is_Some_2 l i Hi) as [x Hx].
    by rewrite Hx, (list_lookup_total_correct _ _ _ Hx).
  - rewrite lookup_seq_ge, lookup_ge_None_2 by lia. done.
Qed.

Section StackSequence.
Context {F G : Type} `{Num F}.
Implicit Types (B : backend F G) (σ : world F G).

Lemma MSAStack_sequence B w (self : MSAStack.t F)
    (node pair : nat → T4 F) (node_mask : T3 F) σ :
  0 < w →
  run_spmd B w (fun r =>
      MSAStack.forward (mkComm w r) self (node r) (pair r) node_mask) σ
  = stack_sequence B w (MSAStack.MSARowAttentionWithPairBias self)
      (col_block (MSAStack.MSAColumnAttention self))
      (MSAStack.MSATransition self) node pair node_mask σ.
Proof.
  intros Hw. unfold stack_sequence, MSAStack.forward.
  rewrite (run_spmd_scatter (A:=list F) B w 1 node_mask) by done.
  destruct (divide (size_along 1 node_mask) w) as [k_row|e]; [|done].
  cbn [mbind res_bind].
  rewrite Row_run_bind by done. unfold then_run.
  destruct (run_spmd B w _ σ) as [[[node1 σ1] tr1]|e] eqn:Erow; [|done].
  cbn [mbind res_bind]. apply run_spmd_length in Erow.
  unfold row_to_col. cbn [mbind mret prog_mbind prog_ret prog_bind].
  rewrite run_spmd_RowToCol. rewrite <- Erow at 1.
  rewrite fmap_lookup_total_seq.
  destruct (row_to_col_all node1) as [node2|e]; [|done].
  cbn [mbind res_bind].
  rewrite (run_spmd_scatter (A:=F) B w 2 node_mask) by done.
  destruct (divide (size_along 2 node_mask) w) as [k_col|e]; [|done].
  cbn [mbind res_bind].
  unfold MSAColumnAttention.forward, SelfAttention.forward.
  cbn [mbind mret prog_mbind prog_ret prog_bind].
  unfold mret, prog_ret. rewrite run_spmd_Ret by done. reflexivity.
Qed.

Lemma ExtraMSAStack_sequence B w (self : ExtraMSAStack.t F)
    (node pair : nat → T4 F) (node_mask : T3 F) σ :
  0 < w →
  run_spmd B w (fun r =>
      ExtraMSAStack.forward (mkComm w r) self (node r) (pair r) node_mask) σ
  = stack_sequence B w (ExtraMSAStack.MSARowAttentionWithPairBias self)
      (col_global_block (ExtraMSAStack.MSAColumnAttention self))
      (ExtraMSAStack.MSATransition self) node pair node_mask σ.
Proof.
  intros Hw. unfold stack_sequence, ExtraMSAStack.forward.
  rewrite (run_spmd_scatter (A:=list F) B w 1 node_mask) by done.
  destruct (divide (size_along 1 node_mask) w) as [k_row|e]; [|done].
  cbn [mbind res_bind].
  rewrite Row_run_bind by done. unfold then_run.
  destruct (run_spmd B w _ σ) as [[[node1 σ1] tr1]|e] eqn:Erow; [|done].
  cbn [mbind res_bind]. apply run_spmd_length in Erow.
  unfold row_to_col. cbn [mbind mret prog_mbind prog_ret prog_bind].
  rewrite run_spmd_RowToCol. rewrite <- Erow at 1.
  rewrite fmap_lookup_total_seq.
  destruct (row_to_col_all node1) as [node2|e]; [|done].
  cbn [mbind res_bind].
  rewrite (run_spmd_scatter (A:=F) B w 2 node_mask) by done.
  destruct (divide (size_along 2 node_mask) w) as [k_col|e]; [|done].
  cbn [mbind res_bind].
  unfold MSAColumnGlobalAttention.forward.
  cbn [mbind mret prog_mbind prog_ret prog_bind].
  unfold mret, prog_ret. rewrite run_spmd_Ret by done. reflexivity.
Qed.

End StackSequence.


Lemma chunk_fmap {A B} (f : A → B) k r (l : list A) :
  chunk k r (f <$> l) = f <$> chunk k r l.
Proof. unfold chunk. by rewrite fmap_take, fmap_drop. Qed.

Lemma chunk_zip_with {A B C} (f : A → B → C) k r (a : list A) (b : list B) :
  chunk k r (zip_with f a b) = zip_with f (chunk k r a) (chunk k r b).
Proof. unfold chunk. by rewrite zip_with_drop, zip_with_take. Qed.

Lemma fmap_zip_with_out {A B C D} (g : C → D) (f : A → B → C) (a : list A) (b : list B) :
  g <$> zip_with f a b = zip_with (fun x y => g (f x y)) a b.
Proof. revert b. induction a as [|x a IH]; intros [|y b]; simpl; [done..|]. by rewrite IH. Qed.

Lemma zip_with_ext_all {A B C} (f g : A → B → C) (a : list A) (b : list B) :
  (∀ x y, f x y = g x y) → zip_with f a b = zip_with g a b.
Proof. intros Hfg. apply zip_with_ext; auto. Qed.

(** ** Kernels commute with slicing along the axis they do not mix *)

Section Slicing.
Context {F : Type} `{Num F}.
(** A slicing of lists that commutes with maps and zips, such as [chunk k r]. *)
Variable c : ∀ A : Type, list A → list A.
Hypothesis c_fmap : ∀ A B (f : A → B) l, c B (f <$> l) = f <$> c A l.
Hypothesis c_zip_with : ∀ A B C (f : A → B → C) a b,
  c C (zip_with f a b) = zip_with f (c A a) (c B b).

Lemma map3_slice1 {A B} (g : A → B) (M : list (list (list A))) :
  map3 g (map_at 1 (c _) M) = map_at 1 (c _) (map3 g M).
Proof.
  unfold map3. simpl. rewrite <- !list_fmap_compose.
  apply Forall_fmap_ext_1, Forall_forall. intros Mb _. simpl.
  by rewrite c_fmap.
Qed.

Lemma map3_slice2 {A B} (g : A → B) (M : list (list (list A))) :
  map3 g (map_at 2 (c _) M) = map_at 2 (c _) (map3 g M).
Proof.
  unfold map3. simpl. rewrite <- !list_fmap_compose.
  apply Forall_fmap_ext_1, Forall_forall. intros Mb _. simpl.
  rewrite <- !list_fmap_compose.
  apply Forall_fmap_ext_1, Forall_forall. intros row _. simpl.
  by rewrite c_fmap.
Qed.

Lemma add4_slice1 (M Y : T4 F) :
  add4 (map_at 1 (c _) M) (map_at 1 (c _) Y) = map_at 1 (c _) (add4 M Y).
Proof.
  unfold add4. simpl. rewrite zip_with_fmap_l, zip_with_fmap_r, fmap_zip_with_out.
  apply zip_with_ext_all. intros a b. by rewrite c_zip_with.
Qed.

Lemma add4_slice2 (M Y : T4 F) :
  add4 (map_at 2 (c _) M) (map_at 2 (c _) Y) = map_at 2 (c _) (add4 M Y).
Proof.
  unfold add4. simpl. rewrite zip_with_fmap_l, zip_with_fmap_r, fmap_zip_with_out.
  apply zip_with_ext_all. intros a b.
  rewrite zip_with_fmap_l, zip_with_fmap_r, fmap_zip_with_out.
  apply zip_with_ext_all. intros x y. by rewrite c_zip_with.
Qed.

Lemma attend_slice1 (sa : SelfAttention.t F) (X : T4 F) (mask : T3 F) bias :
  SelfAttention.attend sa (map_at 1 (c _) X) (map_at 1 (c _) mask) bias
  = map_at 1 (c _) (SelfAttention.attend sa X mask bias).
Proof.
  unfold SelfAttention.attend. simpl. destruct bias as [bias|].
  - revert mask bias.
    induction X as [|M_b X IH]; intros [|mask_b mask] [|bias_b bias];
      simpl; try done.
    by rewrite IH, c_zip_with.
  - rewrite zip_with_fmap_l, zip_with_fmap_r, fmap_zip_with_out.
    apply zip_with_ext_all. intros a b. by rewrite c_zip_with.
Qed.

Lemma global_attend_slice1 (ga : GlobalAttention.t F) (X : T4 F) (mask : T3 F) :
  GlobalAttention.forward ga (map_at 1 (c _) X) (map_at 1 (c _) mask)
  = map_at 1 (c _) (GlobalAttention.forward ga X mask).
Proof.
  unfold GlobalAttention.forward. simpl.
  rewrite zip_with_fmap_l, zip_with_fmap_r, fmap_zip_with_out.
  apply zip_with_ext_all. intros a b. by rewrite c_zip_with.
Qed.

Lemma row_block_slice1 (self : MSARowAttentionWithPairBias.t F) (M : T4 F) bias
    (mask : T3 F) :
  row_block self (map_at 1 (c _) M) bias (map_at 1 (c _) mask)
  = map_at 1 (c _) (row_block self M bias mask).
Proof.
  unfold row_block, LayerNorm.forward.
  by rewrite map3_slice1, attend_slice1, map3_slice1, add4_slice1.
Qed.

Lemma pair_bias_slice1 (self : MSARowAttentionWithPairBias.t F) (Z : T4 F) :
  pair_bias self (map_at 1 (c _) Z) = map_at 1 (c _) (pair_bias self Z).
Proof.
  unfold pair_bias, linear, LayerNorm.forward. by rewrite !map3_slice1.
Qed.

Lemma Transition_slice2 (self : Transition.t F) (M : T4 F) :
  Transition.forward self (map_at 2 (c _) M)
  = map_at 2 (c _) (Transition.forward self M).
Proof. unfold Transition.forward. apply map3_slice2. Qed.

End Slicing.


Section TransposeChunk.
Context {A : Type}.
Implicit Types (rows cols : list (list A)).

Lemma transpose_n_length m rows :
  Forall (fun r => length r = m) rows → length (transpose_n m rows) = m.
Proof.
  intros Hf. by destruct (transpose_n_matrix (length rows) m rows).
Qed.

Lemma transpose_n_take n m rows :
  transpose_n (n `min` m) (take n <$> rows) = take n (transpose_n m rows).
Proof.
  induction rows as [|r rows IH].
  - unfold transpose_n. simpl. by rewrite take_replicate.
  - rewrite fmap_cons, !transpose_n_cons, IH. by rewrite zip_with_take.
Qed.

Lemma transpose_n_drop n m rows :
  transpose_n (m - n) (drop n <$> rows) = drop n (transpose_n m rows).
Proof.
  induction rows as [|r rows IH].
  - unfold transpose_n. simpl. by rewrite drop_replicate.
  - rewrite fmap_cons, !transpose_n_cons, IH. by rewrite zip_with_drop.
Qed.

Lemma transpose_n_chunk k j w rows :
  j < w →
  transpose_n k (chunk k j <$> rows) = chunk k j (transpose_n (w * k) rows).
Proof.
  intros Hj. unfold chunk.
  rewrite <- transpose_n_drop, <- transpose_n_take.
  rewrite <- list_fmap_compose.
  replace (k `min` (w * k - j * k)) with k by nia. done.
Qed.

Lemma transpose_chunk_rows R k j w rows :
  matrix R (w * k) rows → j < w →
  transpose (chunk k j <$> rows) = chunk k j (transpose rows).
Proof.
  intros [HR Hf] Hj. destruct rows as [|r rows].
  { simpl. unfold chunk. by rewrite drop_nil, take_nil. }
  unfold transpose. rewrite fmap_cons.
  apply Forall_cons in Hf as [Hr Hf].
  rewrite (length_chunk k j w), Hr by done.
  rewrite <- fmap_cons. by apply transpose_n_chunk.
Qed.

Lemma zip_with_cons_take n (c : list A) (T : list (list A)) :
  take (S n) <$> zip_with cons c T = zip_with cons c (take n <$> T).
Proof. by rewrite fmap_zip_with_out, zip_with_fmap_r. Qed.

Lemma zip_with_cons_drop n (c : list A) (T : list (list A)) :
  length T ≤ length c →
  drop (S n) <$> zip_with cons c T = drop n <$> T.
Proof.
  rewrite fmap_zip_with_out. simpl.
  revert c. induction T as [|t T IH]; intros [|x c] Hl; simpl in *; [done|done|lia|].
  rewrite IH by lia. done.
Qed.

Lemma zip_with_const_nil (c : list A) (T : list (list A)) :
  length T = length c →
  zip_with (fun x t => take 0 (x :: t)) c T = replicate (length c) [].
Proof.
  revert T. induction c as [|x c IH]; intros [|t T] Hl; simplify_eq/=; [done|].
  f_equal. by apply IH.
Qed.

Lemma transpose_n_take_cols R n cols :
  Forall (fun c => length c = R) cols →
  transpose_n R (take n cols) = take n <$> transpose_n R cols.
Proof.
  revert n. induction cols as [|c cols IH]; intros n Hf.
  - rewrite take_nil. unfold transpose_n. simpl.
    rewrite fmap_replicate. by destruct n.
  - apply Forall_cons in Hf as [Hc Hf]. destruct n as [|n].
    + rewrite take_0, transpose_n_cons, fmap_zip_with_out.
      rewrite zip_with_const_nil by (by rewrite transpose_n_length).
      by rewrite Hc.
    + simpl take. rewrite !transpose_n_cons, IH by done.
      by rewrite zip_with_cons_take.
Qed.

Lemma transpose_n_drop_cols R n cols :
  Forall (fun c => length c = R) cols →
  transpose_n R (drop n cols) = drop n <$> transpose_n R cols.
Proof.
  revert n. induction cols as [|c cols IH]; intros n Hf.
  - rewrite drop_nil. unfold transpose_n. simpl.
    rewrite fmap_replicate. by destruct n.
  - apply Forall_cons in Hf as [Hc Hf]. destruct n as [|n].
    + simpl drop. rewrite <- (list_fmap_id (transpose_n R (c :: cols))) at 1.
      apply Forall_fmap_ext_1, Forall_forall. intros x _. done.
    + simpl drop. rewrite transpose_n_cons, IH by done.
      rewrite zip_with_cons_drop; [done|].
      rewrite (transpose_n_length R cols Hf). lia.
Qed.

Lemma transpose_n_chunk_cols R k j cols :
  Forall (fun c => length c = R) cols →
  transpose_n R (chunk k j cols) = chunk k j <$> transpose_n R cols.
Proof.
  intros Hf. unfold chunk.
  rewrite transpose_n_take_cols by (by apply Forall_drop).
  rewrite transpose_n_drop_cols by done.
  by rewrite <- list_fmap_compose.
Qed.

Lemma transpose_chunk_cols R k j w cols :
  matrix (w * k) R cols → j < w →
  transpose (chunk k j cols) = chunk k j <$> transpose cols.
Proof.
  intros [HC Hf] Hj.
  destruct (decide (k = 0)) as [->|Hk].
  { destruct cols; [done|]. simpl in HC. lia. }
  assert (length (chunk k j cols) = k) as Hlen by by apply (length_chunk k j w).
  assert (Forall (fun c => length c = R) (chunk k j cols)) as Hf'
    by (unfold chunk; by apply Forall_take, Forall_drop).
  rewrite (transpose_matrix k R (chunk k j cols)) by (done || lia).
  rewrite (transpose_matrix (w * k) R cols) by (done || nia).
  by apply transpose_n_chunk_cols.
Qed.

End TransposeChunk.


Section Shapes.
Context {A : Type}.
Implicit Types (t : list (list (list A))).

Lemma matrix_fmap {B'} (g : A → B') n m (rows : list (list A)) :
  matrix n m rows → matrix n m (fmap (M:=list) g <$> rows).
Proof.
  intros [Hn Hf]. split; [by rewrite length_fmap|].
  apply Forall_fmap. eapply Forall_impl; [exact Hf|].
  intros r Hr. simpl. by rewrite length_fmap.
Qed.

Lemma matrix_chunk_rows w k m r (rows : list (list A)) :
  matrix (w * k) m rows → r < w → matrix k m (chunk k r rows).
Proof.
  intros [Hn Hf] Hr. split; [by apply (length_chunk k r w)|].
  unfold chunk. by apply Forall_take, Forall_drop.
Qed.

Lemma matrix_chunk_cols n w k r (rows : list (list A)) :
  matrix n (w * k) rows → r < w → matrix n k (chunk k r <$> rows).
Proof.
  intros [Hn Hf] Hr. split; [by rewrite length_fmap|].
  apply Forall_fmap. eapply Forall_impl; [exact Hf|].
  intros row Hrow. simpl. by apply (length_chunk k r w).
Qed.

Lemma matrix_transpose n m (rows : list (list A)) :
  matrix n m rows → 0 < n → matrix m n (transpose rows).
Proof.
  intros Hm Hn. rewrite (transpose_matrix n m) by done.
  by apply transpose_n_matrix.
Qed.

Lemma shape3_impl {A'} B R C R' C' (f : list (list A) → list (list A')) t :
  (∀ rows, matrix R C rows → matrix R' C' (f rows)) →
  shape3 B R C t → shape3 B R' C' (f <$> t).
Proof.
  intros Hf [HB Ht]. split; [by rewrite length_fmap|].
  apply Forall_fmap. eapply Forall_impl; [exact Ht|]. done.
Qed.

Lemma shape3_rect_1 B R C t : shape3 B R C t → rect_at 1 R t.
Proof.
  intros [_ Ht]. unfold rect_at. simpl.
  eapply Forall_impl; [exact Ht|]. by intros rows [? _].
Qed.

Lemma shape3_rect_2 B R C t : shape3 B R C t → rect_at 2 C t.
Proof.
  intros [_ Ht]. unfold rect_at. simpl.
  eapply Forall_impl; [exact Ht|]. by intros rows [_ ?].
Qed.

Lemma shape3_size_1 B R C t : shape3 B R C t → 0 < B → size_along 1 t = R.
Proof.
  intros [HB Ht] Hpos. destruct t as [|rows t]; [simpl in HB; lia|].
  apply Forall_cons in Ht as [[? _] _]. done.
Qed.

Lemma shape3_size_2 B R C t :
  shape3 B R C t → 0 < B → 0 < R → size_along 2 t = C.
Proof.
  intros [HB Ht] HposB HposR. destruct t as [|rows t]; [simpl in HB; lia|].
  apply Forall_cons in Ht as [[HR Hrows] _].
  destruct rows as [|row rows]; [simpl in HR; lia|].
  apply Forall_cons in Hrows as [? _]. done.
Qed.

(** A tensor without rows has nothing along the column axis. *)
Lemma map_at_2_no_rows B C (f g : list A → list A) t :
  shape3 B 0 C t → map_at 2 f t = map_at 2 g t.
Proof.
  intros [_ Ht]. simpl. apply Forall_fmap_ext_1.
  eapply Forall_impl; [exact Ht|]. intros rows [Hl _].
  by destruct rows.
Qed.

Lemma shape3_size_2_degenerate B R C t :
  shape3 B R C t → B = 0 ∨ R = 0 → size_along 2 t = 0.
Proof.
  intros [HB Ht] Hz. destruct t as [|rows t]; [done|].
  destruct Hz as [->| ->]; [done|].
  apply Forall_cons in Ht as [[HR _] _]. by destruct rows.
Qed.

Lemma scatter_shape_1 B R C w r t :
  shape3 B R C t → 0 < w → R `mod` w = 0 →
  scatter (mkComm w r) 1 t = Ok (map_at 1 (chunk (R `div` w) r) t).
Proof.
  intros Ht Hw Hdiv. destruct (decide (B = 0)) as [->|HB].
  - destruct Ht as [->%nil_length_inv _].
    rewrite scatter_Ok; simpl; [done|lia|]. by apply Nat.Div0.mod_0_l.
  - rewrite scatter_Ok; simpl world_size; rewrite ?(shape3_size_1 B R C) by (done || lia);
      done || lia.
Qed.

Lemma scatter_shape_2 B R C w r t :
  shape3 B R C t → 0 < w → C `mod` w = 0 →
  scatter (mkComm w r) 2 t = Ok (map_at 2 (chunk (C `div` w) r) t).
Proof.
  intros Ht Hw Hdiv.
  destruct (decide (B = 0 ∨ R = 0)) as [Hz|Hnz].
  - rewrite scatter_Ok; simpl world_size;
      rewrite ?(shape3_size_2_degenerate B R C) by done;
      [|lia|by apply Nat.Div0.mod_0_l].
    f_equal. destruct Hz as [->| ->].
    + by destruct Ht as [->%nil_length_inv _].
    + by apply (map_at_2_no_rows B C).
  - rewrite scatter_Ok; simpl world_size;
      rewrite ?(shape3_size_2 B R C) by (done || lia); done || lia.
Qed.

End Shapes.


Lemma sum_list_fmap_add {X} (f h : X → nat) (xs : list X) :
  sum_list ((fun x => f x + h x) <$> xs) = sum_list (f <$> xs) + sum_list (h <$> xs).
Proof. induction xs as [|x xs IH]; csimpl; [done|]. rewrite IH. lia. Qed.

Lemma sum_list_fmap_zero {X} (xs : list X) :
  sum_list ((fun _ => 0) <$> xs) = 0.
Proof. induction xs as [|x xs IH]; csimpl; [done|]. by rewrite IH. Qed.

Lemma sum_list_fmap_swap {I X} (g : I → X → nat) (js : list I) (xs : list X) :
  sum_list ((fun j => sum_list (g j <$> xs)) <$> js)
  = sum_list ((fun x => sum_list ((fun j => g j x) <$> js)) <$> xs).
Proof.
  induction js as [|j js IH]; csimpl.
  - by rewrite sum_list_fmap_zero.
  - by rewrite IH, <- sum_list_fmap_add.
Qed.

Lemma sum_list_fmap_ext_Forall {X} (f h : X → nat) (P : X → Prop) (xs : list X) :
  Forall P xs → (∀ x, P x → f x = h x) → sum_list (f <$> xs) = sum_list (h <$> xs).
Proof.
  intros HP Hfh. f_equal. apply Forall_fmap_ext_1.
  eapply Forall_impl; [exact HP|]. done.
Qed.

Lemma sum_list_chunks_take {X} (h : X → nat) k w (l : list X) :
  sum_list ((fun r => sum_list (h <$> chunk k r l)) <$> seq 0 w)
  = sum_list (h <$> take (w * k) l).
Proof.
  induction w as [|w IH].
  - by rewrite take_0.
  - rewrite seq_S, fmap_app, sum_list_with_app, IH.
    rewrite <- chunk_app_next, fmap_app, sum_list_with_app. csimpl. lia.
Qed.

Lemma sum_list_chunks {X} (h : X → nat) k w (l : list X) :
  length l = w * k →
  sum_list ((fun r => sum_list (h <$> chunk k r l)) <$> seq 0 w) = sum_list (h <$> l).
Proof. intros Hl. rewrite sum_list_chunks_take, take_ge by lia. done. Qed.

Lemma map_at_1_2_comm {A} (f g : ∀ X, list X → list X) (t : nest 3 A) :
  (∀ X Y (h : X → Y) l, f Y (h <$> l) = h <$> f X l) →
  map_at 2 (g _) (map_at 1 (f _) t) = map_at 1 (f _) (map_at 2 (g _) t).
Proof.
  intros Hf. simpl. rewrite <- !list_fmap_compose.
  apply Forall_fmap_ext_1, Forall_forall. intros rows _. simpl.
  by rewrite Hf.
Qed.

Section RowToCol.
Context {A : Type}.
Implicit Types (X : nest 3 A).

Lemma shape3_row_shard B w kR C r X :
  shape3 B (w * kR) C X → r < w → shape3 B kR C (map_at 1 (chunk kR r) X).
Proof.
  intros HX Hr. simpl. apply (shape3_impl B (w * kR) C); [|done].
  intros rows Hm. by apply (matrix_chunk_rows w).
Qed.

Lemma shape3_col_shard B R w kC j X :
  shape3 B R (w * kC) X → j < w → shape3 B R kC (map_at 2 (chunk kC j) X).
Proof.
  intros HX Hj. simpl. apply (shape3_impl B R (w * kC)); [|done].
  intros rows Hm. by apply (matrix_chunk_cols _ w).
Qed.

Lemma div_mul_l w k : 0 < w → (w * k) `div` w = k.
Proof. intros. rewrite Nat.mul_comm. apply Nat.div_mul. lia. Qed.

Lemma mod_mul_l w k : (w * k) `mod` w = 0.
Proof. rewrite Nat.mul_comm. apply Nat.Div0.mod_mul. Qed.

Lemma row_to_col_all_shards B w kR kC X :
  0 < w → shape3 B (w * kR) (w * kC) X →
  row_to_col_all (row_shards w kR X) = Ok (col_shards w kC X).
Proof.
  intros Hw HX. unfold row_to_col_all, row_shards, col_shards.
  rewrite length_fmap, length_seq.
  apply mapM_res_fmap. intros j Hj%elem_of_seq.
  rewrite mapM_res_compose.
  rewrite (mapM_res_fmap _
    (fun r => map_at 1 (chunk kR r) (map_at 2 (chunk kC j) X))).
  2:{ intros r Hr'%elem_of_seq.
      rewrite (scatter_shape_2 B kR (w * kC)); [|apply (shape3_row_shard B w); (done || lia)|done|apply mod_mul_l].
      rewrite div_mul_l by done. f_equal.
      apply (map_at_1_2_comm (fun T : Type => @chunk T kR r) (fun T : Type => @chunk T kC j)).
      intros. apply chunk_fmap. }
  cbn [mbind res_bind]. unfold mret, res_ret. f_equal.
  apply (cat_at_chunks 1 kR w (map_at 2 (chunk kC j) X)); [done|].
  apply (shape3_rect_1 B _ kC).
  apply (shape3_col_shard B _ w); [done|lia].
Qed.

Lemma col_to_row_all_shards B w kR kC X :
  0 < w → shape3 B (w * kR) (w * kC) X →
  col_to_row_all (col_shards w kC X) = Ok (row_shards w kR X).
Proof.
  intros Hw HX. unfold col_to_row_all, row_shards, col_shards.
  rewrite length_fmap, length_seq.
  apply mapM_res_fmap. intros r Hr%elem_of_seq.
  rewrite mapM_res_compose.
  rewrite (mapM_res_fmap _
    (fun j => map_at 2 (chunk kC j) (map_at 1 (chunk kR r) X))).
  2:{ intros j Hj'%elem_of_seq.
      rewrite (scatter_shape_1 B (w * kR) kC); [|apply (shape3_col_shard B _ w); (done || lia)|done|apply mod_mul_l].
      rewrite div_mul_l by done. f_equal. symmetry.
      apply (map_at_1_2_comm (fun T : Type => @chunk T kR r) (fun T : Type => @chunk T kC j)).
      intros. apply chunk_fmap. }
  cbn [mbind res_bind]. unfold mret, res_ret. f_equal.
  apply (cat_at_chunks 2 kC w (map_at 1 (chunk kR r) X)); [done|].
  apply (shape3_rect_2 B kR).
  apply (shape3_row_shard B w); [done|lia].
Qed.

Lemma numel_col_shards (cell : A → nat) B R w kC X :
  shape3 B R (w * kC) X →
  sum_list (numel cell 3 <$> col_shards w kC X) = numel cell 3 X.
Proof.
  intros [_ HX]. unfold col_shards. rewrite <- list_fmap_compose.
  simpl. unfold compose.
  erewrite list_fmap_ext.
  2:{ intros i j _. rewrite <- !list_fmap_compose. unfold compose. simpl.
      reflexivity. }
  rewrite (sum_list_fmap_swap
    (fun j rows => sum_list ((fun x => sum_list (cell <$> x)) <$> (chunk kC j <$> rows)))).
  apply (sum_list_fmap_ext_Forall _ _ _ _ HX). intros rows [_ Hrows].
  erewrite list_fmap_ext.
  2:{ intros i j _. rewrite <- list_fmap_compose. unfold compose. reflexivity. }
  rewrite (sum_list_fmap_swap (fun j row => sum_list (cell <$> chunk kC j row))).
  apply (sum_list_fmap_ext_Forall _ _ _ _ Hrows). intros row Hrow.
  by apply sum_list_chunks.
Qed.

Lemma numel_row_shards (cell : A → nat) B w kR C X :
  shape3 B (w * kR) C X →
  sum_list (numel cell 3 <$> row_shards w kR X) = numel cell 3 X.
Proof.
  intros [_ HX]. unfold row_shards. rewrite <- list_fmap_compose.
  simpl. unfold compose.
  erewrite list_fmap_ext.
  2:{ intros i j _. rewrite <- !list_fmap_compose. unfold compose. simpl.
      reflexivity. }
  rewrite (sum_list_fmap_swap
    (fun r rows => sum_list ((fun x => sum_list (cell <$> x)) <$> chunk kR r rows))).
  apply (sum_list_fmap_ext_Forall _ _ _ _ HX). intros rows [Hl _].
  by apply (sum_list_chunks (fun x => sum_list (cell <$> x))).
Qed.

Lemma chunk_lookup {T : Type} k j (l : list T) c :
  c < k → chunk k j l !! c = l !! (j * k + c).
Proof.
  intros Hc. unfold chunk. by rewrite lookup_take_lt, lookup_drop.
Qed.

Lemma col_shard_lookup kC j (X : list (list (list A))) b i c :
  c < kC →
  at3 (map_at 2 (chunk kC j) X) b i c = at3 X b i (j * kC + c).
Proof.
  intros Hc. unfold at3.
  change (map_at 2 (chunk kC j) X)
    with (fmap (M:=list) (fmap (M:=list) (chunk kC j)) X).
  rewrite list_lookup_fmap.
  destruct (X !! b) as [rows|]; [|done]. cbn [fmap option_fmap option_map].
  rewrite list_lookup_fmap.
  destruct (rows !! i) as [row|]; [|done]. cbn [fmap option_fmap option_map].
  by apply chunk_lookup.
Qed.

End RowToCol.


Lemma Forall_zip_with_both {A B C} (P : A → Prop) (Q : B → Prop) (S : C → Prop)
    (f : A → B → C) (a : list A) (b : list B) :
  Forall P a → Forall Q b → (∀ x y, P x → Q y → S (f x y)) →
  Forall S (zip_with f a b).
Proof.
  intros Ha. revert b. induction Ha as [|x a Hx Ha IH]; intros b Hb Hf; [constructor|].
  destruct Hb as [|y b Hy Hb]; simpl; [constructor|].
  constructor; [by apply Hf|by apply IH].
Qed.

Lemma shape3_zip_with {A B C} (f : list (list A) → list (list B) → list (list C))
    Bn R Cn (X : list (list (list A))) (Y : list (list (list B))) :
  shape3 Bn R Cn X → shape3 Bn R Cn Y →
  (∀ a b, matrix R Cn a → matrix R Cn b → matrix R Cn (f a b)) →
  shape3 Bn R Cn (zip_with f X Y).
Proof.
  intros [HX HXf] [HY HYf] Hf. split; [rewrite length_zip_with; lia|].
  apply (Forall_zip_with_both (matrix R Cn) (matrix R Cn)); done.
Qed.

Lemma matrix_zip_with {A B C} (f : list A → list B → list C) R Cn
    (a : list (list A)) (b : list (list B)) :
  matrix R Cn a → matrix R Cn b →
  (∀ x y, length x = Cn → length y = Cn → length (f x y) = Cn) →
  matrix R Cn (zip_with f a b).
Proof.
  intros [Ha Haf] [Hb Hbf] Hf. split; [rewrite length_zip_with; lia|].
  apply (Forall_zip_with_both (fun r => length r = Cn) (fun r => length r = Cn));
    done.
Qed.

Section BlockShapes.
Context {F : Type} `{Num F}.

Lemma shape3_map3 {A B} (g : A → B) Bn R C (t : list (list (list A))) :
  shape3 Bn R C t → shape3 Bn R C (map3 g t).
Proof.
  intros Ht. unfold map3. apply (shape3_impl Bn R C); [|done].
  intros rows. apply matrix_fmap.
Qed.

Lemma shape3_add4 Bn R C (M Y : T4 F) :
  shape3 Bn R C M → shape3 Bn R C Y → shape3 Bn R C (add4 M Y).
Proof.
  intros HM HY. unfold add4. apply shape3_zip_with; [done..|].
  intros a b Ha Hb. apply matrix_zip_with; [done..|].
  intros x y Hx Hy. rewrite length_zip_with. lia.
Qed.

Lemma shape3_attend_None (sa : SelfAttention.t F) Bn R C (X : T4 F) (mask : T3 F) :
  keeps_length (SelfAttention.core sa) →
  shape3 Bn R C X → shape3 Bn R C mask →
  shape3 Bn R C (SelfAttention.attend sa X mask None).
Proof.
  intros Hsa HX Hm. unfold SelfAttention.attend.
  apply shape3_zip_with; [done..|].
  intros a b [Ha Haf] [Hb Hbf]. split; [rewrite length_zip_with; lia|].
  apply (Forall_zip_with_both (fun _ => True) (fun r => length r = C));
    [by apply Forall_true|done|].
  intros m x _ Hx. by rewrite Hsa.
Qed.

Lemma shape3_attend_Some (sa : SelfAttention.t F) Bn R C (X : T4 F) (mask : T3 F)
    (bias : T4 F) :
  keeps_length (SelfAttention.core sa) →
  shape3 Bn R C X → shape3 Bn R C mask → length bias = Bn →
  shape3 Bn R C (SelfAttention.attend sa X mask (Some bias)).
Proof.
  intros Hsa [HX HXf] [Hm Hmf] Hb. unfold SelfAttention.attend.
  split; [rewrite length_zip_with, length_zip; lia|].
  apply (Forall_zip_with_both
    (fun Mm : list (list (list F)) * list (list F) => matrix R C Mm.1 ∧ matrix R C Mm.2)
    (fun _ => True)); [|by apply Forall_true|].
  - apply (Forall_zip_with_both (matrix R C) (matrix R C)); done.
  - intros [a b] bias_b [[Ha Haf] [Hb' Hbf]] _. simpl in *.
    split; [rewrite length_zip_with; lia|].
    apply (Forall_zip_with_both (fun _ => True) (fun r => length r = C));
      [by apply Forall_true|done|].
    intros m x _ Hx. by rewrite Hsa.
Qed.

Lemma shape3_global (ga : GlobalAttention.t F) Bn R C (X : T4 F) (mask : T3 F) :
  (∀ m x, length (GlobalAttention.core ga m x) = length x) →
  shape3 Bn R C X → shape3 Bn R C mask →
  shape3 Bn R C (GlobalAttention.forward ga X mask).
Proof.
  intros Hga HX Hm. unfold GlobalAttention.forward.
  apply shape3_zip_with; [done..|].
  intros a b [Ha Haf] [Hb Hbf]. split; [rewrite length_zip_with; lia|].
  apply (Forall_zip_with_both (fun _ => True) (fun r => length r = C));
    [by apply Forall_true|done|].
  intros m x _ Hx. by rewrite Hga.
Qed.

Lemma shape3_transpose {A} Bn R C (t : list (list (list A))) :
  shape3 Bn R C t → 0 < R → shape3 Bn C R (transpose_1_2 t).
Proof.
  intros Ht HR. unfold transpose_1_2. apply (shape3_impl Bn R C); [|done].
  intros rows Hrows. by apply matrix_transpose.
Qed.

End BlockShapes.


Section ColumnSlices.
Context {F : Type} `{Num F}.

Lemma transpose_col_shard {A} B R w k j (N : list (list (list A))) :
  shape3 B R (w * k) N → j < w →
  transpose_1_2 (map_at 2 (chunk k j) N) = map_at 1 (chunk k j) (transpose_1_2 N).
Proof.
  intros [_ HN] Hj. unfold transpose_1_2. simpl.
  rewrite <- !list_fmap_compose. apply Forall_fmap_ext_1.
  eapply Forall_impl; [exact HN|]. intros rows Hrows. simpl.
  by apply (transpose_chunk_rows R k j w).
Qed.

Lemma transpose_row_shard {A} B R w k j (Y : list (list (list A))) :
  shape3 B (w * k) R Y → j < w →
  transpose_1_2 (map_at 1 (chunk k j) Y) = map_at 2 (chunk k j) (transpose_1_2 Y).
Proof.
  intros [_ HY] Hj. unfold transpose_1_2. simpl.
  rewrite <- !list_fmap_compose. apply Forall_fmap_ext_1.
  eapply Forall_impl; [exact HY|]. intros cols Hcols. simpl.
  by apply (transpose_chunk_cols R k j w).
Qed.

Lemma map3_chunk_1 {A B} (g : A → B) k j (M : list (list (list A))) :
  map3 g (map_at 1 (chunk k j) M) = map_at 1 (chunk k j) (map3 g M).
Proof.
  exact (map3_slice1 (fun T => @chunk T k j)
           (fun _ _ f l => chunk_fmap f k j l) g M).
Qed.

Lemma add4_chunk_2 k j (M Y : T4 F) :
  add4 (map_at 2 (chunk k j) M) (map_at 2 (chunk k j) Y)
  = map_at 2 (chunk k j) (add4 M Y).
Proof.
  exact (add4_slice2 (fun T => @chunk T k j)
           (fun _ _ _ f a b => chunk_zip_with f k j a b) M Y).
Qed.

Lemma attend_chunk_1 (sa : SelfAttention.t F) k j (X : T4 F) (mask : T3 F) bias :
  SelfAttention.attend sa (map_at 1 (chunk k j) X) (map_at 1 (chunk k j) mask) bias
  = map_at 1 (chunk k j) (SelfAttention.attend sa X mask bias).
Proof.
  exact (attend_slice1 (fun T => @chunk T k j)
           (fun _ _ _ f a b => chunk_zip_with f k j a b) sa X mask bias).
Qed.

Lemma global_chunk_1 (ga : GlobalAttention.t F) k j (X : T4 F) (mask : T3 F) :
  GlobalAttention.forward ga (map_at 1 (chunk k j) X) (map_at 1 (chunk k j) mask)
  = map_at 1 (chunk k j) (GlobalAttention.forward ga X mask).
Proof.
  exact (global_attend_slice1 (fun T => @chunk T k j)
           (fun _ _ _ f a b => chunk_zip_with f k j a b) ga X mask).
Qed.

Lemma row_block_chunk_1 (self : MSARowAttentionWithPairBias.t F) k j (M : T4 F) bias
    (mask : T3 F) :
  row_block self (map_at 1 (chunk k j) M) bias (map_at 1 (chunk k j) mask)
  = map_at 1 (chunk k j) (row_block self M bias mask).
Proof.
  exact (row_block_slice1 (fun T => @chunk T k j)
           (fun _ _ f l => chunk_fmap f k j l)
           (fun _ _ _ f a b => chunk_zip_with f k j a b) self M bias mask).
Qed.

Lemma pair_bias_chunk_1 (self : MSARowAttentionWithPairBias.t F) k j (Z : T4 F) :
  pair_bias self (map_at 1 (chunk k j) Z) = map_at 1 (chunk k j) (pair_bias self Z).
Proof.
  exact (pair_bias_slice1 (fun T => @chunk T k j)
           (fun _ _ f l => chunk_fmap f k j l) self Z).
Qed.

Lemma Transition_chunk_2 (self : Transition.t F) k j (M : T4 F) :
  Transition.forward self (map_at 2 (chunk k j) M)
  = map_at 2 (chunk k j) (Transition.forward self M).
Proof.
  exact (Transition_slice2 (fun T => @chunk T k j)
           (fun _ _ f l => chunk_fmap f k j l) self M).
Qed.

Lemma col_block_slice (self : MSAColumnAttention.t F) B R w k j (N : T4 F) (mask : T3 F) :
  keeps_length (SelfAttention.core (MSAColumnAttention.attention self)) →
  0 < R → shape3 B R (w * k) N → shape3 B R (w * k) mask → j < w →
  col_block self (map_at 2 (chunk k j) N) (map_at 2 (chunk k j) mask)
  = map_at 2 (chunk k j) (col_block self N mask).
Proof.
  intros Hsa HR HN Hm Hj. unfold col_block, LayerNorm.forward.
  rewrite (transpose_col_shard B R w), (transpose_col_shard B R w) by done.
  rewrite map3_chunk_1, attend_chunk_1.
  rewrite (transpose_row_shard B R w).
  - apply add4_chunk_2.
  - apply shape3_attend_None; [done| |by apply shape3_transpose].
    by apply shape3_map3, shape3_transpose.
  - done.
Qed.

Lemma col_global_block_slice (self : MSAColumnGlobalAttention.t F) B R w k j
    (N : T4 F) (mask : T3 F) :
  (∀ m x, length (GlobalAttention.core (MSAColumnGlobalAttention.global_attention self) m x)
          = length x) →
  0 < R → shape3 B R (w * k) N → shape3 B R (w * k) mask → j < w →
  col_global_block self (map_at 2 (chunk k j) N) (map_at 2 (chunk k j) mask)
  = map_at 2 (chunk k j) (col_global_block self N mask).
Proof.
  intros Hga HR HN Hm Hj. unfold col_global_block, LayerNorm.forward.
  rewrite (transpose_col_shard B R w), (transpose_col_shard B R w) by done.
  rewrite map3_chunk_1, global_chunk_1.
  rewrite (transpose_row_shard B R w).
  - apply add4_chunk_2.
  - apply shape3_global; [done| |by apply shape3_transpose].
    by apply shape3_map3, shape3_transpose.
  - done.
Qed.

Lemma col_block_shape (self : MSAColumnAttention.t F) B R C (N : T4 F) (mask : T3 F) :
  keeps_length (SelfAttention.core (MSAColumnAttention.attention self)) →
  0 < R → 0 < C → shape3 B R C N → shape3 B R C mask →
  shape3 B R C (col_block self N mask).
Proof.
  intros Hsa HR HC HN Hm. unfold col_block, LayerNorm.forward.
  apply shape3_add4; [done|]. apply shape3_transpose; [|done].
  apply shape3_attend_None; [done| |by apply shape3_transpose].
  by apply shape3_map3, shape3_transpose.
Qed.

Lemma col_global_block_shape (self : MSAColumnGlobalAttention.t F) B R C
    (N : T4 F) (mask : T3 F) :
  (∀ m x, length (GlobalAttention.core (MSAColumnGlobalAttention.global_attention self) m x)
          = length x) →
  0 < R → 0 < C → shape3 B R C N → shape3 B R C mask →
  shape3 B R C (col_global_block self N mask).
Proof.
  intros Hga HR HC HN Hm. unfold col_global_block, LayerNorm.forward.
  apply shape3_add4; [done|]. apply shape3_transpose; [|done].
  apply shape3_global; [done| |by apply shape3_transpose].
  by apply shape3_map3, shape3_transpose.
Qed.

Lemma row_block_shape (self : MSARowAttentionWithPairBias.t F) B R C
    (M bias : T4 F) (mask : T3 F) :
  keeps_length (SelfAttention.core (MSARowAttentionWithPairBias.attention self)) →
  shape3 B R C M → shape3 B R C mask → length bias = B →
  shape3 B R C (row_block self M bias mask).
Proof.
  intros Hsa HM Hm Hb. unfold row_block, LayerNorm.forward.
  apply shape3_add4; [done|]. apply shape3_map3.
  apply shape3_attend_Some; [done| |done..]. by apply shape3_map3.
Qed.

End ColumnSlices.


Section Sharded.
Context {F G : Type} `{Num F}.

Lemma matrix_map3 {A B'} (g : A → B') n m (t : list (list (list A))) :
  matrix n m t → matrix n m (map3 g t).
Proof.
  intros [Hn Hf]. unfold map3. split; [by rewrite length_fmap|].
  apply Forall_fmap. eapply Forall_impl; [exact Hf|].
  intros r Hr. simpl. by rewrite length_fmap.
Qed.

Lemma pair_bias_matrix (row : MSARowAttentionWithPairBias.t F) n m (Z : T4 F) :
  matrix n m Z → matrix n m (pair_bias row Z).
Proof. intros HZ. unfold pair_bias, linear, LayerNorm.forward. by do 2 apply matrix_map3. Qed.

Lemma gathered_bias (row : MSARowAttentionWithPairBias.t F) B w kL (pair : T4 F) :
  0 < w → matrix B (w * kL) pair →
  cat_at 1 ((fun r => pair_bias row (map_at 1 (chunk kL r) pair)) <$> seq 0 w)
  = pair_bias row pair.
Proof.
  intros Hw Hp.
  erewrite list_fmap_ext; [|intros i r _; apply pair_bias_chunk_1].
  apply (cat_at_chunks 1 kL w (pair_bias row pair)); [done|].
  destruct (pair_bias_matrix row _ _ _ Hp) as [_ Hf]. exact Hf.
Qed.

Lemma stack_stages_sharded (w kR kC kL B : nat)
    (row : MSARowAttentionWithPairBias.t F) (col : T4 F → T3 F → T4 F)
    (trans : Transition.t F) (node pair : T4 F) (node_mask : T3 F)
    (σ : world F G) :
  0 < w → 0 < B → 0 < kR →
  keeps_length (SelfAttention.core (MSARowAttentionWithPairBias.attention row)) →
  (∀ N m j, shape3 B (w * kR) (w * kC) N → shape3 B (w * kR) (w * kC) m → j < w →
     col (map_at 2 (chunk kC j) N) (map_at 2 (chunk kC j) m)
     = map_at 2 (chunk kC j) (col N m)) →
  shape3 B (w * kR) (w * kC) node →
  shape3 B (w * kR) (w * kC) node_mask →
  matrix B (w * kL) pair →
  stack_stages w row col trans
    (fun r => map_at 1 (chunk kR r) node) (fun r => map_at 1 (chunk kL r) pair)
    node_mask σ
  = Ok (col_shards w kC (stack_fn row col trans node pair node_mask), σ,
        [EvGatherAsync 1 (fresh (dom (inflight σ)));
         EvWait (fresh (dom (inflight σ))); EvRowToCol]).
Proof.
  intros Hw HB HkR Hsa Hcol Hnode Hmask Hpair. unfold stack_stages.
  rewrite (shape3_size_1 B (w * kR) (w * kC)) by done.
  rewrite (divide_Ok (w * kR) w) by (lia || apply mod_mul_l).
  rewrite div_mul_l by done. cbn [mbind res_bind].
  rewrite (gathered_bias row B) by done.
  erewrite (list_fmap_ext _ _ (seq 0 w));
    [|intros i r _; apply row_block_chunk_1].
  assert (shape3 B (w * kR) (w * kC)
            (row_block row node (pair_bias row pair) node_mask)) as HN1.
  { apply row_block_shape; [done..|].
    destruct (pair_bias_matrix row _ _ _ Hpair) as [Hl _]. exact Hl. }
  match goal with
  | |- context [@row_to_col_all ?A ?X] =>
      change (@row_to_col_all A X)
        with (@row_to_col_all (list F)
                (row_shards w kR (row_block row node (pair_bias row pair) node_mask)))
  end.
  rewrite (row_to_col_all_shards B w kR kC) by done. cbn [mbind res_bind].
  rewrite (shape3_size_2 B (w * kR) (w * kC)) by (done || nia).
  rewrite (divide_Ok (w * kC) w) by (lia || apply mod_mul_l).
  rewrite div_mul_l by done. cbn [mbind res_bind].
  do 3 f_equal. unfold col_shards, stack_fn.
  apply Forall_fmap_ext_1, Forall_forall. intros r Hr%elem_of_seq.
  rewrite (list_lookup_total_correct _ r
             (map_at 2 (chunk kC r) (row_block row node (pair_bias row pair) node_mask))).
  2:{ rewrite list_lookup_fmap, lookup_seq_lt by lia. done. }
  rewrite Hcol by (done || lia). apply Transition_chunk_2.
Qed.

End Sharded.


Lemma chunk_whole {A} k (l : list A) : length l = k → chunk k 0 l = l.
Proof. intros <-. unfold chunk. simpl. by rewrite drop_0, firstn_all. Qed.

Lemma row_shard_single {A} B R C (X : list (list (list A))) :
  shape3 B R C X → map_at 1 (chunk R 0) X = X.
Proof.
  intros [_ HX]. simpl. rewrite <- (list_fmap_id X) at 2.
  apply Forall_fmap_ext_1. eapply Forall_impl; [exact HX|].
  intros rows [Hl _]. by apply chunk_whole.
Qed.

Lemma col_shard_single {A} B R C (X : list (list (list A))) :
  shape3 B R C X → map_at 2 (chunk C 0) X = X.
Proof.
  intros [_ HX]. simpl. rewrite <- (list_fmap_id X) at 2.
  apply Forall_fmap_ext_1. eapply Forall_impl; [exact HX|].
  intros rows [_ Hrows]. simpl. rewrite <- (list_fmap_id rows) at 2.
  apply Forall_fmap_ext_1. eapply Forall_impl; [exact Hrows|].
  intros row Hrow. by apply chunk_whole.
Qed.

Lemma matrix_chunk_whole {A} n m (rows : list (list A)) :
  matrix n m rows → chunk n 0 rows = rows.
Proof. intros [Hl _]. by apply chunk_whole. Qed.

Section StackClaims.
Context {F G : Type} `{Num F}.
Implicit Types (B : backend F G) (σ : world F G).

Lemma stack_fn_shape (row : MSARowAttentionWithPairBias.t F)
    (col : T4 F → T3 F → T4 F) (trans : Transition.t F) Bn R C
    (node pair : T4 F) (node_mask : T3 F) :
  keeps_length (SelfAttention.core (MSARowAttentionWithPairBias.attention row)) →
  (∀ N m, shape3 Bn R C N → shape3 Bn R C m → shape3 Bn R C (col N m)) →
  shape3 Bn R C node → shape3 Bn R C node_mask → length pair = Bn →
  shape3 Bn R C (stack_fn row col trans node pair node_mask).
Proof.
  intros Hrow Hcol Hnode Hmask Hpair. unfold stack_fn, Transition.forward.
  apply shape3_map3, Hcol; [|done].
  apply row_block_shape; [done..|].
  unfold pair_bias, linear, LayerNorm.forward, map3.
  by rewrite !length_fmap.
Qed.

(** What the group computes from the row shards of the inputs, and what one
    worker computes from the whole inputs. *)
Lemma stack_stages_group_single (w kR kC kL Bn : nat)
    (row : MSARowAttentionWithPairBias.t F) (col : T4 F → T3 F → T4 F)
    (trans : Transition.t F) (node pair : T4 F) (node_mask : T3 F) σ :
  0 < w → 0 < Bn → 0 < kR → 0 < kC →
  keeps_length (SelfAttention.core (MSARowAttentionWithPairBias.attention row)) →
  (∀ w' k j N m, shape3 Bn (w * kR) (w' * k) N → shape3 Bn (w * kR) (w' * k) m →
     j < w' →
     col (map_at 2 (chunk k j) N) (map_at 2 (chunk k j) m)
     = map_at 2 (chunk k j) (col N m)) →
  (∀ N m, shape3 Bn (w * kR) (w * kC) N → shape3 Bn (w * kR) (w * kC) m →
     shape3 Bn (w * kR) (w * kC) (col N m)) →
  shape3 Bn (w * kR) (w * kC) node →
  shape3 Bn (w * kR) (w * kC) node_mask →
  matrix Bn (w * kL) pair →
  let full := stack_fn row col trans node pair node_mask in
  observable (stack_stages w row col trans
      (fun r => map_at 1 (chunk kR r) node) (fun r => map_at 1 (chunk kL r) pair)
      node_mask σ)
  = Ok (col_shards w kC full, σ)
  ∧ observable (stack_stages 1 row col trans (fun _ => node) (fun _ => pair)
      node_mask σ)
    = Ok ([full], σ)
  ∧ gather_all 2 (col_shards w kC full) = full.
Proof.
  intros Hw HB HkR HkC Hrow Hslice Hshape Hnode Hmask Hpair full.
  assert (shape3 Bn (w * kR) (w * kC) full) as Hfull.
  { apply stack_fn_shape; [done..|]. by destruct Hpair. }
  split; [|split].
  - rewrite (stack_stages_sharded w kR kC kL Bn); [done..| |done|done|done].
    intros N m j HN Hm Hj. by apply (Hslice w).
  - pose proof (stack_stages_sharded 1 (w * kR) (w * kC) (w * kL) Bn
                  row col trans node pair node_mask σ) as Hone.
    rewrite !Nat.mul_1_l in Hone.
    assert (map_at 1 (chunk (w * kL) 0) pair = pair) as Hp.
    { simpl. rewrite <- (list_fmap_id pair) at 2.
      apply Forall_fmap_ext_1. destruct Hpair as [_ Hpair].
      eapply Forall_impl; [exact Hpair|]. intros rows Hl. by apply chunk_whole. }
    assert (stack_stages 1 row col trans (fun _ => node) (fun _ => pair) node_mask σ
            = stack_stages 1 row col trans
                (fun r => map_at 1 (chunk (w * kR) r) node)
                (fun r => map_at 1 (chunk (w * kL) r) pair) node_mask σ) as ->.
    { unfold stack_stages. cbn [seq fmap list_fmap].
      rewrite (row_shard_single Bn _ (w * kC)) by done. by rewrite Hp. }
    rewrite Hone; [|lia|done|nia|done| |done|done|done].
    + unfold col_shards. cbn [seq fmap list_fmap observable res_fmap fst].
      fold full. by rewrite (col_shard_single Bn (w * kR)).
    + intros N m j HN Hm Hj. apply (Hslice 1); [by rewrite Nat.mul_1_l..|done].
  - unfold gather_all, col_shards.
    apply (cat_at_chunks 2 kC w full); [done|].
    by apply (shape3_rect_2 Bn (w * kR)).
Qed.


End StackClaims.


Section StackClaims2.
Context {F G : Type} `{Num F}.
Implicit Types (B : backend F G) (σ : world F G).

Lemma MSAColumnAttention_forward_Ret (self : MSAColumnAttention.t F) N m :
  MSAColumnAttention.forward self N m = Ret (col_block self N m).
Proof. reflexivity. Qed.

Lemma MSAColumnGlobalAttention_forward_Ret (self : MSAColumnGlobalAttention.t F) N m :
  MSAColumnGlobalAttention.forward self N m = Ret (col_global_block self N m).
Proof. reflexivity. Qed.

(** The communication of the row block: the asynchronous gather of the
    bias, the wait for it, and the draw of a dropout mask in training. *)
Lemma Row_run_trace B w (self : MSARowAttentionWithPairBias.t F)
    (M_raw Z : nat → T4 F) (M_mask : nat → T3 F) σ rs σ' tr :
  run_spmd B w (fun r =>
      MSARowAttentionWithPairBias.forward self (M_raw r) (Z r) (M_mask r)) σ
  = Ok (rs, σ', tr) →
  tr = EvGatherAsync 1 (fresh (dom (inflight σ)))
       :: EvWait (fresh (dom (inflight σ)))
       :: (if MSARowAttentionWithPairBias.training self then [EvDropout] else []).
Proof.
  unfold MSARowAttentionWithPairBias.forward.
  cbn [mbind mret prog_mbind prog_ret prog_bind gather_async].
  rewrite run_spmd_GatherAsync. destruct w as [|w']; [done|]. cbn zeta.
  cbn [mbind mret prog_mbind prog_ret prog_bind SelfAttention.forward wait].
  intros (tr1 & Hrun & ->)%logged_Ok. f_equal. revert Hrun.
  rewrite run_spmd_Wait. cbn [inflight gens].
  rewrite lookup_insert_eq. cbn [cat4 mbind res_bind].
  rewrite world_restore by done.
  intros (tr2 & Hrun & ->)%logged_Ok. f_equal. revert Hrun.
  unfold bias_dropout_add.
  destruct (MSARowAttentionWithPairBias.training self).
  - cbn [mbind mret prog_mbind prog_ret prog_bind dropout].
    rewrite run_spmd_Dropout by lia.
    destruct (decide (length (gens σ) = S w')); [|done]. cbn zeta.
    intros (tr3 & Hrun & ->)%logged_Ok. f_equal. revert Hrun.
    unfold mret, prog_ret. rewrite run_spmd_Ret by lia. by intros [= _ _ <-].
  - cbn [mbind mret prog_mbind prog_ret prog_bind].
    unfold mret, prog_ret. rewrite run_spmd_Ret by lia. by intros [= _ _ <-].
Qed.

(** The column-sharded result of a stack at inference, from the row shards
    of its inputs. *)
Lemma stack_forward_col_sharded (w kR kC kL Bn : nat)
    (row : MSARowAttentionWithPairBias.t F) (col : T4 F → T3 F → T4 F)
    (trans : Transition.t F) (node pair : T4 F) (node_mask : T3 F) σ :
  0 < w → 0 < Bn → 0 < kR →
  keeps_length (SelfAttention.core (MSARowAttentionWithPairBias.attention row)) →
  (∀ N m j, shape3 Bn (w * kR) (w * kC) N → shape3 Bn (w * kR) (w * kC) m → j < w →
     col (map_at 2 (chunk kC j) N) (map_at 2 (chunk kC j) m)
     = map_at 2 (chunk kC j) (col N m)) →
  shape3 Bn (w * kR) (w * kC) node →
  shape3 Bn (w * kR) (w * kC) node_mask →
  matrix Bn (w * kL) pair →
  results (stack_stages w row col trans
      (fun r => map_at 1 (chunk kR r) node) (fun r => map_at 1 (chunk kL r) pair)
      node_mask σ)
  = Ok (col_shards w kC (stack_fn row col trans node pair node_mask)).
Proof. intros. by rewrite (stack_stages_sharded w kR kC kL Bn). Qed.

(** C4. In a group of [w] workers, the run of [MSAStack.forward] and of
    [ExtraMSAStack.forward] is the sequence [stack_sequence]: the row
    attention with pair bias on the row shards, the row-to-column exchange
    of the node, the column block (self-attention for [MSAStack], global
    attention for [ExtraMSAStack], each the value of the class's [forward]),
    the transition with its residual addition.  At inference, on the row
    shards of well-shaped inputs, the results are the column shards of the
    stack's value on the whole tensors. *)
Theorem stack_forward_sequence B (w : nat) σ :
  0 < w →
  (∀ (self : MSAStack.t F) (node pair : nat → T4 F) (node_mask : T3 F),
     run_spmd B w (fun r =>
         MSAStack.forward (mkComm w r) self (node r) (pair r) node_mask) σ
     = stack_sequence B w (MSAStack.MSARowAttentionWithPairBias self)
         (col_block (MSAStack.MSAColumnAttention self))
         (MSAStack.MSATransition self) node pair node_mask σ)
  ∧ (∀ (self : ExtraMSAStack.t F) (node pair : nat → T4 F) (node_mask : T3 F),
     run_spmd B w (fun r =>
         ExtraMSAStack.forward (mkComm w r) self (node r) (pair r) node_mask) σ
     = stack_sequence B w (ExtraMSAStack.MSARowAttentionWithPairBias self)
         (col_global_block (ExtraMSAStack.MSAColumnAttention self))
         (ExtraMSAStack.MSATransition self) node pair node_mask σ)
  ∧ (∀ (col : MSAColumnAttention.t F) N m,
     MSAColumnAttention.forward col N m = Ret (col_block col N m))
  ∧ (∀ (col : MSAColumnGlobalAttention.t F) N m,
     MSAColumnGlobalAttention.forward col N m = Ret (col_global_block col N m))
  ∧ (∀ (self : MSAStack.t F) (kR kC kL Bn : nat) (node pair : T4 F) (node_mask : T3 F),
     0 < Bn → 0 < kR →
     MSARowAttentionWithPairBias.training (MSAStack.MSARowAttentionWithPairBias self)
       = false →
     keeps_length (SelfAttention.core (MSARowAttentionWithPairBias.attention
       (MSAStack.MSARowAttentionWithPairBias self))) →
     keeps_length (SelfAttention.core
       (MSAColumnAttention.attention (MSAStack.MSAColumnAttention self))) →
     shape3 Bn (w * kR) (w * kC) node →
     shape3 Bn (w * kR) (w * kC) node_mask →
     matrix Bn (w * kL) pair →
     results (run_spmd B w (fun r =>
         MSAStack.forward (mkComm w r) self
           (map_at 1 (chunk kR r) node) (map_at 1 (chunk kL r) pair) node_mask) σ)
     = Ok (col_shards w kC
             (stack_fn (MSAStack.MSARowAttentionWithPairBias self)
                (col_block (MSAStack.MSAColumnAttention self))
                (MSAStack.MSATransition self) node pair node_mask)))
  ∧ (∀ (self : ExtraMSAStack.t F) (kR kC kL Bn : nat) (node pair : T4 F)
       (node_mask : T3 F),
     0 < Bn → 0 < kR →
     MSARowAttentionWithPairBias.training (ExtraMSAStack.MSARowAttentionWithPairBias self)
       = false →
     keeps_length (SelfAttention.core (MSARowAttentionWithPairBias.attention
       (ExtraMSAStack.MSARowAttentionWithPairBias self))) →
     (∀ m x, length (GlobalAttention.core
        (MSAColumnGlobalAttention.global_attention (ExtraMSAStack.MSAColumnAttention self))
        m x) = length x) →
     shape3 Bn (w * kR) (w * kC) node →
     shape3 Bn (w * kR) (w * kC) node_mask →
     matrix Bn (w * kL) pair →
     results (run_spmd B w (fun r =>
         ExtraMSAStack.forward (mkComm w r) self
           (map_at 1 (chunk kR r) node) (map_at 1 (chunk kL r) pair) node_mask) σ)
     = Ok (col_shards w kC
             (stack_fn (ExtraMSAStack.MSARowAttentionWithPairBias self)
                (col_global_block (ExtraMSAStack.MSAColumnAttention self))
                (ExtraMSAStack.MSATransition self) node pair node_mask))).
Proof.
  intros Hw. repeat split.
  - intros. by apply MSAStack_sequence.
  - intros. by apply ExtraMSAStack_sequence.
  - intros self kR kC kL Bn node pair node_mask HB HkR Htr Hrow Hcol Hn Hm Hp.
    rewrite MSAStack_run by done.
    apply (stack_forward_col_sharded w kR kC kL Bn); try done.
    intros N m j HN Hm' Hj.
    apply (col_block_slice _ Bn (w * kR) w); (done || nia).
  - intros self kR kC kL Bn node pair node_mask HB HkR Htr Hrow Hcol Hn Hm Hp.
    rewrite ExtraMSAStack_run by done.
    apply (stack_forward_col_sharded w kR kC kL Bn); try done.
    intros N m j HN Hm' Hj.
    apply (col_global_block_slice _ Bn (w * kR) w); (done || nia).
Qed.

Lemma stack_sequence_masks B w (row : MSARowAttentionWithPairBias.t F)
    (col : T4 F → T3 F → T4 F) (trans : Transition.t F)
    (node pair : nat → T4 F) (node_mask : T3 F) σ outs σ' tr :
  0 < w →
  stack_sequence B w row col trans node pair node_mask σ = Ok (outs, σ', tr) →
  ∃ (mask_row : list (T3 F)) (node1 node2 : list (T4 F)) (mask_col : list (T3 F))
    σ1 tr1,
    mapM (fun r => scatter (mkComm w r) 1 node_mask) (seq 0 w) = Ok mask_row
    ∧ run_spmd B w (fun r =>
          MSARowAttentionWithPairBias.forward row (node r) (pair r) (mask_row !!! r)) σ
      = Ok (node1, σ1, tr1)
    ∧ row_to_col_all node1 = Ok node2
    ∧ mapM (fun r => scatter (mkComm w r) 2 node_mask) (seq 0 w) = Ok mask_col
    ∧ outs = (fun r => Transition.forward trans (col (node2 !!! r) (mask_col !!! r)))
               <$> seq 0 w
    ∧ exchanges tr = 1.
Proof.
  intros Hw. unfold stack_sequence.
  destruct (divide (size_along 1 node_mask) w) as [k_row|e] eqn:Ekr; [|done].
  cbn [mbind res_bind]. unfold then_run.
  destruct (run_spmd B w _ σ) as [[[node1 σ1] tr1]|e] eqn:Erow; [|done].
  cbn [mbind res_bind].
  destruct (row_to_col_all node1) as [node2|e] eqn:Erc; [|done].
  cbn [mbind res_bind].
  destruct (divide (size_along 2 node_mask) w) as [k_col|e] eqn:Ekc; [|done].
  cbn [mbind res_bind]. intros [= <- <- <-].
  exists ((fun r => map_at 1 (chunk k_row r) node_mask) <$> seq 0 w), node1, node2,
    ((fun r => map_at 2 (chunk k_col r) node_mask) <$> seq 0 w), σ1, tr1.
  split; [|split; [|split; [done|split; [|split]]]].
  - apply mapM_res_fmap. intros r _.
    rewrite scatter_fmap_divide. cbn [world_size rank].
    change (size_along 1 node_mask) with (size_along (A:=list F) 1 node_mask) in Ekr.
    by rewrite Ekr.
  - etransitivity; [|exact Erow]. apply run_spmd_ext. intros r Hr. f_equal.
    apply list_lookup_total_correct.
    rewrite list_lookup_fmap, lookup_seq_lt by done. done.
  - apply mapM_res_fmap. intros r _.
    rewrite scatter_fmap_divide. cbn [world_size rank]. by rewrite Ekc.
  - apply Forall_fmap_ext_1, Forall_forall. intros r Hr%elem_of_seq.
    do 2 f_equal. symmetry. apply list_lookup_total_correct.
    rewrite list_lookup_fmap, lookup_seq_lt by lia. done.
  - apply Row_run_trace in Erow. subst tr1.
    by destruct (MSARowAttentionWithPairBias.training row).
Qed.

(** C5. In every successful run of [MSAStack.forward] or
    [ExtraMSAStack.forward] the mask given to the column block of worker [r]
    is [scatter] of the full node mask along axis 2, the row block got
    [scatter] of the full mask along axis 1, and the run holds exactly one
    row-to-column exchange, that of the node: the mask is never
    exchanged. *)
Theorem column_mask_from_full_mask B (w : nat) (node pair : nat → T4 F)
    (node_mask : T3 F) σ :
  0 < w →
  (∀ (self : MSAStack.t F) outs σ' tr,
     run_spmd B w (fun r =>
         MSAStack.forward (mkComm w r) self (node r) (pair r) node_mask) σ
     = Ok (outs, σ', tr) →
     ∃ (mask_row : list (T3 F)) (node1 node2 : list (T4 F)) (mask_col : list (T3 F))
       σ1 tr1,
       mapM (fun r => scatter (mkComm w r) 1 node_mask) (seq 0 w) = Ok mask_row
       ∧ run_spmd B w (fun r =>
             MSARowAttentionWithPairBias.forward
               (MSAStack.MSARowAttentionWithPairBias self)
               (node r) (pair r) (mask_row !!! r)) σ
         = Ok (node1, σ1, tr1)
       ∧ row_to_col_all node1 = Ok node2
       ∧ mapM (fun r => scatter (mkComm w r) 2 node_mask) (seq 0 w) = Ok mask_col
       ∧ outs = (fun r => Transition.forward (MSAStack.MSATransition self)
                   (col_block (MSAStack.MSAColumnAttention self)
                      (node2 !!! r) (mask_col !!! r))) <$> seq 0 w
       ∧ exchanges tr = 1)
  ∧ (∀ (self : ExtraMSAStack.t F) outs σ' tr,
     run_spmd B w (fun r =>
         ExtraMSAStack.forward (mkComm w r) self (node r) (pair r) node_mask) σ
     = Ok (outs, σ', tr) →
     ∃ (mask_row : list (T3 F)) (node1 node2 : list (T4 F)) (mask_col : list (T3 F))
       σ1 tr1,
       mapM (fun r => scatter (mkComm w r) 1 node_mask) (seq 0 w) = Ok mask_row
       ∧ run_spmd B w (fun r =>
             MSARowAttentionWithPairBias.forward
               (ExtraMSAStack.MSARowAttentionWithPairBias self)
               (node r) (pair r) (mask_row !!! r)) σ
         = Ok (node1, σ1, tr1)
       ∧ row_to_col_all node1 = Ok node2
       ∧ mapM (fun r => scatter (mkComm w r) 2 node_mask) (seq 0 w) = Ok mask_col
       ∧ outs = (fun r => Transition.forward (ExtraMSAStack.MSATransition self)
                   (col_global_block (ExtraMSAStack.MSAColumnAttention self)
                      (node2 !!! r) (mask_col !!! r))) <$> seq 0 w
       ∧ exchanges tr = 1).
Proof.
  intros Hw. split.
  - intros self outs σ' tr. rewrite MSAStack_sequence by done.
    by apply stack_sequence_masks.
  - intros self outs σ' tr. rewrite ExtraMSAStack_sequence by done.
    by apply stack_sequence_masks.
Qed.

Lemma stack_stages_results (w : nat) (row : MSARowAttentionWithPairBias.t F)
    (col : T4 F → T3 F → T4 F) (trans : Transition.t F)
    (node pair : nat → T4 F) (node_mask : T3 F) σ σ' :
  results (stack_stages w row col trans node pair node_mask σ)
  = results (stack_stages w row col trans node pair node_mask σ').
Proof.
  unfold stack_stages.
  destruct (divide (size_along 1 node_mask) w) as [k_row|e]; [|done].
  cbn [mbind res_bind].
  destruct (row_to_col_all _) as [node2|e]; [|done]. cbn [mbind res_bind].
  by destruct (divide (size_along 2 node_mask) w) as [k_col|e].
Qed.

Lemma stack_stages_world (w : nat) (row : MSARowAttentionWithPairBias.t F)
    (col : T4 F → T3 F → T4 F) (trans : Transition.t F)
    (node pair : nat → T4 F) (node_mask : T3 F) σ outs σ1 tr :
  stack_stages w row col trans node pair node_mask σ = Ok (outs, σ1, tr) → σ1 = σ.
Proof.
  unfold stack_stages.
  destruct (divide (size_along 1 node_mask) w) as [k_row|e]; [|done].
  cbn [mbind res_bind].
  destruct (row_to_col_all _) as [node2|e]; [|done]. cbn [mbind res_bind].
  destruct (divide (size_along 2 node_mask) w) as [k_col|e]; [|done].
  cbn [mbind res_bind]. by intros [= _ <- _].
Qed.

(** C8, as amended.  With dropout off (the row block not in training
    mode), the results of a stack's forward pass in a group do not depend on
    the backend or on the state the run starts from, and a successful run
    leaves the state it started from. *)
Theorem inference_forward_deterministic B B' (w : nat) (node pair : nat → T4 F)
    (node_mask : T3 F) σ σ' :
  0 < w →
  (∀ self : MSAStack.t F,
     MSARowAttentionWithPairBias.training (MSAStack.MSARowAttentionWithPairBias self)
       = false →
     results (run_spmd B w (fun r =>
         MSAStack.forward (mkComm w r) self (node r) (pair r) node_mask) σ)
     = results (run_spmd B' w (fun r =>
         MSAStack.forward (mkComm w r) self (node r) (pair r) node_mask) σ')
     ∧ ∀ outs σ1 tr,
         run_spmd B w (fun r =>
             MSAStack.forward (mkComm w r) self (node r) (pair r) node_mask) σ
         = Ok (outs, σ1, tr) → σ1 = σ)
  ∧ (∀ self : ExtraMSAStack.t F,
     MSARowAttentionWithPairBias.training (ExtraMSAStack.MSARowAttentionWithPairBias self)
       = false →
     results (run_spmd B w (fun r =>
         ExtraMSAStack.forward (mkComm w r) self (node r) (pair r) node_mask) σ)
     = results (run_spmd B' w (fun r =>
         ExtraMSAStack.forward (mkComm w r) self (node r) (pair r) node_mask) σ')
     ∧ ∀ outs σ1 tr,
         run_spmd B w (fun r =>
             ExtraMSAStack.forward (mkComm w r) self (node r) (pair r) node_mask) σ
         = Ok (outs, σ1, tr) → σ1 = σ).
Proof.
  intros Hw. split; intros self Htr.
  - rewrite !MSAStack_run by done. split; [apply stack_stages_results|].
    intros outs σ1 tr. apply stack_stages_world.
  - rewrite !ExtraMSAStack_run by done. split; [apply stack_stages_results|].
    intros outs σ1 tr. apply stack_stages_world.
Qed.

End StackClaims2.


Section RowToColClaim.
Context {A : Type}.

Lemma row_shard_lookup kR r (X : list (list (list A))) b i c :
  i < kR →
  at3 (map_at 1 (chunk kR r) X) b i c = at3 X b (r * kR + i) c.
Proof.
  intros Hi. unfold at3.
  change (map_at 1 (chunk kR r) X) with (fmap (M:=list) (chunk kR r) X).
  rewrite list_lookup_fmap.
  destruct (X !! b) as [rows|]; [|done]. cbn [fmap option_fmap option_map].
  by rewrite chunk_lookup.
Qed.

(** C3. For the row shards of a tensor [X] of shape
    [Bn, w * kR, w * kC, _]: [row_to_col] turns them into the column shards
    of [X], the inverse exchange turns those back into the row shards, both
    hold the same number of elements, and the cell at local position
    [(b, i, c)] of a shard is the cell of [X] at the global row
    [r * kR + i] (row shard [r]) or the global column [j * kC + c] (column
    shard [j]). *)
Theorem row_to_col_preserves_content (cell : A → nat) (Bn w kR kC : nat)
    (X : nest 3 A) :
  0 < w → shape3 Bn (w * kR) (w * kC) X →
  row_to_col_all (row_shards w kR X) = Ok (col_shards w kC X)
  ∧ col_to_row_all (col_shards w kC X) = Ok (row_shards w kR X)
  ∧ sum_list (numel cell 3 <$> col_shards w kC X)
    = sum_list (numel cell 3 <$> row_shards w kR X)
  ∧ (∀ r b i c, r < w → i < kR →
       at3 (row_shards w kR X !!! r) b i c = at3 X b (r * kR + i) c)
  ∧ (∀ j b i c, j < w → c < kC →
       at3 (col_shards w kC X !!! j) b i c = at3 X b i (j * kC + c)).
Proof.
  intros Hw HX. repeat split.
  - by apply (row_to_col_all_shards Bn).
  - by apply (col_to_row_all_shards Bn).
  - rewrite (numel_col_shards cell Bn (w * kR)) by done.
    by rewrite (numel_row_shards cell Bn w kR (w * kC)).
  - intros r b i c Hr Hi. unfold row_shards.
    rewrite (list_lookup_total_correct _ r (map_at 1 (chunk kR r) X)).
    2:{ rewrite list_lookup_fmap, lookup_seq_lt by done. done. }
    by apply row_shard_lookup.
  - intros j b i c Hj Hc. unfold col_shards.
    rewrite (list_lookup_total_correct _ j (map_at 2 (chunk kC j) X)).
    2:{ rewrite list_lookup_fmap, lookup_seq_lt by done. done. }
    by apply col_shard_lookup.
Qed.

End RowToColClaim.

Lemma row_to_col_preserves_content_witness :
  row_to_col_all
    [ [[[1; 2]; [3; 4]]] ; [[[5; 6]; [7; 8]]] ]
  = Ok [ [[[1]; [3]; [5]; [7]]] ; [[[2]; [4]; [6]; [8]]] ]
  ∧ col_to_row_all [ [[[1]; [3]; [5]; [7]]] ; [[[2]; [4]; [6]; [8]]] ]
    = Ok [ [[[1; 2]; [3; 4]]] ; [[[5; 6]; [7; 8]]] ].
Proof.
  pose proof (row_to_col_preserves_content (fun _ : nat => 1) 1 2 2 1
                [[[1; 2]; [3; 4]; [5; 6]; [7; 8]]]) as Hx.
  destruct Hx as (H1 & H2 & _); [lia|repeat constructor|].
  split; [exact H1|exact H2].
Defined.


(** ** A stack over the integers *)

Lemma mixing_core_keeps_length : keeps_length mixing_core.
Proof. intros bias mask_row slice. apply length_fmap. Qed.


Lemma stack_forward_sequence_witness :
  run_spmd idle 2 (fun r =>
      ExtraMSAStack.forward (mkComm 2 r) (extra_stack_small true)
        (map_at 1 (chunk 1 r) node_small) (map_at 1 (chunk 1 r) pair_small)
        mask_small) (fresh_world 2)
  = stack_sequence idle 2 (row_small true)
      (col_global_block (MSAColumnGlobalAttention.mk ln_shift mixing_global_attention))
      doubling_transition
      (fun r => map_at 1 (chunk 1 r) node_small)
      (fun r => map_at 1 (chunk 1 r) pair_small) mask_small (fresh_world 2)
  ∧ results (run_spmd idle 2 (fun r =>
        MSAStack.forward (mkComm 2 r) (stack_ex false)
          (map_at 1 (chunk 4 r) node_ex) (map_at 1 (chunk 8 r) pair_ex) mask_ex)
        (fresh_world 2))
    = Ok (col_shards 2 8
            (stack_fn (row_ex false)
               (col_block (MSAColumnAttention.mk ln_shift mixing_attention))
               doubling_transition node_ex pair_ex mask_ex)).
Proof.
  pose proof (stack_forward_sequence idle 2 (fresh_world 2)) as Hx.
  destruct Hx as (_ & H2 & _ & _ & H5 & _); [lia|].
  split.
  - exact (H2 (extra_stack_small true) _ _ mask_small).
  - apply (H5 (stack_ex false) 4 8 8 1 node_ex pair_ex mask_ex).
    + lia.
    + lia.
    + reflexivity.
    + exact mixing_core_keeps_length.
    + exact mixing_core_keeps_length.
    + vm_compute. repeat constructor.
    + vm_compute. repeat constructor.
    + vm_compute. repeat constructor.
Defined.

Lemma column_mask_from_full_mask_witness :
  ∃ (mask_row : list (T3 Z)) (node1 node2 : list (T4 Z)) (mask_col : list (T3 Z))
    (σ1 : world Z nat) (tr1 : list comm_event),
    mapM (fun r => scatter (mkComm 2 r) 1 mask_small) (seq 0 2) = Ok mask_row
    ∧ run_spmd coin 2 (fun r =>
          MSARowAttentionWithPairBias.forward (row_small true)
            (map_at 1 (chunk 1 r) node_small) (map_at 1 (chunk 1 r) pair_small)
            (mask_row !!! r)) (mkWorld [0; 1] ∅)
      = Ok (node1, σ1, tr1)
    ∧ row_to_col_all node1 = Ok node2
    ∧ mapM (fun r => scatter (mkComm 2 r) 2 mask_small) (seq 0 2) = Ok mask_col
    ∧ [ [[[[153]]; [[417]]]]; [[[[24]]; [[300]]]] ]%Z
      = (fun r => Transition.forward doubling_transition
                    (col_block (MSAColumnAttention.mk ln_shift mixing_attention)
                       (node2 !!! r) (mask_col !!! r))) <$> seq 0 2
    ∧ exchanges [EvGatherAsync 1 0; EvWait 0; EvDropout; EvRowToCol] = 1.
Proof.
  apply (proj1 (column_mask_from_full_mask coin 2
                  (fun r => map_at 1 (chunk 1 r) node_small)
                  (fun r => map_at 1 (chunk 1 r) pair_small)
                  mask_small (mkWorld [0; 1] ∅) ltac:(lia))
           (stack_small true) _ (mkWorld [1; 2] ∅) _).
  vm_compute. reflexivity.
Defined.

Lemma inference_forward_deterministic_witness :
  results (run_spmd idle 2 (fun r =>
      MSAStack.forward (mkComm 2 r) (stack_small false)
        (map_at 1 (chunk 1 r) node_small) (map_at 1 (chunk 1 r) pair_small)
        mask_small) (fresh_world 2))
  = results (run_spmd coin 2 (fun r =>
      MSAStack.forward (mkComm 2 r) (stack_small false)
        (map_at 1 (chunk 1 r) node_small) (map_at 1 (chunk 1 r) pair_small)
        mask_small) (mkWorld [1; 2] ∅)).
Proof.
  apply (proj1 (inference_forward_deterministic idle coin 2
                  (fun r => map_at 1 (chunk 1 r) node_small)
                  (fun r => map_at 1 (chunk 1 r) pair_small)
                  mask_small (fresh_world 2) (mkWorld [1; 2] ∅) ltac:(lia))
           (stack_small false)).
  reflexivity.
Defined.

Lemma stack_with_small (training : bool) :
  stack_with 0%Z training = stack_small training.
Proof. reflexivity. Qed.

(** In training mode with a dropout probability of one half, two runs of
    the same stack on the same inputs differ and the generator moves on;
    with the probability 0 nothing is drawn and both runs agree. *)
Lemma training_forward_counterexample :
  observable (run_spmd bernoulli 1 (fun r =>
      MSAStack.forward (mkComm 1 r) (stack_with one_half true)
        (rational4 node_small) (rational4 pair_small) (rational3 mask_small))
      (mkWorld [0] ∅))
  = Ok ([ rational4 [[[[27]; [24]]; [[39]; [36]]]]%Z ], mkWorld [1] ∅)
  ∧ observable (run_spmd bernoulli 1 (fun r =>
        MSAStack.forward (mkComm 1 r) (stack_with one_half true)
          (rational4 node_small) (rational4 pair_small) (rational3 mask_small))
        (mkWorld [1] ∅))
    = Ok ([ rational4 [[[[513]; [402]]; [[537]; [426]]]]%Z ], mkWorld [2] ∅)
  ∧ [ rational4 [[[[27]; [24]]; [[39]; [36]]]]%Z ]
    ≠ [ rational4 [[[[513]; [402]]; [[537]; [426]]]]%Z ]
  ∧ mkWorld (F:=QArith_base.Q) [1] ∅ ≠ mkWorld [0] ∅
  ∧ observable (run_spmd bernoulli 1 (fun r =>
        MSAStack.forward (mkComm 1 r) (stack_with (QArith_base.inject_Z 0) true)
          (rational4 node_small) (rational4 pair_small) (rational3 mask_small))
        (mkWorld [0] ∅))
    = Ok ([ rational4 [[[[270]; [213]]; [[288]; [231]]]]%Z ], mkWorld [0] ∅)
  ∧ observable (run_spmd bernoulli 1 (fun r =>
        MSAStack.forward (mkComm 1 r) (stack_with (QArith_base.inject_Z 0) true)
          (rational4 node_small) (rational4 pair_small) (rational3 mask_small))
        (mkWorld [1] ∅))
    = Ok ([ rational4 [[[[270]; [213]]; [[288]; [231]]]]%Z ], mkWorld [1] ∅).
Proof.
  split; [vm_compute; reflexivity|].
  split; [vm_compute; reflexivity|].
  split; [discriminate|]. split; [discriminate|].
  split; vm_compute; reflexivity.
Qed.

(** * Further properties of [np/protein.py] *)

Open Scope Z_scope.

Lemma ravel_zeros_like : ∀ a : ndarray Z, Forall (eq 0) (ravel (zeros_like 0 a)).
Proof.
  fix IH 1. intros [x|l]; simpl.
  - repeat constructor.
  - induction l as [|b l IHl]; simpl; [constructor|].
    apply Forall_app. split; [apply IH|apply IHl].
Qed.

Lemma np_unique_zeros_like (a : ndarray Z) :
  (length (np_unique (zeros_like 0%Z a)) ≤ 1)%nat.
Proof.
  rewrite np_unique_length.
  rewrite <- (size_singleton (C:=gset Z) 0).
  apply subseteq_size. intros x Hx%elem_of_list_to_set.
  pose proof (ravel_zeros_like a) as Hall. rewrite Forall_forall in Hall.
  apply elem_of_singleton. symmetry. by apply Hall.
Qed.

Lemma subscript_Some {V} (d : gmap string V) key v :
  d !! key = Some v → subscript d key = Ok v.
Proof. unfold subscript. by intros ->. Qed.

Lemma subscript_None {V} (d : gmap string V) key :
  d !! key = None → subscript d key = Err (KeyError key).
Proof. unfold subscript. by intros ->. Qed.

Section PredictionFacts.
Context {F : Type} `{Num F}.

(** X1. With the outputs under ["structure_module"] (AlphaFold's layout),
    [from_prediction] still needs ["final_atom_mask"] and
    ["final_atom_positions"] at the top level of [result]: the default of
    [fold_output.get(key, result[key])] is evaluated before the lookup, so a
    result that holds them under ["structure_module"] only raises
    [KeyError]. *)
Theorem from_prediction_needs_top_level_outputs
    (features : gmap string (ndarray Z)) (dt : int_dtype)
    (result : gmap string (value F))
    (d : gmap string (ndarray F))
    (b_factors : option (ndarray F)) (ci : option (ndarray Z))
    (remark : option string) (parents : option (list string))
    (pci : option (list Z)) (flag : bool) :
  result !! "structure_module" = Some (VDict d) →
  (result !! "final_atom_mask" = None →
   from_prediction features dt result b_factors ci remark parents pci flag
   = Err (KeyError "final_atom_mask"))
  ∧ (is_Some (result !! "final_atom_mask") →
     is_Some (d !! "final_atom_mask") ∨ is_Some b_factors →
     result !! "final_atom_positions" = None →
     from_prediction features dt result b_factors ci remark parents pci flag
     = Err (KeyError "final_atom_positions")).
Proof.
  intros Hsm. unfold from_prediction.
  destruct (decide (is_Some (result !! "structure_module"))) as [_|Hn];
    [|destruct Hn; eauto].
  rewrite (subscript_Some _ _ _ Hsm). cbn [fmap res_fmap mbind res_bind].
  split.
  - intros Hm. rewrite (subscript_None result _ Hm).
    destruct b_factors as [b|]; cbn [mbind res_bind fold_subscript]; [done|].
    destruct (d !! "final_atom_mask") as [v|] eqn:Ev.
    + by rewrite (subscript_Some _ _ _ Ev).
    + by rewrite (subscript_None _ _ Ev).
  - intros [m Hm] Hd Hp.
    rewrite (subscript_Some _ _ _ Hm), (subscript_None result _ Hp).
    destruct b_factors as [b|]; cbn [mbind res_bind fold_subscript]; [done|].
    destruct Hd as [[v Hv]|[? [=]]].
    by rewrite (subscript_Some _ _ _ Hv).
Qed.

(** X2. On a flat [result] (no ["structure_module"]) with both outputs, and
    features with ["aatype"] and ["residue_index"] (and ["asym_id"], or
    none), [from_prediction] returns the protein whose [residue_index] is the
    feature plus one in the integer type of the array, so that the largest
    value of the type becomes the smallest, whose [b_factors] are the
    argument or zeros shaped like the atom mask, and whose other fields are
    the features, outputs and arguments as given, provided the chains are at
    most 62. *)
Theorem from_prediction_flat_result
    (features : gmap string (ndarray Z)) (dt : int_dtype)
    (result : gmap string (value F))
    (b_factors : option (ndarray F)) (ci : option (ndarray Z))
    (remark : option string) (parents : option (list string))
    (pci : option (list Z)) (flag : bool)
    (aa ri aa' ri' ci' : ndarray Z) (mask pos : value F) :
  result !! "structure_module" = None →
  result !! "final_atom_mask" = Some mask →
  result !! "final_atom_positions" = Some pos →
  features !! "aatype" = Some aa →
  features !! "residue_index" = Some ri →
  _maybe_remove_leading_dim flag aa = Ok aa' →
  _maybe_remove_leading_dim flag ri = Ok ri' →
  match features !! "asym_id" with
  | Some a => _maybe_remove_leading_dim flag a
  | None => Ok (zeros_like 0 aa')
  end = Ok ci' →
  (length (np_unique ci') ≤ 62)%nat →
  from_prediction features dt result b_factors ci remark parents pci flag
  = Ok (mkProtein pos aa' mask (ndmap (fun x => wrap dt (x + 1)) ri')
          (default (zeros_like_value mask) b_factors) ci' remark parents pci).
Proof.
  intros Hsm Hm Hp Haa Hri Haa' Hri' Hci Hlen. unfold from_prediction.
  destruct (decide (is_Some (result !! "structure_module"))) as [[? Hs]|_];
    [by rewrite Hsm in Hs|].
  cbn [mbind res_bind fold_subscript fold_get_method].
  rewrite (subscript_Some _ _ _ Hm), (subscript_Some _ _ _ Hp),
    (subscript_Some _ _ _ Haa), (subscript_Some _ _ _ Hri).
  rewrite Hm, Hp. cbn [default].
  assert (Protein_init pos aa' mask (ndmap (fun x => wrap dt (x + 1)) ri')
            (default (zeros_like_value mask) b_factors) ci' remark parents pci
          = Ok (mkProtein pos aa' mask (ndmap (fun x => wrap dt (x + 1)) ri')
                  (default (zeros_like_value mask) b_factors) ci' remark parents pci))
    as Hinit.
  { unfold Protein_init, post_init. cbn [chain_index].
    by rewrite decide_False by (change PDB_MAX_CHAINS with 62%nat; lia). }
  destruct (features !! "asym_id") as [a|] eqn:Ea.
  - destruct (decide (is_Some (Some a))) as [_|Hn]; [|destruct Hn; eauto].
    rewrite (subscript_Some _ _ _ Ea).
    destruct b_factors as [b|]; cbn [mbind res_bind default] in *;
      rewrite Hci; cbn [mbind res_bind]; rewrite Haa', Hri';
      cbn [mbind res_bind]; exact Hinit.
  - destruct (decide (is_Some (@None (ndarray Z)))) as [[? [=]]|_].
    injection Hci as <-.
    destruct b_factors as [b|]; cbn [mbind res_bind default] in *;
      rewrite Haa'; cbn [mbind res_bind]; rewrite Hri';
      cbn [mbind res_bind]; exact Hinit.
Qed.

Lemma bind_not_ValueError {A B} (m : res A) (f : A → res B) :
  raises_ValueError m = false → (∀ a, m = Ok a → raises_ValueError (f a) = false) →
  raises_ValueError (m ≫= f) = false.
Proof. destruct m as [a|e]; simpl; [|done]. intros _ Hf. by apply Hf. Qed.

Lemma fmap_not_ValueError {A B} (m : res A) (f : A → B) :
  raises_ValueError m = false → raises_ValueError (f <$> m) = false.
Proof. by destruct m as [a|e]. Qed.

Lemma subscript_not_ValueError {V} (d : gmap string V) key :
  raises_ValueError (subscript d key) = false.
Proof. unfold subscript. by destruct (d !! key). Qed.

Lemma remove_leading_dim_not_ValueError {A} flag (a : ndarray A) :
  raises_ValueError (_maybe_remove_leading_dim flag a) = false.
Proof. by destruct flag, a as [x|[|b l]]. Qed.

Lemma fold_subscript_not_ValueError (fo : fold_out F) key :
  raises_ValueError (fold_subscript fo key) = false.
Proof.
  destruct fo as [d|[a|d]]; simpl; [apply subscript_not_ValueError|done|].
  apply fmap_not_ValueError, subscript_not_ValueError.
Qed.

Lemma fold_get_method_not_ValueError (fo : fold_out F) :
  raises_ValueError (fold_get_method fo) = false.
Proof. by destruct fo as [d|[a|d]]. Qed.

(** X3. Without ["asym_id"] in the features, [from_prediction] never raises
    [ValueError]: the chain index is all zeros, one chain, so the check of
    [__post_init__] passes whatever the inputs are. *)
Theorem from_prediction_single_chain
    (features : gmap string (ndarray Z)) (dt : int_dtype)
    (result : gmap string (value F))
    (b_factors : option (ndarray F)) (ci : option (ndarray Z))
    (remark : option string) (parents : option (list string))
    (pci : option (list Z)) (flag : bool) :
  features !! "asym_id" = None →
  raises_ValueError
    (from_prediction features dt result b_factors ci remark parents pci flag) = false.
Proof.
  intros Ha. unfold from_prediction.
  apply bind_not_ValueError.
  { destruct (decide _); [|done].
    apply fmap_not_ValueError, subscript_not_ValueError. }
  intros fo _. apply bind_not_ValueError.
  { destruct b_factors; [done|].
    apply bind_not_ValueError; [apply fold_subscript_not_ValueError|done]. }
  intros b1 _.
  apply bind_not_ValueError; [apply fold_get_method_not_ValueError|]. intros get1 _.
  apply bind_not_ValueError; [apply subscript_not_ValueError|]. intros dflt1 _.
  apply bind_not_ValueError; [apply fold_get_method_not_ValueError|]. intros get2 _.
  apply bind_not_ValueError; [apply subscript_not_ValueError|]. intros dflt2 _.
  destruct (decide (is_Some (features !! "asym_id"))) as [[? Hs]|_];
    [by rewrite Ha in Hs|].
  apply bind_not_ValueError.
  { apply bind_not_ValueError; [apply subscript_not_ValueError|]. intros a _.
    apply bind_not_ValueError; [apply remove_leading_dim_not_ValueError|].
    done. }
  intros ci1 Hci.
  assert (∃ a', ci1 = zeros_like 0 a') as [a' ->].
  { destruct (subscript features "aatype") as [a|]; [|done].
    cbn [mbind res_bind] in Hci.
    destruct (_maybe_remove_leading_dim flag a) as [a'|]; [|done].
    cbn [mbind res_bind] in Hci. injection Hci as <-. by exists a'. }
  apply bind_not_ValueError.
  { destruct b1; [done|].
    apply bind_not_ValueError; [apply subscript_not_ValueError|done]. }
  intros b2 _. apply bind_not_ValueError.
  { apply bind_not_ValueError; [apply subscript_not_ValueError|]. intros a _.
    apply remove_leading_dim_not_ValueError. }
  intros aa1 _. apply bind_not_ValueError.
  { apply bind_not_ValueError; [apply subscript_not_ValueError|]. intros a _.
    apply bind_not_ValueError; [apply remove_leading_dim_not_ValueError|].
    done. }
  intros ri1 _. unfold Protein_init, post_init. cbn [chain_index].
  rewrite decide_False; [done|].
  pose proof (np_unique_zeros_like a'). change PDB_MAX_CHAINS with 62%nat. lia.
Qed.

End PredictionFacts.

Lemma from_prediction_needs_top_level_outputs_witness :
  from_prediction features_ex Int64 result_nested None None None None None true
  = Err (KeyError "final_atom_mask").
Proof.
  apply (proj1 (from_prediction_needs_top_level_outputs features_ex Int64 result_nested
                  {[ "final_atom_mask" := Array [Scalar 1];
                     "final_atom_positions" := Array [Scalar 0] ]}
                  None None None None None true eq_refl)).
  reflexivity.
Defined.

Lemma from_prediction_flat_result_witness :
  from_prediction features_ex Int64 result_ex None None (Some "model_1"%string)
    (Some ["6xyz_A"%string]) (Some [0]) true
  = Ok (mkProtein (VArr (Array [Scalar 0])) (Array [Scalar 3; Scalar 7])
          (VArr (Array [Scalar 1])) (Array [Scalar 1; Scalar 2])
          (Array [Scalar 0]) (Array [Scalar 0; Scalar 0])
          (Some "model_1"%string) (Some ["6xyz_A"%string]) (Some [0]))
  ∧ from_prediction features_last_ex Int64 result_ex None None None None None true
    = Ok (mkProtein (VArr (Array [Scalar 0])) (Array [Scalar 3])
            (VArr (Array [Scalar 1])) (Array [Scalar (-9223372036854775808)])
            (Array [Scalar 0]) (Array [Scalar 0]) None None None).
Proof.
  split.
  - exact (from_prediction_flat_result features_ex Int64 result_ex None None
             (Some "model_1"%string) (Some ["6xyz_A"%string]) (Some [0]) true
             (Array [Array [Scalar 3; Scalar 7]]) (Array [Array [Scalar 0; Scalar 1]])
             (Array [Scalar 3; Scalar 7]) (Array [Scalar 0; Scalar 1])
             (Array [Scalar 0; Scalar 0])
             (VArr (Array [Scalar 1])) (VArr (Array [Scalar 0]))
             eq_refl eq_refl eq_refl eq_refl eq_refl eq_refl eq_refl eq_refl
             ltac:(vm_compute; lia)).
  - exact (from_prediction_flat_result features_last_ex Int64 result_ex None None
             None None None true
             (Array [Array [Scalar 3]]) (Array [Array [Scalar 9223372036854775807]])
             (Array [Scalar 3]) (Array [Scalar 9223372036854775807])
             (Array [Scalar 0])
             (VArr (Array [Scalar 1])) (VArr (Array [Scalar 0]))
             eq_refl eq_refl eq_refl eq_refl eq_refl eq_refl eq_refl eq_refl
             ltac:(vm_compute; lia)).
Defined.

Lemma from_prediction_single_chain_witness :
  raises_ValueError
    (from_prediction features_ex Int64 result_ex None None None None None true)
  = false.
Proof.
  apply (from_prediction_single_chain features_ex Int64 result_ex None None None None None true).
  reflexivity.
Defined.


Lemma ravel_ndmap {A B} (f : A → B) : ∀ a, ravel (ndmap f a) = f <$> ravel a.
Proof.
  fix IH 1. intros [x|l]; simpl; [done|].
  induction l as [|b l IHl]; simpl; [done|].
  by rewrite fmap_app, IH, IHl.
Qed.

Lemma string_get_is_Some (s : string) : ∀ n : nat,
  (n < String.length s)%nat → is_Some (String.get n s).
Proof.
  induction s as [|c s IH]; intros n Hn; simpl in *; [lia|].
  destruct n as [|n]; [eauto|]. apply IH. lia.
Qed.

Lemma str_getitem_chain_id (i : Z) :
  -62 ≤ i < 62 →
  ∃ c, str_getitem PDB_CHAIN_IDS i = Ok c
       ∧ String.get (Z.to_nat (i mod 62)) PDB_CHAIN_IDS = Some c.
Proof.
  intros Hi. unfold str_getitem.
  change (Z.of_nat (String.length PDB_CHAIN_IDS)) with 62.
  assert ((if i <? 0 then i + 62 else i) = i mod 62) as ->.
  { destruct (Z.ltb_spec i 0); Z.div_mod_to_equations; lia. }
  pose proof (Z.mod_pos_bound i 62 ltac:(lia)) as Hm.
  rewrite decide_True by lia.
  destruct (string_get_is_Some PDB_CHAIN_IDS (Z.to_nat (i mod 62))) as [c Hc].
  { change (String.length PDB_CHAIN_IDS) with 62%nat. lia. }
  rewrite Hc. eauto.
Qed.

Lemma str_getitem_out_of_range (i : Z) :
  i < -62 → str_getitem PDB_CHAIN_IDS i = Err IndexError.
Proof.
  intros Hi. unfold str_getitem.
  change (Z.of_nat (String.length PDB_CHAIN_IDS)) with 62.
  destruct (Z.ltb_spec i 0); [|lia]. by rewrite decide_False by lia.
Qed.

(** The table for chain indices that are all writable. *)
Lemma chain_ids_loop_Ok (unique : list Z) : ∀ chain_ids : gmap Z ascii,
  Forall (fun i => -62 ≤ i < 62) unique →
  ∃ m, chain_ids_loop unique chain_ids = Ok m
       ∧ dom m = dom chain_ids ∪ list_to_set unique
       ∧ (∀ i, i ∈ unique →
            m !! i = String.get (Z.to_nat (i mod 62)) PDB_CHAIN_IDS)
       ∧ (∀ i, i ∉ unique → m !! i = chain_ids !! i).
Proof.
  induction unique as [|i unique IH]; intros chain_ids Hall.
  - exists chain_ids. simpl. split; [done|]. split; [set_solver|].
    split; [by intros i ?%elem_of_nil|done].
  - apply Forall_cons in Hall as [Hi Hall]. simpl.
    rewrite decide_False by (change (Z.of_nat PDB_MAX_CHAINS) with 62; lia).
    destruct (str_getitem_chain_id i Hi) as (c & -> & Hc). cbn [mbind res_bind].
    destruct (IH (<[i := c]> chain_ids) Hall) as (m & Hm & Hdom & Hin & Hout).
    exists m. split; [done|]. split; [rewrite Hdom; set_solver|]. split.
    + intros j [Hji|Hj]%elem_of_cons; [subst j|by apply Hin].
      destruct (decide (i ∈ unique)) as [Hj|Hj]; [by apply Hin|].
      by rewrite Hout, lookup_insert_eq by done.
    + intros j Hj%not_elem_of_cons. destruct Hj as [Hne Hj].
      by rewrite Hout, lookup_insert_ne by done.
Qed.

(** The first chain index that cannot be written decides the error. *)
Lemma chain_ids_loop_Err (good : list Z) (i : Z) (rest : list Z) :
  ∀ chain_ids : gmap Z ascii,
  Forall (fun j => -62 ≤ j < 62) good →
  ¬ (-62 ≤ i < 62) →
  chain_ids_loop (good ++ i :: rest) chain_ids
  = if decide (62 ≤ i) then Err (ValueError at_most_chains_msg) else Err IndexError.
Proof.
  induction good as [|j good IH]; intros chain_ids Hall Hi; simpl.
  - change (Z.of_nat PDB_MAX_CHAINS) with 62.
    destruct (decide (62 ≤ i)); [done|].
    by rewrite str_getitem_out_of_range by lia.
  - apply Forall_cons in Hall as [Hj Hall].
    rewrite decide_False by (change (Z.of_nat PDB_MAX_CHAINS) with 62; lia).
    destruct (str_getitem_chain_id j Hj) as (c & -> & _). cbn [mbind res_bind].
    by apply IH.
Qed.

Lemma sorted_split_first (P : Z → Prop) `{∀ x, Decision (P x)} (l : list Z) :
  ¬ Forall P l → ∃ good i rest, l = good ++ i :: rest ∧ Forall P good ∧ ¬ P i.
Proof.
  induction l as [|x l IH]; intros Hn; [destruct Hn; constructor|].
  destruct (decide (P x)) as [Hx|Hx].
  - destruct IH as (good & i & rest & -> & Hg & Hi).
    { intros Hl. apply Hn. by constructor. }
    exists (x :: good), i, rest. split; [done|]. split; [by constructor|done].
  - exists [], x, l. split; [done|]. split; [constructor|done].
Qed.

Lemma split_sorted_unique (a : ndarray Z) (i : Z) :
  i ∈ ravel a → ¬ (-62 ≤ i < 62) →
  ∃ good j rest, np_unique a = good ++ j :: rest
                 ∧ Forall (fun j => -62 ≤ j < 62) good ∧ ¬ (-62 ≤ j < 62)
                 ∧ j ∈ ravel a
                 ∧ (i = j ∨ j < i).
Proof.
  intros Hi Hbad.
  destruct (sorted_split_first (fun j => -62 ≤ j < 62) (np_unique a))
    as (good & j & rest & E & Hg & Hj).
  { intros Hall. rewrite Forall_forall in Hall.
    specialize (Hall i (proj2 (np_unique_elem a i) Hi)). lia. }
  exists good, j, rest. split; [done|]. split; [done|]. split; [done|].
  split; [apply np_unique_elem; rewrite E; set_solver|].
  pose proof (np_unique_sorted a) as Hsorted.
  apply np_unique_elem in Hi. rewrite E in Hi, Hsorted.
  apply elem_of_app in Hi as [Hi|Hi].
  { rewrite Forall_forall in Hg. specialize (Hg i Hi). lia. }
  apply StronglySorted_app_1_r in Hsorted.
  apply StronglySorted_inv in Hsorted as [_ Hrest].
  apply elem_of_cons in Hi as [->|Hi]; [by left|right].
  rewrite Forall_forall in Hrest. by apply Hrest.
Qed.

(** Chain indices from 62 on, and none below -62: [ValueError]. *)
Lemma chain_ids_loop_too_many (a : ndarray Z) :
  Forall (fun i => -62 ≤ i) (ravel a) →
  Exists (fun i => 62 ≤ i) (ravel a) →
  chain_ids_loop (np_unique a) ∅ = Err (ValueError at_most_chains_msg).
Proof.
  intros Hlow Hex. apply Exists_exists in Hex as (i & Hi & Hbig).
  destruct (split_sorted_unique a i Hi ltac:(lia))
    as (good & j & rest & E & Hg & Hj & Hja & _).
  rewrite E, chain_ids_loop_Err by done.
  rewrite decide_True; [done|].
  rewrite Forall_forall in Hlow. specialize (Hlow j Hja). lia.
Qed.

(** A chain index below -62: [IndexError]. *)
Lemma chain_ids_loop_out_of_range (a : ndarray Z) :
  Exists (fun i => i < -62) (ravel a) →
  chain_ids_loop (np_unique a) ∅ = Err IndexError.
Proof.
  intros Hex. apply Exists_exists in Hex as (i & Hi & Hlt).
  destruct (split_sorted_unique a i Hi ltac:(lia))
    as (good & j & rest & E & Hg & Hj & Hja & Hji).
  rewrite E, chain_ids_loop_Err by done.
  rewrite decide_False; [done|]. lia.
Qed.

Lemma aatype_check (restype_num : Z) (l : list Z) :
  existsb (fun a => restype_num <? a) l = true ↔ Exists (fun a => restype_num < a) l.
Proof.
  rewrite existsb_exists, Exists_exists. split.
  - intros (a & Ha%list_elem_of_In & Hlt%Z.ltb_lt). eauto.
  - intros (a & Ha%list_elem_of_In & Hlt%Z.ltb_lt). eauto.
Qed.

Section ToPdb.
Context {F : Type} `{Num F}.

Lemma to_pdb_chain_ids_aatype_ok (restype_num : Z) (prot : Protein F) :
  Forall (fun a => a ≤ restype_num) (ravel (aatype prot)) →
  to_pdb_chain_ids restype_num prot
  = chain_ids_loop (np_unique (ndmap int32 (chain_index prot))) ∅.
Proof.
  intros Hall. unfold to_pdb_chain_ids.
  destruct (existsb _ _) eqn:E; [|done].
  apply aatype_check, Exists_exists in E as (a & Ha & Hlt).
  rewrite Forall_forall in Hall. specialize (Hall a Ha). lia.
Qed.

(** X4. The start of [to_pdb]: a residue type above [restype_num] raises
    [ValueError]; otherwise the chain indices, cast to 32 bits, decide: when
    all lie in [-62, 62) the table maps each to the character of
    [PDB_CHAIN_IDS] at that index, counted from the end when negative; an
    index below -62 raises [IndexError]; and with none below -62, an index
    from 62 on raises [ValueError]. *)
Theorem to_pdb_chain_ids_cases (restype_num : Z) (prot : Protein F) :
  let chain_index := int32 <$> ravel (chain_index prot) in
  (Exists (fun a => restype_num < a) (ravel (aatype prot)) →
   to_pdb_chain_ids restype_num prot = Err (ValueError invalid_aatypes_msg))
  ∧ (Forall (fun a => a ≤ restype_num) (ravel (aatype prot)) →
     (Forall (fun i => -62 ≤ i < 62) chain_index →
      ∃ m, to_pdb_chain_ids restype_num prot = Ok m
           ∧ dom m = list_to_set chain_index
           ∧ ∀ i, i ∈ chain_index →
               m !! i = String.get (Z.to_nat (i mod 62)) PDB_CHAIN_IDS)
     ∧ (Exists (fun i => i < -62) chain_index →
        to_pdb_chain_ids restype_num prot = Err IndexError)
     ∧ (Forall (fun i => -62 ≤ i) chain_index →
        Exists (fun i => 62 ≤ i) chain_index →
        to_pdb_chain_ids restype_num prot = Err (ValueError at_most_chains_msg))).
Proof.
  intros ci. split.
  - intros Hex%aatype_check. unfold to_pdb_chain_ids. by rewrite Hex.
  - intros Hall. rewrite to_pdb_chain_ids_aatype_ok by done.
    unfold ci. rewrite <- ravel_ndmap. split; [|split].
    + intros Hr.
      destruct (chain_ids_loop_Ok (np_unique (ndmap int32 (chain_index prot))) ∅)
        as (m & Hm & Hdom & Hin & _).
      { apply Forall_forall. intros i Hi%np_unique_elem.
        rewrite Forall_forall in Hr. by apply Hr. }
      exists m. split; [done|]. split.
      * rewrite Hdom, dom_empty_L, (left_id_L ∅ (∪)). apply set_eq. intros i.
        rewrite !elem_of_list_to_set. apply np_unique_elem.
      * intros i Hi%np_unique_elem. by apply Hin.
    + apply chain_ids_loop_out_of_range.
    + apply chain_ids_loop_too_many.
Qed.

(** X5. [__post_init__] counts the distinct chain indices and [to_pdb] bounds
    their values: a protein with at most 62 distinct chain indices, one of
    them 62 or more (and none below -62), is built without error and cannot
    be written, [to_pdb] raises [ValueError]. *)
Theorem Protein_init_not_writable (restype_num : Z)
    (ap : value F) (aa : ndarray Z) (am : value F) (ri : ndarray Z)
    (bf : ndarray F) (ci : ndarray Z) (rm : option string)
    (pa : option (list string)) (pci : option (list Z)) :
  Forall (fun a => a ≤ restype_num) (ravel aa) →
  (size (list_to_set (ravel ci) : gset Z) ≤ 62)%nat →
  Forall (fun i => -62 ≤ int32 i) (ravel ci) →
  Exists (fun i => 62 ≤ int32 i) (ravel ci) →
  ∃ prot, Protein_init ap aa am ri bf ci rm pa pci = Ok prot
          ∧ to_pdb_chain_ids restype_num prot = Err (ValueError at_most_chains_msg).
Proof.
  intros Haa Hsize Hlow Hbig.
  exists (mkProtein ap aa am ri bf ci rm pa pci). split.
  - unfold Protein_init, post_init. cbn [chain_index].
    rewrite np_unique_length.
    by rewrite decide_False by (change PDB_MAX_CHAINS with 62%nat; lia).
  - rewrite to_pdb_chain_ids_aatype_ok by done. cbn [chain_index].
    apply chain_ids_loop_too_many; rewrite ravel_ndmap.
    + by apply Forall_fmap.
    + by apply Exists_fmap.
Qed.

End ToPdb.

Lemma to_pdb_chain_ids_cases_witness :
  ∃ m, to_pdb_chain_ids 20 (mkProtein (VArr (Array [])) (Array [Scalar 0; Scalar 20])
                              (VArr (Array [])) (Array [])
                              (Array (A:=Z) []) (Array [Scalar 1; Scalar (-1)])
                              None None None) = Ok m
       ∧ dom m = list_to_set [1; -1]
       ∧ ∀ i, i ∈ [1; -1] →
           m !! i = String.get (Z.to_nat (i mod 62)) PDB_CHAIN_IDS.
Proof.
  apply (proj2 (to_pdb_chain_ids_cases 20
                  (mkProtein (VArr (Array [])) (Array [Scalar 0; Scalar 20])
                     (VArr (Array [])) (Array [])
                     (Array (A:=Z) []) (Array [Scalar 1; Scalar (-1)])
                     None None None))).
  - repeat constructor; simpl; lia.
  - repeat constructor; vm_compute; congruence.
Defined.

Lemma Protein_init_not_writable_witness :
  ∃ prot, Protein_init (VArr (Array [])) (Array [Scalar 0]) (VArr (Array []))
            (Array [Scalar 1]) (Array (A:=Z) []) (Array [Scalar 62]) None None None
          = Ok prot
          ∧ to_pdb_chain_ids 20 prot = Err (ValueError at_most_chains_msg).
Proof.
  apply Protein_init_not_writable.
  - repeat constructor. simpl. lia.
  - vm_compute. lia.
  - repeat constructor. vm_compute. congruence.
  - constructor. vm_compute. congruence.
Defined.


Lemma contains_of_prefix (sub s : string) :
  String.prefix sub s = true → contains sub s = true.
Proof. destruct s; simpl; by intros ->. Qed.

Lemma contains_prefix (sub s : string) : contains sub (sub +:+ s) = true.
Proof.
  apply contains_of_prefix.
  induction sub as [|a sub IH]; simpl; [by destruct s|].
  destruct (ascii_dec a a); [exact IH|done].
Qed.

Lemma kept_line_parent p : kept_line (make_parent_line p) = false.
Proof.
  unfold kept_line, make_parent_line.
  change ("PARENT " +:+ join " " p) with ("PARENT" +:+ (" " +:+ join " " p)).
  by rewrite contains_prefix.
Qed.

Lemma kept_line_remark r : kept_line ("REMARK " +:+ r) = false.
Proof.
  unfold kept_line.
  change ("REMARK " +:+ r) with ("REMARK" +:+ (" " +:+ r)).
  rewrite (contains_prefix "REMARK"). by rewrite andb_false_r.
Qed.

Section LoopFacts.
Variable ppc : list (list string).

Lemma add_pdb_headers_loop_prefix (lines : list string) :
  ∀ cc out out',
    add_pdb_headers_loop ppc lines cc out = Ok out' → out `prefix_of` out'.
Proof.
  induction lines as [|l rest IH]; intros cc out out'; simpl.
  - by intros [= ->].
  - set (out1 := if negb (contains "PARENT" l) && negb (contains "REMARK" l)
                 then out ++ [l] else out).
    assert (out `prefix_of` out1) as Hp1.
    { unfold out1. destruct (_ && _); [by apply prefix_app_r|done]. }
    destruct (contains "TER" l).
    + destruct (getitem rest 0) as [next|e]; [|done]. cbn [mbind res_bind].
      destruct (negb (contains "END" next)).
      * intros Hrun%IH. etrans; [exact Hp1|].
        etrans; [|exact Hrun]. by apply prefix_app_r.
      * intros Hrun%IH. by etrans.
    + intros Hrun%IH. by etrans.
Qed.

Lemma add_pdb_headers_loop_last_TER (init : list string) (l : string) :
  contains "TER" l = true →
  ∀ cc out, add_pdb_headers_loop ppc (init ++ [l]) cc out = Err IndexError.
Proof.
  intros Hl. induction init as [|l0 init IH]; intros cc out; simpl.
  - by rewrite Hl.
  - destruct (contains "TER" l0); [|by apply IH].
    destruct (init ++ [l]) as [|next rest] eqn:E; [by destruct init|].
    cbn [getitem lookup list_lookup mbind res_bind].
    destruct (negb (contains "END" next)); by apply IH.
Qed.

Lemma filter_kept_singleton (l : string) :
  filter kept_line [l] = if kept_line l then [l] else [].
Proof.
  rewrite (filter_cons _ l), filter_nil.
  destruct (kept_line l) eqn:E.
  - rewrite decide_True; [done|]. exact I.
  - rewrite decide_False; [done|]. by intros [].
Qed.

Lemma kept_step (l : string) (out : list string) :
  let out1 := if kept_line l then out ++ [l] else out in
  filter kept_line out1 = filter kept_line out ++ filter kept_line [l]
  ∧ length out1 = (length out + length (filter kept_line [l]))%nat.
Proof.
  cbn zeta. rewrite filter_kept_singleton.
  destruct (kept_line l) eqn:E.
  - rewrite filter_app, length_app, filter_kept_singleton, E. done.
  - rewrite app_nil_r. simpl. split; [done|lia].
Qed.

Lemma parent_step (p : list string) (out : list string) :
  filter kept_line (out ++ [make_parent_line p]) = filter kept_line out.
Proof.
  rewrite filter_app, filter_kept_singleton, kept_line_parent.
  by rewrite app_nil_r.
Qed.

Lemma add_pdb_headers_loop_lines (lines : list string) :
  ∀ cc out out',
    add_pdb_headers_loop ppc lines cc out = Ok out' →
    filter kept_line out' = filter kept_line out ++ filter kept_line lines
    ∧ (length out' = length out + length (filter kept_line lines)
                     + chain_breaks lines)%nat.
Proof.
  induction lines as [|l rest IH]; intros cc out out'.
  - simpl. intros [= ->]. rewrite filter_nil, app_nil_r. split; [done|lia].
  - cbn [add_pdb_headers_loop chain_breaks]. fold (kept_line l).
    destruct (kept_step l out) as [Hf1 Hl1].
    set (out1 := if kept_line l then out ++ [l] else out) in *.
    assert (filter kept_line (l :: rest)
            = filter kept_line [l] ++ filter kept_line rest) as Hcons.
    { by rewrite <- filter_app. }
    assert (length (filter kept_line (l :: rest))
            = (length (filter kept_line [l]) + length (filter kept_line rest))%nat)
      as Hlen by (by rewrite Hcons, length_app).
    destruct (contains "TER" l) eqn:Et.
    + destruct rest as [|next rest']; [done|].
      cbn [getitem lookup list_lookup mbind res_bind andb].
      destruct (negb (contains "END" next)) eqn:Ee.
      * intros [Hf Hl]%IH. split.
        -- rewrite Hf, parent_step, Hf1, Hcons. by rewrite <- (assoc_L (++)).
        -- rewrite Hl, Hlen, length_app, Hl1. simpl. lia.
      * intros [Hf Hl]%IH. split.
        -- rewrite Hf, Hf1, Hcons. by rewrite <- (assoc_L (++)).
        -- rewrite Hl, Hlen, Hl1. simpl. lia.
    + intros [Hf Hl]%IH. split.
      * rewrite Hf, Hf1, Hcons. by rewrite <- (assoc_L (++)).
      * rewrite Hl, Hlen, Hl1. destruct rest; simpl; lia.
Qed.

End LoopFacts.


Lemma parent_dict_foldl (pairs : list (string * Z)) :
  ∀ (d : gmap Z (list string)) (k : Z),
    foldl (fun parent_dict pi =>
             let parent_dict :=
               match parent_dict !! pi.2 with
               | Some _ => parent_dict
               | None => <[pi.2 := []]> parent_dict
               end in
             <[pi.2 := default [] (parent_dict !! pi.2) ++ [pi.1]]> parent_dict)
          d pairs !! k
    = match parents_of_chain pairs k with
      | [] => d !! k
      | g => Some (default [] (d !! k) ++ g)
      end.
Proof.
  induction pairs as [|[p i] pairs IH]; intros d k; [done|].
  cbn [foldl]. rewrite IH. unfold parents_of_chain. rewrite filter_cons.
  cbn [fst snd].
  assert (∀ d' : gmap Z (list string),
            default [] (match d' !! i with
                        | Some _ => d'
                        | None => <[i := []]> d'
                        end !! i) = default [] (d' !! i)) as Hdef.
  { intros d'. destruct (d' !! i) eqn:E; [by rewrite E|by rewrite lookup_insert_eq]. }
  destruct (decide (i = k)) as [->|Hne].
  - rewrite lookup_insert_eq, Hdef. cbn [fmap list_fmap fst default].
    destruct ((filter (fun pi => pi.2 = k) pairs).*1) as [|g gs]; [done|].
    unfold id. by rewrite <- (assoc_L (++)).
  - rewrite lookup_insert_ne by done.
    assert (match d !! i with
            | Some _ => d
            | None => <[i := []]> d
            end !! k = d !! k) as ->; [|done].
    destruct (d !! i); [done|]. by rewrite lookup_insert_ne.
Qed.

Lemma parent_dict_of_lookup (pairs : list (string * Z)) (k : Z) :
  parent_dict_of pairs !! k
  = match parents_of_chain pairs k with
    | [] => None
    | g => Some g
    end.
Proof.
  unfold parent_dict_of. rewrite parent_dict_foldl, lookup_empty.
  by destruct (parents_of_chain pairs k).
Qed.

Lemma parents_of_chain_swap (ps : list string) : ∀ (pci : list Z) (k : Z),
  (filter (fun ip => ip.1 = k) (zip pci ps)).*2 = parents_of_chain (zip ps pci) k.
Proof.
  unfold parents_of_chain.
  induction ps as [|p ps IH]; intros [|i pci] k; try done.
  cbn [zip zip_with]. rewrite !filter_cons. cbn [fst snd].
  destruct (decide (i = k)); cbn [fmap list_fmap fst snd]; by rewrite IH.
Qed.

Lemma py_max_nonempty (l : list Z) : l ≠ [] → ∃ m, py_max l = Ok m.
Proof. destruct l; [done|]. simpl. eauto. Qed.

Lemma parent_dict_of_nonempty (p : string) (i : Z) (pairs : list (string * Z)) :
  (map_to_list (parent_dict_of ((p, i) :: pairs))).*1 ≠ [].
Proof.
  intros Hnil. apply fmap_nil_inv in Hnil. apply map_to_list_empty_iff in Hnil.
  pose proof (parent_dict_of_lookup ((p, i) :: pairs) i) as Hl.
  rewrite Hnil, lookup_empty in Hl. unfold parents_of_chain in Hl.
  rewrite filter_cons in Hl. cbn [snd] in Hl. by rewrite decide_True in Hl.
Qed.

Section HeaderFacts.
Context {F : Type}.
Implicit Types prot : Protein F.

Lemma parents_per_chain_of_cases prot :
  parents_per_chain_of prot = Err IndexError
  ∨ ∃ ppc, parents_per_chain_of prot = Ok ppc.
Proof.
  unfold parents_per_chain_of.
  destruct (parents prot) as [ps|]; [|eauto].
  destruct (decide _) as [Hlen|]; [|eauto].
  destruct (parents_chain_index prot) as [pci|]; [|eauto].
  destruct pci as [|i pci]; [by left|].
  destruct ps as [|p ps]; [simpl in Hlen; lia|].
  cbn [getitem lookup list_lookup mbind res_bind zip zip_with].
  destruct (py_max_nonempty _ (parent_dict_of_nonempty p i (zip ps pci))) as [m Hm].
  change (zip_with pair ps pci) with (zip ps pci). rewrite Hm.
  cbn [mbind res_bind]. eauto.
Qed.

(** X10. [add_pdb_headers] raises [IndexError] on every string whose last line
    holds [TER]: the loop reads [lines[i + 1]] after a line with [TER]. *)
Theorem add_pdb_headers_TER_last prot (pdb_str : string) (init : list string)
    (l : string) :
  split_on newline pdb_str = init ++ [l] →
  contains "TER" l = true →
  add_pdb_headers prot pdb_str = Err IndexError.
Proof.
  intros Hsplit Hl. unfold add_pdb_headers, add_pdb_headers_lines. rewrite Hsplit.
  destruct (parents_per_chain_of_cases prot) as [->|[ppc ->]]; [done|].
  cbn [mbind res_bind].
  destruct ppc as [|first ppc]; [done|].
  cbn [getitem lookup list_lookup mbind res_bind].
  by rewrite add_pdb_headers_loop_last_TER.
Qed.

Lemma add_pdb_headers_lines_count prot (lines out : list string) :
  add_pdb_headers_lines prot lines = Ok out →
  filter kept_line out = filter kept_line lines
  ∧ (length out = length (remark_lines prot) + 1
                  + length (filter kept_line lines) + chain_breaks lines)%nat.
Proof.
  unfold add_pdb_headers_lines.
  destruct (parents_per_chain_of prot) as [ppc|]; [|done]. cbn [mbind res_bind].
  destruct (getitem ppc 0) as [first|]; [|done]. cbn [mbind res_bind].
  intros [Hf Hl]%add_pdb_headers_loop_lines.
  rewrite parent_step in Hf. rewrite length_app in Hl. cbn [length] in Hl.
  unfold remark_lines. destruct (remark prot) as [r|].
  - rewrite app_nil_l, filter_kept_singleton, kept_line_remark in Hf.
    split; [done|]. simpl in *. lia.
  - split; [done|]. simpl in *. lia.
Qed.

(** X9. Whenever [add_pdb_headers] returns, its result starts with the lines
    of [get_pdb_headers] for chain 0 (unless [parents_chain_index] is given
    without [parents], where [get_pdb_headers] raises). *)
Theorem add_pdb_headers_first_header prot (lines out : list string) :
  add_pdb_headers_lines prot lines = Ok out →
  (parents prot = None → parents_chain_index prot = None) →
  ∃ hs, get_pdb_headers prot 0 = Val hs ∧ hs `prefix_of` out.
Proof.
  unfold add_pdb_headers_lines. intros Hrun Hnone.
  destruct (parents_per_chain_of prot) as [ppc|] eqn:Eppc; [|done].
  cbn [mbind res_bind] in Hrun.
  destruct (getitem ppc 0) as [first|] eqn:Efirst; [|done].
  cbn [mbind res_bind] in Hrun.
  apply add_pdb_headers_loop_prefix in Hrun.
  eexists. split; [|exact Hrun].
  unfold get_pdb_headers, make_parent_line. unfold parents_per_chain_of in Eppc.
  destruct (parents prot) as [ps|].
  2:{ rewrite Hnone by done. injection Eppc as <-. by injection Efirst as <-. }
  destruct (parents_chain_index prot) as [pci|].
  - cbn [mbind result_bind]. rewrite parents_of_chain_swap.
    destruct (decide (0 < length ps)%nat) as [Hlen|Hlen].
    + destruct (getitem pci 0) as [cur|]; [|done]. cbn [mbind res_bind] in Eppc.
      destruct (py_max _) as [max_idx|]; [|done]. cbn [mbind res_bind] in Eppc.
      injection Eppc as <-. unfold getitem in Efirst.
      rewrite list_lookup_fmap in Efirst.
      destruct (seqZ 0 (max_idx + 1) !! 0%nat) as [z|] eqn:Ez; [|done].
      apply lookup_seqZ in Ez as [-> _]. cbn [fmap option_fmap option_map] in Efirst.
      injection Efirst as <-. change (0 + Z.of_nat 0) with 0.
      rewrite parent_dict_of_lookup.
      by destruct (parents_of_chain (zip ps pci) 0).
    + destruct ps; [|simpl in Hlen; lia].
      injection Eppc as <-. by injection Efirst as <-.
  - cbn [mbind result_bind].
    destruct (decide (0 < length ps)%nat) as [Hlen|Hlen].
    + injection Eppc as <-. injection Efirst as <-.
      by destruct ps; [simpl in Hlen; lia|].
    + destruct ps; [|simpl in Hlen; lia].
      injection Eppc as <-. by injection Efirst as <-.
Qed.

End HeaderFacts.


Lemma add_pdb_headers_loop_Ok (ppc : list (list string)) (lines : list string) :
  (∀ l, last lines = Some l → contains "TER" l = false) →
  ∀ cc out, ∃ out', add_pdb_headers_loop ppc lines cc out = Ok out'.
Proof.
  induction lines as [|l rest IH]; intros Hlast cc out; [simpl; eauto|].
  cbn [add_pdb_headers_loop].
  assert (∀ l', last rest = Some l' → contains "TER" l' = false) as Hrest.
  { intros l' Hl'. apply Hlast. destruct rest; [done|]. exact Hl'. }
  destruct (contains "TER" l) eqn:Et; [|by apply IH].
  destruct rest as [|next rest'].
  { rewrite (Hlast l) in Et; done. }
  cbn [getitem lookup list_lookup mbind res_bind].
  destruct (negb (contains "END" next)); by apply IH.
Qed.

Section HeaderFacts2.
Context {F : Type}.
Implicit Types prot : Protein F.

Lemma add_pdb_headers_lines_Ok prot (lines : list string) :
  parents_chain_index prot = None →
  (∀ l, last lines = Some l → contains "TER" l = false) →
  ∃ out, add_pdb_headers_lines prot lines = Ok out
         ∧ remark_lines prot
             ++ [make_parent_line (match parents prot with
                                   | Some (p :: ps) => p :: ps
                                   | _ => ["N/A"]
                                   end)] `prefix_of` out.
Proof.
  intros Hpci Hlast. unfold add_pdb_headers_lines.
  unfold parents_per_chain_of. rewrite Hpci.
  set (first := match parents prot with
                | Some (p :: ps) => p :: ps
                | _ => ["N/A"]
                end).
  assert ((if parents prot is Some ps then
             if decide (0 < length ps)%nat then Ok [ps] else Ok [["N/A"]]
           else Ok [["N/A"]]) = Ok [first]) as ->.
  { unfold first. by destruct (parents prot) as [[|p ps]|]. }
  cbn [mbind res_bind getitem lookup list_lookup].
  destruct (add_pdb_headers_loop_Ok [first] _ Hlast 0%nat
              (match remark prot with
               | Some remark => [] ++ ["REMARK " +:+ remark]
               | None => []
               end ++ [make_parent_line first])) as [out Hout].
  rewrite Hout. exists out. split; [done|].
  apply add_pdb_headers_loop_prefix in Hout. unfold remark_lines.
  by destruct (remark prot).
Qed.

(** X6. [get_pdb_headers] raises [TypeError] when [parents_chain_index] is
    given without [parents]; otherwise it returns the REMARK line, if there
    is a remark, and one PARENT line, whose list is never empty: the parents
    of the chain asked for (all of them without [parents_chain_index]), or
    [N/A] when there is none. *)
Theorem get_pdb_headers_cases prot (chain_id : Z) :
  (parents prot = None → is_Some (parents_chain_index prot) →
   get_pdb_headers prot chain_id = Exc TypeError)
  ∧ (∀ ps, parents prot = Some ps →
     ∃ selected,
       get_pdb_headers prot chain_id
       = Val (remark_lines prot ++ [make_parent_line selected])
       ∧ selected ≠ []
       ∧ match parents_chain_index prot with
         | Some pci =>
             let mine := parents_of_chain (zip ps pci) chain_id in
             selected = if decide (mine = []) then ["N/A"] else mine
         | None => selected = if decide (ps = []) then ["N/A"] else ps
         end)
  ∧ (parents prot = None → parents_chain_index prot = None →
     get_pdb_headers prot chain_id
     = Val (remark_lines prot ++ [make_parent_line ["N/A"]])).
Proof.
  unfold get_pdb_headers, remark_lines, make_parent_line. split; [|split].
  - intros -> [pci ->]. done.
  - intros ps ->. destruct (parents_chain_index prot) as [pci|].
    + cbn [mbind result_bind]. rewrite parents_of_chain_swap.
      destruct (parents_of_chain (zip ps pci) chain_id) as [|p ps'] eqn:E.
      * exists ["N/A"]. destruct (remark prot); by rewrite ?E.
      * exists (p :: ps'). destruct (remark prot); by rewrite ?E.
    + cbn [mbind result_bind].
      destruct ps as [|p ps'].
      * exists ["N/A"]. by destruct (remark prot).
      * exists (p :: ps'). by destruct (remark prot).
  - intros -> ->. by destruct (remark prot).
Qed.

End HeaderFacts2.

(** ** Lines *)

Lemma one_line_app (a b : string) :
  one_line (a +:+ b) ↔ one_line a ∧ one_line b.
Proof.
  unfold one_line. induction a as [|c a IH]; simpl.
  - split; [by split|by intros [_ ?]].
  - rewrite !Forall_cons, IH. tauto.
Qed.

Lemma split_on_lines (s : string) : Forall one_line (split_on newline s).
Proof.
  induction s as [|a s IH]; simpl.
  - repeat constructor.
  - destruct (Ascii.eqb_spec a newline) as [->|Hne].
    + constructor; [constructor|done].
    + destruct (split_on newline s) as [|x l]; [repeat constructor; done|].
      apply Forall_cons in IH as [Hx Hl]. constructor; [|done].
      by constructor.
Qed.

Lemma split_on_line_break (l rest : string) :
  one_line l →
  split_on newline (l +:+ String newline rest) = l :: split_on newline rest.
Proof.
  induction l as [|a l IH]; intros Hl.
  - change ("" +:+ String newline rest) with (String newline rest).
    cbn [split_on]. by rewrite Ascii.eqb_refl.
  - apply Forall_cons in Hl as [Ha Hl].
    change (String a l +:+ String newline rest)
      with (String a (l +:+ String newline rest)).
    cbn [split_on]. rewrite (proj2 (Ascii.eqb_neq a newline) Ha).
    by rewrite IH.
Qed.

Lemma split_on_one_line (l : string) : one_line l → split_on newline l = [l].
Proof.
  induction l as [|a l IH]; intros Hl; [done|].
  apply Forall_cons in Hl as [Ha Hl].
  cbn [split_on]. rewrite (proj2 (Ascii.eqb_neq a newline) Ha).
  by rewrite IH.
Qed.

(** Joining lines and splitting again gives the lines back. *)
Lemma split_on_join (ls : list string) :
  ls ≠ [] → Forall one_line ls →
  split_on newline (join (String newline "") ls) = ls.
Proof.
  induction ls as [|l ls IH]; intros Hne Hall; [done|].
  apply Forall_cons in Hall as [Hl Hall].
  destruct ls as [|l2 ls].
  - by apply split_on_one_line.
  - change (join (String newline "") (l :: l2 :: ls))
      with (l +:+ String newline (join (String newline "") (l2 :: ls))).
    rewrite split_on_line_break by done. by rewrite IH.
Qed.

Lemma one_line_join_space (ps : list string) :
  Forall one_line ps → one_line (join " " ps).
Proof.
  induction 1 as [|p ps Hp Hps IH]; [constructor|].
  destruct ps as [|q ps]; [done|].
  change (join " " (p :: q :: ps)) with (p +:+ String " " (join " " (q :: ps))).
  apply one_line_app. split; [done|]. constructor; [done|exact IH].
Qed.

Lemma one_line_parent_line (ps : list string) :
  Forall one_line ps → one_line (make_parent_line ps).
Proof.
  intros Hps. unfold make_parent_line. apply one_line_app.
  split; [by repeat constructor|by apply one_line_join_space].
Qed.

Lemma add_pdb_headers_loop_one_line (ppc : list (list string))
    (lines : list string) :
  Forall (Forall one_line) ppc → Forall one_line lines →
  ∀ cc out out',
    Forall one_line out →
    add_pdb_headers_loop ppc lines cc out = Ok out' → Forall one_line out'.
Proof.
  intros Hppc. induction 1 as [|l rest Hl Hrest IH]; intros cc out out' Hout.
  - simpl. by intros [= <-].
  - cbn [add_pdb_headers_loop].
    set (out1 := if negb (contains "PARENT" l) && negb (contains "REMARK" l)
                 then out ++ [l] else out).
    assert (Forall one_line out1) as Hout1.
    { unfold out1. destruct (_ && _); [|done].
      apply Forall_app. split; [done|by constructor]. }
    destruct (contains "TER" l); [|by apply IH].
    destruct (getitem rest 0) as [next|e]; [|done]. cbn [mbind res_bind].
    destruct (negb (contains "END" next)); [|by apply IH].
    apply IH. apply Forall_app. split; [done|]. constructor; [|done].
    apply one_line_parent_line.
    destruct (decide _) as [Hin|]; [|by repeat constructor].
    rewrite Forall_forall in Hppc. apply Hppc.
    apply list_elem_of_lookup_total_2. lia.
Qed.

Section JoinedLines.
Context {F : Type}.
Implicit Types prot : Protein F.

Lemma parents_per_chain_of_one_line prot (ppc : list (list string)) :
  (∀ ps, parents prot = Some ps → Forall one_line ps) →
  parents_per_chain_of prot = Ok ppc → Forall (Forall one_line) ppc.
Proof.
  intros Hps. unfold parents_per_chain_of.
  assert (Forall one_line ["N/A"]) as Hna by (by repeat constructor).
  destruct (parents prot) as [ps|]; [|intros [= <-]; by constructor].
  specialize (Hps ps eq_refl).
  destruct (decide _); [|intros [= <-]; by constructor].
  destruct (parents_chain_index prot) as [pci|]; [|intros [= <-]; by constructor].
  destruct (getitem pci 0); [|done]. cbn [mbind res_bind].
  destruct (py_max _) as [max_idx|]; [|done]. cbn [mbind res_bind].
  intros [= <-]. apply Forall_fmap, Forall_forall. intros i _. simpl.
  rewrite parent_dict_of_lookup.
  destruct (parents_of_chain (zip ps pci) i) as [|g gs] eqn:E; [done|].
  simpl. rewrite <- E. unfold parents_of_chain.
  apply Forall_forall. intros p (pi & -> & Hpi)%list_elem_of_fmap.
  apply list_elem_of_filter in Hpi as [_ Hpi].
  rewrite Forall_forall in Hps. apply Hps.
  destruct pi as [p i']. by apply elem_of_zip_l in Hpi.
Qed.

(** The lines of the string [add_pdb_headers] returns are the lines it
    joined, when neither the remark nor a parent holds a line break. *)
Lemma add_pdb_headers_split prot (pdb_str s : string) :
  (∀ r, remark prot = Some r → one_line r) →
  (∀ ps, parents prot = Some ps → Forall one_line ps) →
  add_pdb_headers prot pdb_str = Ok s →
  add_pdb_headers_lines prot (split_on newline pdb_str)
  = Ok (split_on newline s).
Proof.
  intros Hr Hps. unfold add_pdb_headers.
  destruct (add_pdb_headers_lines prot (split_on newline pdb_str)) as [out|] eqn:E;
    [|done].
  cbn [mbind res_bind]. intros [= <-]. f_equal. symmetry.
  unfold add_pdb_headers_lines in E.
  destruct (parents_per_chain_of prot) as [ppc|] eqn:Eppc; [|done].
  cbn [mbind res_bind] in E.
  destruct (getitem ppc 0) as [first|] eqn:Efirst; [|done].
  cbn [mbind res_bind] in E.
  pose proof (parents_per_chain_of_one_line prot ppc Hps Eppc) as Hppc.
  assert (Forall one_line first) as Hfirst.
  { rewrite Forall_forall in Hppc. apply Hppc. unfold getitem in Efirst.
    destruct (ppc !! 0%nat) eqn:E0; [|done]. injection Efirst as <-.
    by eapply list_elem_of_lookup_2. }
  apply split_on_join.
  - apply add_pdb_headers_loop_prefix in E. intros ->.
    apply prefix_nil_inv in E. by destruct (remark prot).
  - eapply add_pdb_headers_loop_one_line; [exact Hppc|apply split_on_lines| |exact E].
    apply Forall_app. split.
    + destruct (remark prot) as [r|]; [|constructor].
      constructor; [|constructor]. apply one_line_app.
      split; [by repeat constructor|by apply Hr].
    + constructor; [by apply one_line_parent_line|constructor].
Qed.

End JoinedLines.

Section HeaderLines.
Context {F : Type}.
Implicit Types prot : Protein F.

(** X7. Without [parents_chain_index], on a string whose last line does not
    hold [TER], and with a remark and parents that hold no line break,
    [add_pdb_headers] returns a string whose lines start with the REMARK
    line, if any, and the PARENT line of all parents ([N/A] without
    parents), and whose lines with neither [PARENT] nor [REMARK] in them
    are those of the string given, in order. *)
Theorem add_pdb_headers_returns prot (pdb_str : string) :
  parents_chain_index prot = None →
  (∀ l, last (split_on newline pdb_str) = Some l → contains "TER" l = false) →
  (∀ r, remark prot = Some r → one_line r) →
  (∀ ps, parents prot = Some ps → Forall one_line ps) →
  ∃ s, add_pdb_headers prot pdb_str = Ok s
       ∧ remark_lines prot
           ++ [make_parent_line (match parents prot with
                                 | Some (p :: ps) => p :: ps
                                 | _ => ["N/A"]
                                 end)] `prefix_of` split_on newline s
       ∧ filter kept_line (split_on newline s)
         = filter kept_line (split_on newline pdb_str).
Proof.
  intros Hpci Hlast Hr Hps.
  destruct (add_pdb_headers_lines_Ok prot _ Hpci Hlast) as (out & Hout & Hpre).
  exists (join (String newline "") out).
  assert (add_pdb_headers prot pdb_str = Ok (join (String newline "") out)) as Hs.
  { unfold add_pdb_headers. by rewrite Hout. }
  split; [done|].
  pose proof (add_pdb_headers_split prot _ _ Hr Hps Hs) as Hsplit.
  rewrite Hout in Hsplit. injection Hsplit as <-.
  split; [done|]. by apply (add_pdb_headers_lines_count prot).
Qed.

(** X8. Whenever [add_pdb_headers] returns, with a remark and parents that
    hold no line break, the lines without [PARENT] and [REMARK] of the
    string returned are exactly those of the string given, in order, and
    the string returned has one PARENT line at the top and one after every
    chain end (a line with [TER] whose next line has no [END]) more,
    besides the REMARK line. *)
Theorem add_pdb_headers_lines_kept prot (pdb_str s : string) :
  (∀ r, remark prot = Some r → one_line r) →
  (∀ ps, parents prot = Some ps → Forall one_line ps) →
  add_pdb_headers prot pdb_str = Ok s →
  filter kept_line (split_on newline s)
  = filter kept_line (split_on newline pdb_str)
  ∧ (length (split_on newline s)
     = length (remark_lines prot) + 1
       + length (filter kept_line (split_on newline pdb_str))
       + chain_breaks (split_on newline pdb_str))%nat.
Proof.
  intros Hr Hps Hs.
  apply (add_pdb_headers_lines_count prot).
  by apply add_pdb_headers_split.
Qed.

End HeaderLines.

Lemma add_pdb_headers_TER_last_witness :
  add_pdb_headers (headers_only None (Some ["6xyz_A"]) None)
    (join (String newline "") ["MODEL     1"; "ATOM      1"; "TER       2"])
  = Err IndexError.
Proof.
  apply (add_pdb_headers_TER_last (headers_only None (Some ["6xyz_A"]) None) _
           ["MODEL     1"; "ATOM      1"] "TER       2"); reflexivity.
Defined.

Lemma add_pdb_headers_lines_kept_witness :
  filter kept_line
    ["REMARK m1"; "PARENT a c"; "MODEL     1"; "ATOM      1"; "TER       2";
     "PARENT N/A"; "ATOM      3"; "TER       4"; "ENDMDL"; "END"; ""]
  = filter kept_line (split_on newline two_chains_pdb)
  ∧ (11 = length (remark_lines headers_ex)
          + 1 + length (filter kept_line (split_on newline two_chains_pdb))
          + chain_breaks (split_on newline two_chains_pdb))%nat.
Proof.
  apply (add_pdb_headers_lines_kept headers_ex two_chains_pdb
           (join (String newline "")
              ["REMARK m1"; "PARENT a c"; "MODEL     1"; "ATOM      1"; "TER       2";
               "PARENT N/A"; "ATOM      3"; "TER       4"; "ENDMDL"; "END"; ""])).
  - intros r [= <-]. by repeat constructor.
  - intros ps [= <-]. repeat constructor; done.
  - vm_compute. reflexivity.
Defined.

Lemma add_pdb_headers_first_header_witness :
  ∃ hs, get_pdb_headers headers_ex 0 = Val hs
        ∧ hs `prefix_of`
            ["REMARK m1"; "PARENT a c"; "MODEL     1"; "ATOM      1"; "TER       2";
             "PARENT N/A"; "ATOM      3"; "TER       4"; "ENDMDL"; "END"; ""].
Proof.
  apply (add_pdb_headers_first_header
           headers_ex
           (split_on newline two_chains_pdb)).
  - vm_compute. reflexivity.
  - discriminate.
Defined.

Lemma add_pdb_headers_returns_witness :
  ∃ s, add_pdb_headers (headers_only None (Some ["6xyz_A"]) None) two_chains_pdb
       = Ok s
       ∧ [] ++ [make_parent_line ["6xyz_A"]] `prefix_of` split_on newline s
       ∧ filter kept_line (split_on newline s)
         = filter kept_line (split_on newline two_chains_pdb).
Proof.
  apply (add_pdb_headers_returns (headers_only None (Some ["6xyz_A"]) None)
           two_chains_pdb).
  - reflexivity.
  - intros l. vm_compute. by intros [= <-].
  - intros r [=].
  - intros ps [= <-]. repeat constructor; done.
Defined.


Lemma length_string_app (s1 s2 : string) :
  String.length (s1 +:+ s2) = (String.length s1 + String.length s2)%nat.
Proof. induction s1 as [|a s1 IH]; simpl; [done|]. by rewrite IH. Qed.

Lemma length_spaces (n : nat) : String.length (spaces n) = n.
Proof. induction n as [|n IH]; simpl; [done|]. by rewrite IH. Qed.

Lemma length_rjust (w : nat) (s : string) :
  String.length (rjust w s) = (w `max` String.length s)%nat.
Proof. unfold rjust. rewrite length_string_app, length_spaces. lia. Qed.

Lemma length_ljust (w : nat) (s : string) :
  String.length (ljust w s) = (w `max` String.length s)%nat.
Proof. unfold ljust. rewrite length_string_app, length_spaces. lia. Qed.

Lemma pretty_N_go_length (k : nat) : ∀ (x : N) (s : string),
  (x < 10 ^ N.of_nat k)%N →
  (String.length (pretty_N_go x s) ≤ String.length s + k)%nat.
Proof.
  induction k as [|k IH]; intros x s Hx.
  - assert (x = 0%N) as -> by (simpl in Hx; lia). rewrite pretty_N_go_0. lia.
  - destruct (decide (x = 0%N)) as [->|Hne]; [rewrite pretty_N_go_0; lia|].
    rewrite pretty_N_go_step by lia.
    etrans; [apply IH|simpl; lia].
    apply N.Div0.div_lt_upper_bound.
    rewrite Nat2N.inj_succ, N.pow_succ_r' in Hx. lia.
Qed.

Lemma pretty_N_length (k : nat) (x : N) :
  (0 < k)%nat → (x < 10 ^ N.of_nat k)%N → (String.length (pretty x) ≤ k)%nat.
Proof.
  intros Hk Hx. unfold pretty, pretty_N.
  destruct (decide (x = 0%N)); [simpl; lia|].
  by apply (pretty_N_go_length k x "").
Qed.

Lemma pretty_Z_length (k : nat) (z : Z) :
  (0 < k)%nat → -10 ^ Z.of_nat k < z < 10 ^ Z.of_nat k →
  (String.length (pretty z) ≤ if decide (z < 0)%Z then S k else k)%nat.
Proof.
  intros Hk Hz. unfold pretty, pretty_Z.
  assert (∀ p : positive, Z.pos p < 10 ^ Z.of_nat k →
            (String.length (pretty p) ≤ k)%nat) as Hpos.
  { intros p Hp. unfold pretty, pretty_positive. apply pretty_N_length; [done|].
    apply N2Z.inj_lt. rewrite N2Z.inj_pow, nat_N_Z. simpl. lia. }
  destruct z as [|p|p].
  - simpl. lia.
  - rewrite decide_False by lia. apply Hpos. lia.
  - rewrite decide_True by lia. simpl. apply le_n_S, Hpos. lia.
Qed.

(** X11. The TER record of [_chain_end]: the fields are padded and never cut,
    so the record has 26 characters when the atom index has at most five
    digits, the residue index lies between -999 and 9999, the residue name
    has at most three characters and the chain name at most one, and is
    longer otherwise. *)
Theorem chain_end_length (atom_index : Z) (end_resname chain_name : string)
    (residue_index : Z) :
  String.length (_chain_end atom_index end_resname chain_name residue_index)
  = (6 + (5 `max` String.length (pretty atom_index)) + 6
     + (3 `max` String.length end_resname) + 1
     + (1 `max` String.length chain_name)
     + (4 `max` String.length (pretty residue_index)))%nat
  ∧ (0 ≤ atom_index < 100000 →
     (String.length end_resname ≤ 3)%nat →
     (String.length chain_name ≤ 1)%nat →
     -1000 < residue_index < 10000 →
     String.length (_chain_end atom_index end_resname chain_name residue_index)
     = 26%nat).
Proof.
  assert (String.length (_chain_end atom_index end_resname chain_name residue_index)
    = (6 + (5 `max` String.length (pretty atom_index)) + 6
       + (3 `max` String.length end_resname) + 1
       + (1 `max` String.length chain_name)
       + (4 `max` String.length (pretty residue_index)))%nat) as Hlen.
  { unfold _chain_end. rewrite !length_string_app, !length_rjust, length_ljust.
    simpl String.length. lia. }
  split; [exact Hlen|].
  intros Ha Hr Hc Hi. rewrite Hlen.
  pose proof (pretty_Z_length 5 atom_index ltac:(lia) ltac:(simpl; lia)) as Ha'.
  rewrite decide_False in Ha' by lia.
  assert (String.length (pretty residue_index) ≤ 4)%nat as Hi'.
  { destruct (decide (residue_index < 0)).
    - pose proof (pretty_Z_length 3 residue_index ltac:(lia) ltac:(simpl; lia)) as H3.
      rewrite decide_True in H3 by done. lia.
    - pose proof (pretty_Z_length 4 residue_index ltac:(lia) ltac:(simpl; lia)) as H4.
      rewrite decide_False in H4 by done. lia. }
  lia.
Qed.

Lemma chain_end_length_witness :
  String.length (_chain_end 1234 "ALA" "A" (-12)) = 26%nat.
Proof.
  apply (proj2 (chain_end_length 1234 "ALA" "A" (-12))); simpl; lia.
Defined.


Close Scope Z_scope.

(** * Further properties of [msa.py] *)

Lemma fmap_seq_const {A} (t : A) (n : nat) : ∀ s : nat,
  (fun _ => t) <$> seq s n = replicate n t.
Proof.
  induction n as [|n IH]; intros s; [done|].
  cbn [seq replicate]. rewrite fmap_cons. by rewrite IH.
Qed.

Section StackExtras.
Context {F G : Type} `{Num F}.
Implicit Types (B : backend F G) (σ : world F G).

(** What the row block leaves behind: the handle it took is released, and
    only a draw of dropout touches the generators. *)
Lemma Row_run_world B w (self : MSARowAttentionWithPairBias.t F)
    (M_raw Z : nat → T4 F) (M_mask : nat → T3 F) σ rs σ' tr :
  run_spmd B w (fun r =>
      MSARowAttentionWithPairBias.forward self (M_raw r) (Z r) (M_mask r)) σ
  = Ok (rs, σ', tr) →
  inflight σ' = inflight σ
  ∧ (MSARowAttentionWithPairBias.training self = false → σ' = σ).
Proof.
  unfold MSARowAttentionWithPairBias.forward.
  cbn [mbind mret prog_mbind prog_ret prog_bind gather_async].
  rewrite run_spmd_GatherAsync. destruct w as [|w']; [done|]. cbn zeta.
  cbn [mbind mret prog_mbind prog_ret prog_bind SelfAttention.forward wait].
  intros (tr1 & Hrun & ->)%logged_Ok. revert Hrun.
  rewrite run_spmd_Wait. cbn [inflight gens].
  rewrite lookup_insert_eq. cbn [cat4 mbind res_bind].
  rewrite world_restore by done.
  intros (tr2 & Hrun & ->)%logged_Ok. revert Hrun.
  unfold bias_dropout_add.
  destruct (MSARowAttentionWithPairBias.training self).
  - cbn [mbind mret prog_mbind prog_ret prog_bind dropout].
    rewrite run_spmd_Dropout by lia.
    destruct (decide (length (gens σ) = S w')); [|done]. cbn zeta.
    intros (tr3 & Hrun & ->)%logged_Ok. revert Hrun.
    unfold mret, prog_ret. rewrite run_spmd_Ret by lia.
    intros [= _ <- _]. split; [done|]. done.
  - cbn [mbind mret prog_mbind prog_ret prog_bind].
    unfold mret, prog_ret. rewrite run_spmd_Ret by lia.
    intros [= _ <- _]. done.
Qed.

Lemma stack_sequence_frame B w (row : MSARowAttentionWithPairBias.t F)
    (col : T4 F → T3 F → T4 F) (trans : Transition.t F)
    (node pair : nat → T4 F) (node_mask : T3 F) σ outs σ' tr :
  stack_sequence B w row col trans node pair node_mask σ = Ok (outs, σ', tr) →
  inflight σ' = inflight σ
  ∧ (MSARowAttentionWithPairBias.training row = false → σ' = σ)
  ∧ tr = EvGatherAsync 1 (fresh (dom (inflight σ)))
         :: EvWait (fresh (dom (inflight σ)))
         :: (if MSARowAttentionWithPairBias.training row then [EvDropout] else [])
         ++ [EvRowToCol]
  ∧ length outs = w.
Proof.
  unfold stack_sequence.
  destruct (divide (size_along 1 node_mask) w) as [k_row|e]; [|done].
  cbn [mbind res_bind]. unfold then_run.
  destruct (run_spmd B w _ σ) as [[[node1 σ1] tr1]|e] eqn:Erow; [|done].
  cbn [mbind res_bind].
  destruct (row_to_col_all node1) as [node2|e]; [|done]. cbn [mbind res_bind].
  destruct (divide (size_along 2 node_mask) w) as [k_col|e]; [|done].
  cbn [mbind res_bind]. intros [= <- <- <-].
  destruct (Row_run_world _ _ _ _ _ _ _ _ _ _ Erow) as [Hin Hst].
  apply Row_run_trace in Erow. subst tr1.
  split; [done|]. split; [done|]. split; [done|].
  by rewrite length_fmap, length_seq.
Qed.

(** X13. A successful run of a stack's forward pass leaves no collective
    pending (the handle of [gather_async] has been waited for), leaves the
    state untouched when dropout is off, returns one result per worker, and
    makes exactly these calls, in order: the asynchronous gather of the bias
    along axis 1, the wait for it, the draw of dropout in training mode
    only, the row-to-column exchange. *)
Theorem stack_forward_frame B (w : nat) (node pair : nat → T4 F)
    (node_mask : T3 F) σ outs σ' tr :
  0 < w →
  (∀ self : MSAStack.t F,
     run_spmd B w (fun r =>
         MSAStack.forward (mkComm w r) self (node r) (pair r) node_mask) σ
     = Ok (outs, σ', tr) →
     inflight σ' = inflight σ
     ∧ (MSARowAttentionWithPairBias.training (MSAStack.MSARowAttentionWithPairBias self)
        = false → σ' = σ)
     ∧ tr = EvGatherAsync 1 (fresh (dom (inflight σ)))
            :: EvWait (fresh (dom (inflight σ)))
            :: (if MSARowAttentionWithPairBias.training
                     (MSAStack.MSARowAttentionWithPairBias self)
                then [EvDropout] else [])
            ++ [EvRowToCol]
     ∧ length outs = w)
  ∧ (∀ self : ExtraMSAStack.t F,
     run_spmd B w (fun r =>
         ExtraMSAStack.forward (mkComm w r) self (node r) (pair r) node_mask) σ
     = Ok (outs, σ', tr) →
     inflight σ' = inflight σ
     ∧ (MSARowAttentionWithPairBias.training
          (ExtraMSAStack.MSARowAttentionWithPairBias self) = false → σ' = σ)
     ∧ tr = EvGatherAsync 1 (fresh (dom (inflight σ)))
            :: EvWait (fresh (dom (inflight σ)))
            :: (if MSARowAttentionWithPairBias.training
                     (ExtraMSAStack.MSARowAttentionWithPairBias self)
                then [EvDropout] else [])
            ++ [EvRowToCol]
     ∧ length outs = w).
Proof.
  intros Hw. split; intros self.
  - rewrite MSAStack_sequence by done. apply stack_sequence_frame.
  - rewrite ExtraMSAStack_sequence by done. apply stack_sequence_frame.
Qed.

(** X14. When the number of rows of the node mask is not divisible by the
    number of workers, the forward pass of both stacks fails with the
    configuration error of [scatter], whatever the node and pair tensors
    are. *)
Theorem stack_forward_indivisible_mask B (w : nat) (node pair : nat → T4 F)
    (node_mask : T3 F) σ :
  0 < w →
  size_along 1 node_mask `mod` w ≠ 0 →
  (∀ self : MSAStack.t F,
     run_spmd B w (fun r =>
         MSAStack.forward (mkComm w r) self (node r) (pair r) node_mask) σ
     = Err ConfigurationError)
  ∧ (∀ self : ExtraMSAStack.t F,
     run_spmd B w (fun r =>
         ExtraMSAStack.forward (mkComm w r) self (node r) (pair r) node_mask) σ
     = Err ConfigurationError).
Proof.
  intros Hw Hmod. split; intros self.
  - unfold MSAStack.forward.
    rewrite (run_spmd_scatter (A:=list F) B w 1 node_mask) by done.
    by rewrite divide_Err by tauto.
  - unfold ExtraMSAStack.forward.
    rewrite (run_spmd_scatter (A:=list F) B w 1 node_mask) by done.
    by rewrite divide_Err by tauto.
Qed.

(** X12. With dropout off, the column-sharded results of
    [ExtraMSAStack.forward] in a group of [w] workers, gathered along axis 2
    in rank order, are the result of one worker on the whole tensors. *)
Theorem ExtraMSAStack_group_matches_single B (w kR kC kL Bn : nat)
    (self : ExtraMSAStack.t F) (node pair : T4 F) (node_mask : T3 F) σ :
  0 < w → 0 < Bn → 0 < kR → 0 < kC →
  MSARowAttentionWithPairBias.training (ExtraMSAStack.MSARowAttentionWithPairBias self)
    = false →
  keeps_length (SelfAttention.core
    (MSARowAttentionWithPairBias.attention
       (ExtraMSAStack.MSARowAttentionWithPairBias self))) →
  (∀ m x, length (GlobalAttention.core
     (MSAColumnGlobalAttention.global_attention (ExtraMSAStack.MSAColumnAttention self))
     m x) = length x) →
  shape3 Bn (w * kR) (w * kC) node →
  shape3 Bn (w * kR) (w * kC) node_mask →
  matrix Bn (w * kL) pair →
  ∃ (shards : list (T4 F)) (full : T4 F),
    observable (run_spmd B w (fun r =>
        ExtraMSAStack.forward (mkComm w r) self
          (map_at 1 (chunk kR r) node) (map_at 1 (chunk kL r) pair) node_mask) σ)
    = Ok (shards, σ)
    ∧ observable (run_spmd B 1 (fun r =>
          ExtraMSAStack.forward (mkComm 1 r) self node pair node_mask) σ)
      = Ok ([full], σ)
    ∧ gather_all 2 shards = full.
Proof.
  intros Hw HB HkR HkC Htr Hrow Hcol Hnode Hmask Hpair.
  rewrite !ExtraMSAStack_run by (done || lia).
  eexists _, _.
  apply (stack_stages_group_single w kR kC kL Bn); try done.
  - intros w' k j N m HN Hm Hj.
    apply (col_global_block_slice _ Bn (w * kR) w'); (done || nia).
  - intros N m HN Hm. apply col_global_block_shape; (done || nia).
Qed.

(** X15. The column attention, the global column attention and the transition
    act on every column by itself: on the column shard of the node and of the
    mask they return the column shard of what they return on the whole
    tensors. *)
Theorem column_blocks_local (Bn R w k j : nat) (N : T4 F) (mask : T3 F) :
  0 < R → shape3 Bn R (w * k) N → shape3 Bn R (w * k) mask → j < w →
  (∀ self : MSAColumnAttention.t F,
     keeps_length (SelfAttention.core (MSAColumnAttention.attention self)) →
     ∃ full, MSAColumnAttention.forward self N mask = Ret full
             ∧ MSAColumnAttention.forward self
                 (map_at 2 (chunk k j) N) (map_at 2 (chunk k j) mask)
               = Ret (map_at 2 (chunk k j) full))
  ∧ (∀ self : MSAColumnGlobalAttention.t F,
     (∀ m x, length (GlobalAttention.core
        (MSAColumnGlobalAttention.global_attention self) m x) = length x) →
     ∃ full, MSAColumnGlobalAttention.forward self N mask = Ret full
             ∧ MSAColumnGlobalAttention.forward self
                 (map_at 2 (chunk k j) N) (map_at 2 (chunk k j) mask)
               = Ret (map_at 2 (chunk k j) full))
  ∧ (∀ self : Transition.t F,
     Transition.forward self (map_at 2 (chunk k j) N)
     = map_at 2 (chunk k j) (Transition.forward self N)).
Proof.
  intros HR HN Hm Hj. split; [|split].
  - intros self Hk. exists (col_block self N mask).
    rewrite !MSAColumnAttention_forward_Ret. split; [done|]. f_equal.
    by apply (col_block_slice _ Bn R w).
  - intros self Hk. exists (col_global_block self N mask).
    rewrite !MSAColumnGlobalAttention_forward_Ret. split; [done|]. f_equal.
    by apply (col_global_block_slice _ Bn R w).
  - intros self. apply Transition_chunk_2.
Qed.

(** X16. The bias of the row attention: projecting each worker's rows of the
    pair tensor and gathering the projections along axis 1, as
    [MSARowAttentionWithPairBias.forward] does, gives every worker the
    projection of the whole pair tensor. *)
Theorem pair_bias_of_shards B (w kL Bn : nat)
    (self : MSARowAttentionWithPairBias.t F) (pair : T4 F) σ :
  0 < w → matrix Bn (w * kL) pair →
  observable (run_spmd B w (fun r =>
      bw ← gather_async
              (linear (LayerNorm.forward (MSARowAttentionWithPairBias.layernormZ self)
                         (map_at 1 (chunk kL r) pair))
                 (MSARowAttentionWithPairBias.linear_b_weights self)) 1;
      wait bw.2) σ)
  = Ok (replicate w
          (linear (LayerNorm.forward (MSARowAttentionWithPairBias.layernormZ self) pair)
             (MSARowAttentionWithPairBias.linear_b_weights self)), σ).
Proof.
  intros Hw Hpair.
  cbn [mbind mret prog_mbind prog_ret prog_bind gather_async].
  rewrite run_spmd_GatherAsync. destruct w as [|w']; [lia|]. cbn zeta.
  unfold wait. cbn [snd].
  rewrite observable_logged, run_spmd_Wait. cbn [inflight gens].
  rewrite lookup_insert_eq. cbn [cat4 mbind res_bind].
  rewrite world_restore by done.
  rewrite observable_logged, run_spmd_Ret by lia.
  cbn [observable fmap res_fmap fst].
  pose proof (gathered_bias self Bn (S w') kL pair Hw Hpair) as Hb.
  unfold pair_bias in Hb. rewrite Hb. do 2 f_equal.
  generalize (linear (LayerNorm.forward (MSARowAttentionWithPairBias.layernormZ self) pair)
             (MSARowAttentionWithPairBias.linear_b_weights self)).
  intros t. apply fmap_seq_const.
Qed.

End StackExtras.


Lemma map3_id_Forall {A} (f : A → A) (P : A → Prop) (t : list (list (list A))) :
  Forall (Forall (Forall P)) t → (∀ v, P v → f v = v) → map3 f t = t.
Proof.
  intros Ht Hf. unfold map3.
  rewrite <- (list_fmap_id t) at 2. apply Forall_fmap_ext_1.
  eapply Forall_impl; [exact Ht|]. intros rows Hrows. simpl.
  rewrite <- (list_fmap_id rows) at 2. apply Forall_fmap_ext_1.
  eapply Forall_impl; [exact Hrows|]. intros row Hrow. simpl.
  rewrite <- (list_fmap_id row) at 2. apply Forall_fmap_ext_1.
  eapply Forall_impl; [exact Hrow|]. intros v Hv. simpl. by apply Hf.
Qed.

Section Constructors.
Context {F G : Type} `{NumLaws F}.

Lemma add1_replicate_zero (v : list F) :
  add1 v (replicate (length v) fzero) = v.
Proof.
  unfold add1. induction v as [|x v IH]; simpl; [done|].
  by rewrite fadd_0_r, IH.
Qed.

(** X18. A row block as [__init__] builds it has a zero [out_bias] and is in
    training mode; switched to inference, on node tensors of [d_node]
    features and with an attention that returns zero, it returns its input
    unchanged. *)
Theorem fresh_row_block_residual (B : backend F G) (w : nat) (σ : world F G)
    (K : kernels F) (d_node d_pair c n_head : nat) (p_drop : F)
    (M_raw Z : nat → T4 F) (M_mask : nat → T3 F) :
  0 < w →
  (∀ r, features d_node (M_raw r)) →
  (∀ r, r < w →
     SelfAttention.attend (new_SelfAttention K d_node c n_head d_node true (Some true))
       (LayerNorm.forward (new_LayerNorm K d_node) (M_raw r)) (M_mask r)
       (Some (cat_at 1
          ((fun r => pair_bias
                       (MSARowAttentionWithPairBias__init__ K d_node d_pair c n_head p_drop)
                       (Z r)) <$> seq 0 w)))
     = zeros_like4 (M_raw r)) →
  MSARowAttentionWithPairBias.out_bias
    (MSARowAttentionWithPairBias__init__ K d_node d_pair c n_head p_drop)
  = replicate d_node fzero
  ∧ MSARowAttentionWithPairBias.training
      (MSARowAttentionWithPairBias__init__ K d_node d_pair c n_head p_drop) = true
  ∧ observable (run_spmd B w (fun r =>
        MSARowAttentionWithPairBias.forward
          (row_eval (MSARowAttentionWithPairBias__init__ K d_node d_pair c n_head p_drop))
          (M_raw r) (Z r) (M_mask r)) σ)
    = Ok (M_raw <$> seq 0 w, σ).
Proof.
  intros Hw Hfeat Hzero. split; [done|]. split; [done|].
  rewrite Row_run by done. do 2 f_equal.
  apply Forall_fmap_ext_1, Forall_forall. intros r Hr%elem_of_seq.
  unfold row_block. cbn [row_eval MSARowAttentionWithPairBias__init__
    MSARowAttentionWithPairBias.attention MSARowAttentionWithPairBias.layernormM
    MSARowAttentionWithPairBias.out_bias].
  change (fun r0 => pair_bias (row_eval
            (MSARowAttentionWithPairBias__init__ K d_node d_pair c n_head p_drop)) (Z r0))
    with (fun r0 => pair_bias
            (MSARowAttentionWithPairBias__init__ K d_node d_pair c n_head p_drop) (Z r0)).
  rewrite Hzero by lia. rewrite add4_zeros_bias.
  apply (map3_id_Forall _ (fun v => length v = d_node)); [apply Hfeat|].
  intros v <-. apply add1_replicate_zero.
Qed.

End Constructors.

Lemma cat_at_1_length {A} (Bn : nat) (ts : list (list (list A))) :
  ts ≠ [] → Forall (fun t => length t = Bn) ts → length (cat_at 1 ts) = Bn.
Proof.
  induction ts as [|t ts IH]; intros Hne Hall; [done|].
  apply Forall_cons in Hall as [Ht Hall].
  destruct ts as [|t' ts']; [done|].
  change (cat_at 1 (t :: t' :: ts')) with (app_at 1 t (cat_at 1 (t' :: ts'))).
  cbn [app_at]. rewrite length_zip_with.
  transitivity (length t `min` Bn); [|lia].
  f_equal. by apply IH.
Qed.

Section Shapes.
Context {F G : Type} `{Num F}.

(** X17. Every block returns a tensor of the extents of its input along the
    first three axes: the row attention with pair bias (at inference, for
    every worker of a group), the column attention, the global column
    attention and the transition, given attentions that keep the number of
    positions. *)
Theorem blocks_keep_shape (B : backend F G) (w Bn R C : nat) (σ : world F G) :
  0 < w → 0 < R → 0 < C →
  (∀ (self : MSARowAttentionWithPairBias.t F) (M_raw Z : nat → T4 F)
     (M_mask : nat → T3 F),
     MSARowAttentionWithPairBias.training self = false →
     keeps_length (SelfAttention.core (MSARowAttentionWithPairBias.attention self)) →
     (∀ r, shape3 Bn R C (M_raw r)) → (∀ r, shape3 Bn R C (M_mask r)) →
     (∀ r, length (Z r) = Bn) →
     ∃ outs, results (run_spmd B w (fun r =>
                 MSARowAttentionWithPairBias.forward self (M_raw r) (Z r) (M_mask r)) σ)
             = Ok outs
             ∧ length outs = w ∧ Forall (shape3 Bn R C) outs)
  ∧ (∀ (self : MSAColumnAttention.t F) (N : T4 F) (mask : T3 F),
     keeps_length (SelfAttention.core (MSAColumnAttention.attention self)) →
     shape3 Bn R C N → shape3 Bn R C mask →
     ∃ out, MSAColumnAttention.forward self N mask = Ret out ∧ shape3 Bn R C out)
  ∧ (∀ (self : MSAColumnGlobalAttention.t F) (N : T4 F) (mask : T3 F),
     (∀ m x, length (GlobalAttention.core
        (MSAColumnGlobalAttention.global_attention self) m x) = length x) →
     shape3 Bn R C N → shape3 Bn R C mask →
     ∃ out, MSAColumnGlobalAttention.forward self N mask = Ret out
            ∧ shape3 Bn R C out)
  ∧ (∀ (self : Transition.t F) (N : T4 F),
     shape3 Bn R C N → shape3 Bn R C (Transition.forward self N)).
Proof.
  intros Hw HR HC. split; [|split; [|split]].
  - intros self M_raw Z M_mask Htr Hk HM Hm HZ.
    pose proof (Row_run B w self M_raw Z M_mask σ Hw Htr) as Hrun.
    unfold observable, results in *.
    destruct (run_spmd B w _ σ) as [[[outs σ'] tr]|e]; [|done].
    cbn [fmap res_fmap fst] in *. injection Hrun as -> _.
    eexists. split; [done|]. rewrite length_fmap, length_seq. split; [done|].
    apply Forall_fmap, Forall_forall. intros r _. simpl.
    apply row_block_shape; [done..|].
    apply cat_at_1_length.
    + destruct w; [lia|]. done.
    + apply Forall_fmap, Forall_forall. intros r' _. simpl.
      unfold pair_bias, linear, LayerNorm.forward, map3.
      by rewrite !length_fmap.
  - intros self N mask Hk HN Hm. exists (col_block self N mask).
    split; [done|]. by apply col_block_shape.
  - intros self N mask Hk HN Hm. exists (col_global_block self N mask).
    split; [done|]. by apply col_global_block_shape.
  - intros self N HN. by apply shape3_map3.
Qed.

End Shapes.


Lemma stack_forward_frame_witness :
  inflight (mkWorld (F:=Z) [1; 2] ∅) = inflight (mkWorld (F:=Z) [0; 1] ∅)
  ∧ [EvGatherAsync 1 0; EvWait 0; EvDropout; EvRowToCol]
    = EvGatherAsync 1 (fresh (dom (inflight (mkWorld (F:=Z) [0; 1] ∅))))
      :: EvWait (fresh (dom (inflight (mkWorld (F:=Z) [0; 1] ∅))))
      :: [EvDropout] ++ [EvRowToCol]
  ∧ length [ [[[[153]]; [[417]]]]; [[[[24]]; [[300]]]] ]%Z = 2.
Proof.
  destruct (proj1 (stack_forward_frame coin 2
                     (fun r => map_at 1 (chunk 1 r) node_small)
                     (fun r => map_at 1 (chunk 1 r) pair_small)
                     mask_small (mkWorld [0; 1] ∅)
                     [ [[[[153]]; [[417]]]]; [[[[24]]; [[300]]]] ]%Z
                     (mkWorld [1; 2] ∅)
                     [EvGatherAsync 1 0; EvWait 0; EvDropout; EvRowToCol]
                     ltac:(lia))
             (stack_small true) ltac:(vm_compute; reflexivity))
    as (H1 & _ & H3 & H4).
  split; [exact H1|]. split; [exact H3|exact H4].
Defined.

Lemma stack_forward_indivisible_mask_witness :
  run_spmd idle 2 (fun r =>
      MSAStack.forward (mkComm 2 r) (stack_small false)
        (map_at 1 (chunk 1 r) node_small) (map_at 1 (chunk 1 r) pair_small)
        [ [ [1; 1]; [1; 1]; [1; 1] ] ]%Z) (fresh_world 2)
  = Err ConfigurationError.
Proof.
  apply (proj1 (stack_forward_indivisible_mask idle 2
                  (fun r => map_at 1 (chunk 1 r) node_small)
                  (fun r => map_at 1 (chunk 1 r) pair_small)
                  [ [ [1; 1]; [1; 1]; [1; 1] ] ]%Z (fresh_world 2)
                  ltac:(lia) ltac:(simpl; lia))).
Defined.

Lemma ExtraMSAStack_group_matches_single_witness :
  ∃ (shards : list (T4 Z)) (full : T4 Z),
    observable (run_spmd idle 2 (fun r =>
        ExtraMSAStack.forward (mkComm 2 r) (extra_stack_ex false)
          (map_at 1 (chunk 4 r) node_ex) (map_at 1 (chunk 8 r) pair_ex) mask_ex)
        (fresh_world 2))
    = Ok (shards, fresh_world 2)
    ∧ observable (run_spmd idle 1 (fun r =>
          ExtraMSAStack.forward (mkComm 1 r) (extra_stack_ex false)
            node_ex pair_ex mask_ex)
          (fresh_world 2))
      = Ok ([full], fresh_world 2)
    ∧ gather_all 2 shards = full.
Proof.
  apply (ExtraMSAStack_group_matches_single idle 2 4 8 8 1 (extra_stack_ex false)
           node_ex pair_ex mask_ex (fresh_world 2)).
  - lia.
  - lia.
  - lia.
  - lia.
  - reflexivity.
  - exact mixing_core_keeps_length.
  - intros m x. apply mixing_core_keeps_length.
  - vm_compute. repeat constructor.
  - vm_compute. repeat constructor.
  - vm_compute. repeat constructor.
Defined.

Lemma column_blocks_local_witness :
  ∃ full, MSAColumnAttention.forward (MSAColumnAttention.mk ln_shift mixing_attention)
            node_small mask_small = Ret full
          ∧ MSAColumnAttention.forward (MSAColumnAttention.mk ln_shift mixing_attention)
              (map_at 2 (chunk 1 1) node_small) (map_at 2 (chunk 1 1) mask_small)
            = Ret (map_at 2 (chunk 1 1) full).
Proof.
  apply (proj1 (column_blocks_local 1 2 2 1 1 node_small mask_small
                  ltac:(lia) ltac:(repeat constructor) ltac:(repeat constructor)
                  ltac:(lia))).
  exact mixing_core_keeps_length.
Defined.

Lemma pair_bias_of_shards_witness :
  observable (run_spmd idle 2 (fun r =>
      bw ← gather_async
              (linear (LayerNorm.forward ln_shift (map_at 1 (chunk 1 r) pair_small))
                 [[2]]%Z) 1;
      wait bw.2) (fresh_world 2))
  = Ok (replicate 2 (linear (LayerNorm.forward ln_shift pair_small) [[2]]%Z),
        fresh_world 2).
Proof.
  apply (pair_bias_of_shards idle 2 1 1 (row_small false) pair_small (fresh_world 2)).
  - lia.
  - repeat constructor.
Defined.

Lemma fresh_row_block_residual_witness :
  MSARowAttentionWithPairBias.out_bias
    (MSARowAttentionWithPairBias__init__ zero_kernels 1 1 32 8 0%Z)
  = replicate 1 0%Z
  ∧ MSARowAttentionWithPairBias.training
      (MSARowAttentionWithPairBias__init__ zero_kernels 1 1 32 8 0%Z) = true
  ∧ observable (run_spmd idle 2 (fun r =>
        MSARowAttentionWithPairBias.forward
          (row_eval (MSARowAttentionWithPairBias__init__ zero_kernels 1 1 32 8 0%Z))
          (map_at 1 (chunk 1 r) node_small) (map_at 1 (chunk 1 r) pair_small)
          (map_at 1 (chunk 1 r) mask_small)) (fresh_world 2))
    = Ok ((fun r => map_at 1 (chunk 1 r) node_small) <$> seq 0 2, fresh_world 2).
Proof.
  refine (fresh_row_block_residual (F:=Z) idle 2 (fresh_world 2) zero_kernels 1 1 32 8 0%Z
           (fun r => map_at 1 (chunk 1 r) node_small)
           (fun r => map_at 1 (chunk 1 r) pair_small)
           (fun r => map_at 1 (chunk 1 r) mask_small) _ _ _).
  - lia.
  - intros r. unfold features, node_small, chunk.
    destruct r as [|[|r]]; simpl; repeat constructor.
    rewrite drop_nil. constructor.
  - intros r Hr. unfold node_small, mask_small.
    destruct r as [|[|r]]; [vm_compute; reflexivity..|lia].
Defined.

Lemma blocks_keep_shape_witness :
  ∃ out, MSAColumnAttention.forward (MSAColumnAttention.mk ln_shift mixing_attention)
           node_small mask_small = Ret out
         ∧ shape3 1 2 2 out.
Proof.
  apply (proj1 (proj2 (blocks_keep_shape idle 2 1 2 2 (fresh_world 2)
                         ltac:(lia) ltac:(lia) ltac:(lia)))).
  - exact mixing_core_keeps_length.
  - repeat constructor.
  - repeat constructor.
Defined.

(** * Further properties of [np/protein.py]: [from_pdb_string] *)

Open Scope Z_scope.

(** ** The order of strings and [np.unique] *)

Lemma str_lt_irrefl x : ¬ str_lt x x.
Proof.
  unfold str_lt. intros Hlt.
  apply OrderedTypeEx.String_as_OT.cmp_lt, OrderedTypeEx.String_as_OT.lt_not_eq in Hlt.
  by apply Hlt.
Qed.

Lemma str_lt_trans x y z : str_lt x y → str_lt y z → str_lt x z.
Proof.
  unfold str_lt. intros H1%OrderedTypeEx.String_as_OT.cmp_lt H2%OrderedTypeEx.String_as_OT.cmp_lt.
  apply OrderedTypeEx.String_as_OT.cmp_lt. eapply OrderedTypeEx.String_as_OT.lt_trans; eauto.
Qed.

Lemma str_lt_asym x y : str_lt x y → ¬ str_lt y x.
Proof. intros H1 H2. exact (str_lt_irrefl x (str_lt_trans _ _ _ H1 H2)). Qed.

Lemma str_compare_Gt x y : String.compare x y = Gt ↔ str_lt y x.
Proof.
  unfold str_lt. rewrite (String.compare_antisym y x).
  destruct (String.compare x y); simpl; split; congruence.
Qed.

Lemma str_compare_Eq x y : String.compare x y = Eq ↔ x = y.
Proof. apply OrderedTypeEx.String_as_OT.cmp_eq. Qed.

Lemma insert_unique_str_elem x y l :
  y ∈ insert_unique_str x l ↔ y = x ∨ y ∈ l.
Proof.
  induction l as [|z l IH]; simpl.
  - rewrite list_elem_of_singleton, elem_of_nil. tauto.
  - destruct (String.compare x z) eqn:E.
    + apply str_compare_Eq in E as ->. rewrite elem_of_cons. tauto.
    + by rewrite elem_of_cons.
    + rewrite !elem_of_cons, IH. tauto.
Qed.

Lemma insert_unique_str_sorted x l :
  StronglySorted str_lt l → StronglySorted str_lt (insert_unique_str x l).
Proof.
  induction 1 as [|z l Hs IH Hz]; simpl.
  - repeat constructor.
  - destruct (String.compare x z) eqn:E.
    + by constructor.
    + constructor; [by constructor|]. constructor; [done|].
      eapply Forall_impl; [exact Hz|]. intros y Hy. by eapply str_lt_trans.
    + apply str_compare_Gt in E. constructor; [done|].
      rewrite Forall_forall in Hz |- *. intros y Hy.
      apply insert_unique_str_elem in Hy as [->|Hy]; [done|by apply Hz].
Qed.

Lemma np_unique_str_sorted l : StronglySorted str_lt (np_unique_str l).
Proof.
  unfold np_unique_str. induction l as [|x l IH]; simpl.
  - constructor.
  - by apply insert_unique_str_sorted.
Qed.

Lemma np_unique_str_elem l y : y ∈ np_unique_str l ↔ y ∈ l.
Proof.
  unfold np_unique_str. induction l as [|x l IH]; simpl.
  - done.
  - by rewrite insert_unique_str_elem, elem_of_cons, IH.
Qed.

Lemma sorted_str_NoDup (l : list string) : StronglySorted str_lt l → NoDup l.
Proof.
  induction 1 as [|z l Hs IH Hz]; constructor; [|done].
  intros Hin. rewrite Forall_forall in Hz. exact (str_lt_irrefl z (Hz z Hin)).
Qed.

Lemma np_unique_str_NoDup l : NoDup (np_unique_str l).
Proof. apply sorted_str_NoDup, np_unique_str_sorted. Qed.

Lemma np_unique_str_length l :
  length (np_unique_str l) = size (list_to_set l : gset string).
Proof.
  rewrite <- (size_list_to_set (C:=gset string) (np_unique_str l))
    by apply np_unique_str_NoDup.
  f_equal. apply set_eq. intros y.
  rewrite !elem_of_list_to_set. apply np_unique_str_elem.
Qed.

Lemma filter_none {A} (P : A → Prop) `{∀ x, Decision (P x)} (l : list A) :
  Forall (fun x => ¬ P x) l → filter P l = [].
Proof.
  induction 1 as [|x l Hx Hl IH]; [done|]. by rewrite filter_cons_False.
Qed.

(** In a sorted list the place of an element is the number of elements
    below it. *)
Lemma sorted_place (u : list string) : ∀ (k : nat) (id : string),
  StronglySorted str_lt u → u !! k = Some id →
  length (filter (fun x => str_lt x id) u) = k.
Proof.
  induction u as [|x u IH]; intros k id Hs Hk; [done|].
  apply StronglySorted_inv in Hs as [Hs Hx].
  destruct k as [|k]; simpl in Hk.
  - injection Hk as ->. rewrite filter_cons_False by apply str_lt_irrefl.
    rewrite filter_none; [done|].
    eapply Forall_impl; [exact Hx|]. intros y Hy. by apply str_lt_asym.
  - rewrite filter_cons_True.
    + simpl. f_equal. by apply IH.
    + rewrite Forall_forall in Hx. apply Hx. by eapply list_elem_of_lookup_2.
Qed.

Lemma chain_rank_place (ids : list string) (k : nat) (id : string) :
  np_unique_str ids !! k = Some id → chain_rank ids id = Z.of_nat k.
Proof.
  intros Hk. unfold chain_rank. f_equal.
  rewrite <- (sorted_place (np_unique_str ids) k id (np_unique_str_sorted ids) Hk).
  apply Permutation_length, NoDup_Permutation.
  - apply NoDup_filter, NoDup_remove_dups.
  - apply NoDup_filter, np_unique_str_NoDup.
  - intros x. rewrite !list_elem_of_filter, elem_of_remove_dups, np_unique_str_elem. done.
Qed.

(** ** The dictionary of chain IDs *)

Lemma enumerate_snoc {A} (l : list A) (x : A) :
  enumerate (l ++ [x]) = enumerate l ++ [(Z.of_nat (length l), x)].
Proof.
  unfold enumerate. rewrite length_app. simpl.
  replace (Z.of_nat (length l + 1)) with (Z.of_nat (length l) + 1) by lia.
  rewrite seqZ_app by lia. simpl.
  rewrite zip_with_app by (rewrite length_seqZ; lia). done.
Qed.

Lemma chain_id_mapping_lookup (u : list string) : ∀ (k : nat) (id : string),
  NoDup u → u !! k = Some id →
  foldl (fun (m : gmap string Z) nc => <[nc.2 := nc.1]> m) ∅ (enumerate u) !! id
  = Some (Z.of_nat k).
Proof.
  induction u as [|x u IH] using rev_ind; intros k id Hnd Hk; [done|].
  rewrite enumerate_snoc, foldl_app. simpl.
  apply NoDup_app in Hnd as (Hnd & Hx & _).
  destruct (decide (k < length u)%nat) as [Hlt|Hge].
  - rewrite lookup_app_l in Hk by done.
    rewrite lookup_insert_ne.
    + by apply IH.
    + intros ->. apply (Hx id); [by eapply list_elem_of_lookup_2|by apply list_elem_of_singleton].
  - rewrite lookup_app_r in Hk by lia.
    destruct (k - length u)%nat as [|j] eqn:E; simpl in Hk; [|done].
    injection Hk as ->. rewrite lookup_insert_eq. f_equal. lia.
Qed.

Lemma mapM_res_Ok {A B} (f : A → res B) (g : A → B) (l : list A) :
  (∀ x, x ∈ l → f x = Ok (g x)) → mapM f l = Ok (g <$> l).
Proof.
  induction l as [|x l IH]; intros Hf; [done|].
  cbn [mapM]. rewrite (Hf x) by apply list_elem_of_here. cbn [mbind res_bind].
  rewrite IH by (intros y Hy; apply Hf; by apply list_elem_of_further). done.
Qed.

Lemma chain_index_of (ids : list string) :
  mapM (subscript
          (foldl (fun (m : gmap string Z) nc => <[nc.2 := nc.1]> m) ∅
             (enumerate (np_unique_str ids)))) ids
  = Ok (chain_rank ids <$> ids).
Proof.
  apply mapM_res_Ok. intros id Hid.
  apply np_unique_str_elem, list_elem_of_lookup_1 in Hid as [k Hk].
  apply subscript_Ok.
  rewrite (chain_id_mapping_lookup _ k id (np_unique_str_NoDup ids) Hk).
  by rewrite (chain_rank_place ids k id Hk).
Qed.

Lemma ravel_scalars {A} (l : list A) : ravel (Array (Scalar <$> l)) = l.
Proof.
  simpl. induction l as [|x l IH]; [done|].
  cbn [fmap list_fmap map concat ravel app] in *. by rewrite IH.
Qed.

(** The chain indices are the numbers below the number of distinct IDs. *)
Lemma chain_rank_range (ids : list string) (x : Z) :
  x ∈ chain_rank ids <$> ids ↔ 0 ≤ x < Z.of_nat (length (np_unique_str ids)).
Proof.
  rewrite list_elem_of_fmap. split.
  - intros (id & -> & Hid).
    apply np_unique_str_elem, list_elem_of_lookup_1 in Hid as [k Hk].
    rewrite (chain_rank_place ids k id Hk).
    apply lookup_lt_Some in Hk. lia.
  - intros Hx.
    destruct (lookup_lt_is_Some_2 (np_unique_str ids) (Z.to_nat x)) as [id Hk]; [lia|].
    exists id. split.
    + rewrite (chain_rank_place ids _ id Hk). lia.
    + by eapply np_unique_str_elem, list_elem_of_lookup_2.
Qed.

Lemma chain_index_distinct (ids : list string) :
  length (np_unique (Array (Scalar <$> (chain_rank ids <$> ids))))
  = size (list_to_set ids : gset string).
Proof.
  rewrite np_unique_length, ravel_scalars, <- np_unique_str_length.
  transitivity (size (list_to_set (seqZ 0 (Z.of_nat (length (np_unique_str ids)))) : gset Z)).
  - f_equal. apply set_eq. intros x.
    rewrite !elem_of_list_to_set, chain_rank_range, elem_of_seqZ. lia.
  - rewrite size_list_to_set by apply NoDup_seqZ. rewrite length_seqZ. lia.
Qed.

(** ** The loops of [from_pdb_string] *)

Lemma for_each_app {A B} (body : A → B → res A) (l1 l2 : list B) : ∀ a,
  for_each body a (l1 ++ l2) = a' ← for_each body a l1; for_each body a' l2.
Proof.
  induction l1 as [|x l1 IH]; intros a; simpl; [done|].
  destruct (body a x); simpl; [apply IH|done].
Qed.

Lemma insert_fmap_seq {A} (g g' : nat → A) (n i0 : nat) (x : A) :
  (i0 < n)%nat → g' i0 = x → (∀ j, j ≠ i0 → g' j = g j) →
  <[i0 := x]> (g <$> seq 0 n) = g' <$> seq 0 n.
Proof.
  intros Hi Hx Hg. apply list_eq. intros j.
  destruct (decide (j = i0)) as [->|Hne].
  - rewrite list_lookup_insert_eq by (rewrite length_fmap, length_seq; lia).
    rewrite list_lookup_fmap, lookup_seq_lt by lia. simpl. by rewrite Hx.
  - rewrite list_lookup_insert_ne by done. rewrite !list_lookup_fmap.
    destruct (seq 0 n !! j) as [k|] eqn:E; simpl; [|done].
    apply lookup_seq in E as [-> _]. simpl. by rewrite Hg.
Qed.

Section Loops.
Context {F : Type} `{Num F}.
Import residue_constants.
Variable rc : residue_constants.t.

Lemma atoms_at_snoc_other (i : nat) (atoms : list (Atom.t F)) (a : Atom.t F) :
  ¬ (Atom.name a ∈ atom_types rc ∧ atom_order rc !! Atom.name a = Some i) →
  atoms_at rc i (atoms ++ [a]) = atoms_at rc i atoms.
Proof.
  intros Hn. unfold atoms_at. rewrite filter_app, filter_cons_False by done.
  by rewrite filter_nil, app_nil_r.
Qed.

Lemma atoms_at_snoc_here (i : nat) (atoms : list (Atom.t F)) (a : Atom.t F) :
  Atom.name a ∈ atom_types rc → atom_order rc !! Atom.name a = Some i →
  atoms_at rc i (atoms ++ [a]) = atoms_at rc i atoms ++ [a].
Proof.
  intros Hin Hat. unfold atoms_at. rewrite filter_app, filter_cons_True by done.
  by rewrite filter_nil.
Qed.

Lemma setitem_Ok {A} (l : list A) (i : nat) (x : A) :
  (i < length l)%nat → setitem l i x = Ok (<[i := x]> l).
Proof. intros Hi. unfold setitem. by rewrite decide_True. Qed.

(** The loop over the atoms of a residue. *)
Lemma atom_loop (atoms : list (Atom.t F)) :
  Forall (placed rc) atoms →
  for_each (atom_step rc)
    (replicate (atom_type_num rc) (fzero, fzero, fzero),
     replicate (atom_type_num rc) false,
     replicate (atom_type_num rc) fzero) atoms
  = Ok (pos_of rc atoms, mask_of rc atoms, b_factors_of rc atoms).
Proof.
  induction atoms as [|a atoms IH] using rev_ind; intros Hall.
  - simpl. unfold pos_of, mask_of, b_factors_of. simpl.
    by rewrite !fmap_seq_const.
  - apply Forall_app in Hall as [Hall Ha]. rewrite Forall_singleton in Ha.
    rewrite for_each_app, IH by done. cbn [mbind res_bind for_each atom_step].
    destruct (decide (Atom.name a ∉ atom_types rc)) as [Hout|Hin].
    + cbn [mbind res_bind].
      assert (∀ i, atoms_at rc i (atoms ++ [a]) = atoms_at rc i atoms) as Hsame.
      { intros i. apply atoms_at_snoc_other. tauto. }
      unfold pos_of, mask_of, b_factors_of.
      f_equal. f_equal; [f_equal|]; apply list_fmap_ext; intros ? i ?;
        by rewrite Hsame.
    + apply dec_stable in Hin. destruct (Ha Hin) as (i0 & Hat & Hi0).
      rewrite (proj2 (subscript_Ok _ _ _) Hat). cbn [mbind res_bind].
      rewrite setitem_Ok by (unfold pos_of, mask_of, b_factors_of; rewrite length_fmap, length_seq; lia).
      cbn [mbind res_bind].
      rewrite setitem_Ok by (unfold pos_of, mask_of, b_factors_of; rewrite length_fmap, length_seq; lia).
      cbn [mbind res_bind].
      rewrite setitem_Ok by (unfold pos_of, mask_of, b_factors_of; rewrite length_fmap, length_seq; lia).
      cbn [mbind res_bind].
      assert (∀ j, j ≠ i0 → atoms_at rc j (atoms ++ [a]) = atoms_at rc j atoms) as Hother.
      { intros j Hj. apply atoms_at_snoc_other. intros [_ Hj']. congruence. }
      pose proof (atoms_at_snoc_here i0 atoms a Hin Hat) as Hhere.
      f_equal. f_equal; [f_equal|]; unfold pos_of, mask_of, b_factors_of;
        apply insert_fmap_seq; try done.
      * by rewrite Hhere, last_snoc.
      * intros j Hj. by rewrite Hother.
      * rewrite Hhere. apply bool_decide_eq_true. by destruct (atoms_at rc i0 atoms).
      * intros j Hj. by rewrite Hother.
      * by rewrite Hhere, last_snoc.
      * intros j Hj. by rewrite Hother.
Qed.

(** When the loop over the atoms ends, every atom had its place. *)
Lemma atom_loop_placed (atoms : list (Atom.t F)) : ∀ pos mask res_b_factors st,
  length pos = atom_type_num rc → length mask = atom_type_num rc →
  length res_b_factors = atom_type_num rc →
  for_each (atom_step rc) (pos, mask, res_b_factors) atoms = Ok st →
  Forall (placed rc) atoms.
Proof.
  induction atoms as [|a atoms IH]; intros pos mask bf st Hp Hm Hb Hrun; [constructor|].
  cbn [for_each atom_step] in Hrun.
  destruct (decide (Atom.name a ∉ atom_types rc)) as [Hout|Hin].
  - cbn [mbind res_bind] in Hrun. constructor; [by intros ?|by eapply IH].
  - destruct (atom_order rc !! Atom.name a) as [i0|] eqn:Hat.
    2: { unfold subscript in Hrun. rewrite Hat in Hrun. discriminate. }
    rewrite (proj2 (subscript_Ok _ _ _) Hat) in Hrun. cbn [mbind res_bind] in Hrun.
    unfold setitem in Hrun.
    destruct (decide (i0 < length pos)%nat) as [Hi|]; [|discriminate].
    cbn [mbind res_bind] in Hrun.
    rewrite decide_True in Hrun by lia. cbn [mbind res_bind] in Hrun.
    rewrite decide_True in Hrun by lia. cbn [mbind res_bind] in Hrun.
    constructor.
    + intros _. exists i0. split; [done|lia].
    + eapply IH; [| | |exact Hrun]; by rewrite length_insert.
Qed.

(** Whether a residue is skipped. *)
Lemma mask_of_empty (atoms : list (Atom.t F)) :
  Forall (placed rc) atoms →
  forallb negb (mask_of rc atoms) = true
  ↔ ¬ Exists (fun a => Atom.name a ∈ atom_types rc) atoms.
Proof.
  intros Hall. rewrite forallb_forall. unfold mask_of. split.
  - intros Hmask (a & Ha & Hin)%Exists_exists.
    rewrite Forall_forall in Hall. destruct (Hall a Ha Hin) as (i & Hat & Hi).
    specialize (Hmask (bool_decide (atoms_at rc i atoms ≠ []))).
    rewrite negb_true_iff, bool_decide_eq_false in Hmask. apply Hmask.
    + apply list_elem_of_In, list_elem_of_fmap. exists i. split; [done|].
      apply elem_of_seq. lia.
    + intros Hnil. assert (a ∈ atoms_at rc i atoms) as Hin'.
      { unfold atoms_at. apply list_elem_of_filter. done. }
      rewrite Hnil in Hin'. by apply elem_of_nil in Hin'.
  - intros Hnone b (i & -> & _)%list_elem_of_In%list_elem_of_fmap.
    rewrite negb_true_iff, bool_decide_eq_false. intros Hne. apply Hne.
    unfold atoms_at. apply filter_none, Forall_forall. intros a Ha [Hin _].
    apply Hnone, Exists_exists. eauto.
Qed.

End Loops.

Section Visits.
Context {F : Type} `{Num F}.
Import residue_constants.
Variable rc : residue_constants.t.

Lemma rows_app_nil (rows : Rows.t F) : rows_app rc rows [] = rows.
Proof. destruct rows. unfold rows_app. simpl. by rewrite !app_nil_r. Qed.

Lemma rows_app_app (rows : Rows.t F) (l1 l2 : list (string * Residue.t F)) :
  rows_app rc (rows_app rc rows l1) l2 = rows_app rc rows (l1 ++ l2).
Proof. unfold rows_app. simpl. by rewrite !fmap_app, !app_assoc. Qed.

Lemma visit_insertion_code (rows : Rows.t F) (cr : string * Residue.t F) :
  insertion_code cr →
  visit rc rows cr
  = Err (ValueError (insertion_code_msg cr.1 (Residue.id cr.2).1.2)).
Proof.
  intros Hic. unfold visit, residue_step. by rewrite decide_True.
Qed.

Lemma visit_passes (rows : Rows.t F) (cr : string * Residue.t F) :
  passes rc cr →
  visit rc rows cr = Ok (rows_app rc rows (filter (known rc) [cr])).
Proof.
  intros [Hic Hpl]. unfold visit, residue_step.
  rewrite decide_False by done.
  rewrite (atom_loop rc _ Hpl). cbn [mbind res_bind].
  destruct (forallb negb (mask_of rc (Residue.atoms cr.2))) eqn:E.
  - apply (mask_of_empty rc _ Hpl) in E.
    rewrite filter_cons_False by done. by rewrite filter_nil, rows_app_nil.
  - rewrite filter_cons_True, filter_nil; [done|].
    apply dec_stable. intros Hn. apply (mask_of_empty rc _ Hpl) in Hn. congruence.
Qed.

Lemma visit_Ok (rows rows' : Rows.t F) (cr : string * Residue.t F) :
  visit rc rows cr = Ok rows' → passes rc cr.
Proof.
  unfold visit, residue_step. intros Hrun.
  destruct (decide ((Residue.id cr.2).2 ≠ " ")) as [|Hic]; [discriminate|].
  split; [done|].
  destruct (for_each _ _ _) as [st|] eqn:E; [|discriminate].
  destruct st as [[pos mask] bf].
  eapply atom_loop_placed; [| | |exact E]; by rewrite length_replicate.
Qed.

Lemma visits_pass (vis : list (string * Residue.t F)) : ∀ rows,
  Forall (passes rc) vis →
  for_each (visit rc) rows vis = Ok (rows_app rc rows (filter (known rc) vis)).
Proof.
  induction vis as [|cr vis IH]; intros rows Hall; simpl.
  - by rewrite rows_app_nil.
  - apply Forall_cons in Hall as [Hcr Hall].
    rewrite (visit_passes rows cr Hcr). cbn [mbind res_bind].
    rewrite IH, rows_app_app by done.
    change (cr :: vis) with ([cr] ++ vis). by rewrite filter_app.
Qed.

Lemma visits_Ok (vis : list (string * Residue.t F)) : ∀ rows rows',
  for_each (visit rc) rows vis = Ok rows' → Forall (passes rc) vis.
Proof.
  induction vis as [|cr vis IH]; intros rows rows' Hrun; [constructor|].
  simpl in Hrun. destruct (visit rc rows cr) as [rows1|] eqn:E; [|discriminate].
  constructor; [by eapply visit_Ok|by eapply IH].
Qed.

Lemma visits_insertion_code (pre post : list (string * Residue.t F))
    (cr : string * Residue.t F) (rows : Rows.t F) :
  Forall (passes rc) pre → insertion_code cr →
  for_each (visit rc) rows (pre ++ cr :: post)
  = Err (ValueError (insertion_code_msg cr.1 (Residue.id cr.2).1.2)).
Proof.
  intros Hpre Hic. rewrite for_each_app, visits_pass by done.
  cbn [mbind res_bind for_each]. by rewrite visit_insertion_code.
Qed.

Lemma for_each_fmap {A B C} (body : A → C → res A) (f : B → C) (l : list B) :
  ∀ a, for_each body a (f <$> l) = for_each (fun a x => body a (f x)) a l.
Proof.
  induction l as [|x l IH]; intros a; simpl; [done|].
  destruct (body a (f x)); simpl; [apply IH|done].
Qed.

Lemma visited_cons (chain_id : option string) (chain : Chain.t F)
    (model : list (Chain.t F)) :
  visited chain_id (chain :: model)
  = (if decide (chain_id ≠ None ∧ Some (Chain.id chain) ≠ chain_id) then []
     else (fun r => (Chain.id chain, r)) <$> Chain.residues chain)
    ++ visited chain_id model.
Proof. reflexivity. Qed.

(** The two loops visit the residues of the chosen chains in order. *)
Lemma chain_loop (chain_id : option string) (model : list (Chain.t F)) :
  ∀ rows,
  for_each (chain_step rc chain_id) rows model
  = for_each (visit rc) rows (visited chain_id model).
Proof.
  induction model as [|chain model IH]; intros rows; [done|].
  rewrite visited_cons, for_each_app.
  change (for_each (chain_step rc chain_id) rows (chain :: model))
    with (a' ← chain_step rc chain_id rows chain;
          for_each (chain_step rc chain_id) a' model).
  assert (chain_step rc chain_id rows chain
          = if decide (chain_id ≠ None ∧ Some (Chain.id chain) ≠ chain_id)
            then Ok rows
            else for_each (residue_step rc chain) rows (Chain.residues chain))
    as -> by reflexivity.
  destruct (decide (chain_id ≠ None ∧ Some (Chain.id chain) ≠ chain_id)).
  - cbn [mbind res_bind for_each]. apply IH.
  - rewrite for_each_fmap.
    change (for_each (fun a x => visit rc a (Chain.id chain, x)) rows (Chain.residues chain))
      with (for_each (residue_step rc chain) rows (Chain.residues chain)).
    destruct (for_each (residue_step rc chain) rows (Chain.residues chain));
      cbn [mbind res_bind]; [apply IH|done].
Qed.

Lemma atom_types_ordered_passes (cr : string * Residue.t F) :
  atom_types_ordered rc → ¬ insertion_code cr → passes rc cr.
Proof.
  intros Hord Hic. split; [done|]. apply Forall_forall. intros a _ Hin.
  by apply Hord.
Qed.

Lemma post_init_chain_rank (crs : list (string * Residue.t F)) parents :
  post_init (protein_of rc crs parents)
  = if decide (size (list_to_set crs.*1 : gset string) ≤ 62)%nat
    then Ok tt else Err (ValueError too_many_chains_msg).
Proof.
  unfold post_init, protein_of. cbn [chain_index].
  rewrite chain_index_distinct. change PDB_MAX_CHAINS with 62%nat.
  destruct (decide (62 < _)%nat), (decide (_ ≤ 62)%nat); try done; lia.
Qed.

(** [from_pdb_string] after the parser: on one model, the loops and then
    the record. *)
Lemma from_pdb_string_model get_structure (pdb_str : string)
    (chain_id : option string) (model : list (Chain.t F)) :
  get_structure pdb_str = Ok [model] →
  from_pdb_string rc get_structure pdb_str chain_id
  = rows ← for_each (visit rc) (Rows.mk [] [] [] [] [] []) (visited chain_id model);
    chain_index ←
      Ok (chain_rank (Rows.chain_ids rows) <$> Rows.chain_ids rows);
    Protein_init
      (VArr (positions_array (Rows.atom_positions rows)))
      (Array (Scalar <$> Rows.aatype rows))
      (VArr (mask_array (Rows.atom_mask rows)))
      (Array (Scalar <$> Rows.residue_index rows))
      (rows_array (Rows.b_factors rows))
      (Array (Scalar <$> chain_index))
      None (parents_of_pdb pdb_str) None.
Proof.
  intros Hgs. unfold from_pdb_string. rewrite Hgs. cbn [mbind res_bind length].
  rewrite decide_False by (intros Hne; by apply Hne).
  cbn [getitem lookup list_lookup mbind res_bind].
  rewrite chain_loop.
  destruct (for_each (visit rc) _ _) as [rows|]; cbn [mbind res_bind]; [|done].
  rewrite chain_index_of. cbn [mbind res_bind]. done.
Qed.

Lemma from_pdb_string_passes get_structure (pdb_str : string)
    (chain_id : option string) (model : list (Chain.t F)) :
  get_structure pdb_str = Ok [model] →
  Forall (passes rc) (visited chain_id model) →
  from_pdb_string rc get_structure pdb_str chain_id
  = let crs := kept rc chain_id model in
    if decide (size (list_to_set crs.*1 : gset string) ≤ 62)%nat
    then Ok (protein_of rc crs (parents_of_pdb pdb_str))
    else Err (ValueError too_many_chains_msg).
Proof.
  intros Hgs Hall. rewrite (from_pdb_string_model _ _ _ model Hgs).
  rewrite visits_pass by done. cbn [mbind res_bind].
  unfold Protein_init.
  change (post_init _) with
    (post_init (protein_of rc (kept rc chain_id model) (parents_of_pdb pdb_str))).
  rewrite post_init_chain_rank. cbv zeta.
  destruct (decide _); done.
Qed.

(** Whenever [from_pdb_string] returns, there was one model, every visited
    residue passed, and the protein is the one of the kept residues. *)
Lemma from_pdb_string_Ok get_structure (pdb_str : string)
    (chain_id : option string) (prot : Protein F) :
  from_pdb_string rc get_structure pdb_str chain_id = Ok prot →
  ∃ model,
    get_structure pdb_str = Ok [model]
    ∧ Forall (passes rc) (visited chain_id model)
    ∧ (size (list_to_set (kept rc chain_id model).*1 : gset string) ≤ 62)%nat
    ∧ prot = protein_of rc (kept rc chain_id model) (parents_of_pdb pdb_str).
Proof.
  intros Hrun.
  destruct (get_structure pdb_str) as [models|] eqn:Hgs.
  2: { unfold from_pdb_string in Hrun. by rewrite Hgs in Hrun. }
  assert (∃ model, models = [model]) as [model ->].
  { unfold from_pdb_string in Hrun. rewrite Hgs in Hrun. cbn [mbind res_bind] in Hrun.
    destruct (decide (length models ≠ 1%nat)) as [|Hone]; [discriminate|].
    apply dec_stable in Hone. destruct models as [|m [|? ?]]; try discriminate. eauto. }
  exists model. split; [done|].
  assert (Forall (passes rc) (visited chain_id model)) as Hall.
  { rewrite (from_pdb_string_model _ _ _ model Hgs) in Hrun.
    destruct (for_each (visit rc) _ _) as [rows|] eqn:E; [|discriminate].
    by eapply visits_Ok. }
  split; [done|].
  rewrite (from_pdb_string_passes _ _ _ model Hgs Hall) in Hrun. cbv zeta in Hrun.
  destruct (decide _); [|discriminate]. split; [done|]. congruence.
Qed.

End Visits.

Lemma sorted_lookup_lt (u : list string) (a b : nat) (x y : string) :
  StronglySorted str_lt u → u !! a = Some x → u !! b = Some y →
  (a < b)%nat ↔ str_lt x y.
Proof.
  intros Hs Ha Hb.
  assert (∀ i j p q, u !! i = Some p → u !! j = Some q → (i < j)%nat → str_lt p q)
    as Hmono.
  { clear a b x y Ha Hb. induction Hs as [|z u Hs IH Hz]; intros i j p q Hi Hj Hij.
    - done.
    - destruct j as [|j]; [lia|]. simpl in Hj. destruct i as [|i]; simpl in Hi.
      + injection Hi as ->. rewrite Forall_forall in Hz. apply Hz.
        by eapply list_elem_of_lookup_2.
      + eapply IH; [exact Hi|exact Hj|lia]. }
  split; [by apply Hmono|]. intros Hlt.
  destruct (lt_eq_lt_dec a b) as [[Hab|Hab]|Hab]; [done| |].
  - subst b. rewrite Ha in Hb. injection Hb as ->. by apply str_lt_irrefl in Hlt.
  - exfalso. exact (str_lt_asym _ _ Hlt (Hmono b a y x Hb Ha Hab)).
Qed.

Lemma int32_small (x : Z) : -2147483648 ≤ x < 2147483648 → int32 x = x.
Proof.
  intros Hx. unfold int32.
  change (2 ^ 31) with 2147483648. change (2 ^ 32) with 4294967296.
  rewrite Z.mod_small by lia. lia.
Qed.

Section Reader.
Context {F : Type} `{Num F}.
Import residue_constants.
Variable rc : residue_constants.t.
Variable get_structure : string → res (list (list (Chain.t F))).

(** X19. When [from_pdb_string] raises [ValueError]: on a structure that has
    not exactly one model; at the first residue with an insertion code in
    the chains it reads, also when the residue has no atom of known type and
    would be left out; and, with no insertion code, when the residues it
    keeps come from more than 62 distinct chain IDs. *)
Theorem from_pdb_string_raises (pdb_str : string) (chain_id : option string) :
  (∀ models, get_structure pdb_str = Ok models → length models ≠ 1%nat →
     from_pdb_string rc get_structure pdb_str chain_id
     = Err (ValueError (single_model_msg (length models))))
  ∧ (∀ model pre c r post,
       atom_types_ordered rc →
       get_structure pdb_str = Ok [model] →
       visited chain_id model = pre ++ (c, r) :: post →
       Forall (fun cr => ¬ insertion_code cr) pre →
       (Residue.id r).2 ≠ " " →
       from_pdb_string rc get_structure pdb_str chain_id
       = Err (ValueError (insertion_code_msg c (Residue.id r).1.2)))
  ∧ (∀ model,
       atom_types_ordered rc →
       get_structure pdb_str = Ok [model] →
       Forall (fun cr => ¬ insertion_code cr) (visited chain_id model) →
       (62 < size (list_to_set (kept rc chain_id model).*1 : gset string))%nat →
       from_pdb_string rc get_structure pdb_str chain_id
       = Err (ValueError too_many_chains_msg)).
Proof.
  split; [|split].
  - intros models Hgs Hlen. unfold from_pdb_string. rewrite Hgs.
    cbn [mbind res_bind]. by rewrite decide_True.
  - intros model pre c r post Hord Hgs Hvis Hpre Hic.
    rewrite (from_pdb_string_model rc _ _ _ model Hgs), Hvis.
    rewrite visits_insertion_code; [done| |done].
    eapply Forall_impl; [exact Hpre|]. intros cr Hcr.
    by apply atom_types_ordered_passes.
  - intros model Hord Hgs Hall Hmany.
    rewrite (from_pdb_string_passes rc _ _ _ model Hgs).
    + cbv zeta. rewrite decide_False by lia. done.
    + eapply Forall_impl; [exact Hall|]. intros cr Hcr.
      by apply atom_types_ordered_passes.
Qed.

(** X20. What [from_pdb_string] returns, when every atom type has its place
    in the arrays, the structure has one model, no residue of the chains
    read has an insertion code and the chain IDs are at most 62: one entry
    for every residue of the chains read that has an atom of known type, in
    order; the residue type, which is [restype_num] for an unknown residue
    name; the position and B-factor of the last atom of each type and a
    mask entry for the types that occur; the residue number; as chain index
    the number of distinct chain IDs below the residue's; no remark and no
    [parents_chain_index]. *)
Theorem from_pdb_string_returns (pdb_str : string) (chain_id : option string)
    (model : list (Chain.t F)) :
  atom_types_ordered rc →
  get_structure pdb_str = Ok [model] →
  Forall (fun cr => ¬ insertion_code cr) (visited chain_id model) →
  let crs := kept rc chain_id model in
  let ids := crs.*1 in
  (size (list_to_set ids : gset string) ≤ 62)%nat →
  from_pdb_string rc get_structure pdb_str chain_id
  = Ok (mkProtein
          (VArr (positions_array ((fun cr => pos_of rc (Residue.atoms cr.2)) <$> crs)))
          (Array (Scalar <$> ((fun cr => restype_idx rc cr.2) <$> crs)))
          (VArr (mask_array ((fun cr => mask_of rc (Residue.atoms cr.2)) <$> crs)))
          (Array (Scalar <$> ((fun cr => (Residue.id cr.2).1.2) <$> crs)))
          (rows_array ((fun cr => b_factors_of rc (Residue.atoms cr.2)) <$> crs))
          (Array (Scalar <$> (chain_rank ids <$> ids)))
          None (parents_of_pdb pdb_str) None).
Proof.
  intros Hord Hgs Hall crs ids Hsize.
  rewrite (from_pdb_string_passes rc _ _ _ model Hgs).
  - cbv zeta. fold crs. fold ids. by rewrite decide_True.
  - eapply Forall_impl; [exact Hall|]. intros cr Hcr.
    by apply atom_types_ordered_passes.
Qed.

(** X21. The chain indices of a protein that [from_pdb_string] returns
    follow the order of the chain IDs by code point, not the order of the
    chains in the file: of two kept residues, the one with the smaller
    chain ID has the smaller chain index; and every chain index lies
    between 0 and the number of distinct chain IDs. *)
Theorem from_pdb_string_chain_order (pdb_str : string) (chain_id : option string)
    (model : list (Chain.t F)) (prot : Protein F) :
  from_pdb_string rc get_structure pdb_str chain_id = Ok prot →
  get_structure pdb_str = Ok [model] →
  let ids := (kept rc chain_id model).*1 in
  ∃ cis,
    chain_index prot = Array (Scalar <$> cis)
    ∧ length cis = length ids
    ∧ Forall (fun c => 0 ≤ c < Z.of_nat (size (list_to_set ids : gset string))) cis
    ∧ ∀ j k idj idk cj ck,
        ids !! j = Some idj → ids !! k = Some idk →
        cis !! j = Some cj → cis !! k = Some ck →
        (cj < ck ↔ str_lt idj idk).
Proof.
  intros Hrun Hgs ids.
  apply from_pdb_string_Ok in Hrun as (model' & Hgs' & _ & _ & ->).
  rewrite Hgs in Hgs'. injection Hgs' as <-. fold ids.
  exists (chain_rank ids <$> ids). split; [done|].
  split; [by rewrite length_fmap|]. split.
  - apply Forall_forall. intros c Hc.
    apply chain_rank_range in Hc. by rewrite <- np_unique_str_length.
  - intros j k idj idk cj ck Hj Hk Hcj Hck.
    rewrite list_lookup_fmap, Hj in Hcj. rewrite list_lookup_fmap, Hk in Hck.
    injection Hcj as <-. injection Hck as <-.
    assert (idj ∈ np_unique_str ids) as [a Ha]%list_elem_of_lookup_1
      by (apply np_unique_str_elem; by eapply list_elem_of_lookup_2).
    assert (idk ∈ np_unique_str ids) as [b Hb]%list_elem_of_lookup_1
      by (apply np_unique_str_elem; by eapply list_elem_of_lookup_2).
    rewrite (chain_rank_place ids a idj Ha), (chain_rank_place ids b idk Hb).
    rewrite <- (sorted_lookup_lt _ a b idj idk (np_unique_str_sorted ids) Ha Hb). lia.
Qed.

Lemma restype_idx_bounded (r : Residue.t F) :
  restypes_bounded rc → restype_idx rc r ≤ restype_num rc.
Proof.
  intros Hb. unfold restype_idx.
  destruct (restype_order rc !! _) as [v|] eqn:E; simpl; [by eapply Hb|lia].
Qed.

(** X22. A protein that [from_pdb_string] returns passes the checks of
    [to_pdb], when no residue type of the table lies above [restype_num]:
    the table of chain IDs is built, and gives every chain index the
    character of [PDB_CHAIN_IDS] at that place. *)
Theorem from_pdb_string_writable (pdb_str : string) (chain_id : option string)
    (prot : Protein F) :
  restypes_bounded rc →
  from_pdb_string rc get_structure pdb_str chain_id = Ok prot →
  ∃ table,
    to_pdb_chain_ids (restype_num rc) prot = Ok table
    ∧ ∀ c, c ∈ ravel (chain_index prot) →
        is_Some (table !! c)
        ∧ table !! c = String.get (Z.to_nat c) PDB_CHAIN_IDS.
Proof.
  intros Hb Hrun.
  apply from_pdb_string_Ok in Hrun as (model & Hgs & _ & Hsize & ->).
  set (ids := (kept rc chain_id model).*1) in *.
  rewrite to_pdb_chain_ids_aatype_ok.
  2: { unfold protein_of. cbn [aatype rows_app Rows.aatype app]. rewrite ravel_scalars.
       apply Forall_forall. intros a (cr & -> & _)%list_elem_of_fmap.
       by apply restype_idx_bounded. }
  unfold protein_of. cbn [chain_index]. fold ids.
  assert (∀ c, c ∈ chain_rank ids <$> ids → 0 ≤ c < 62) as Hrange.
  { intros c Hc%chain_rank_range. rewrite np_unique_str_length in Hc. lia. }
  assert (ravel (ndmap int32 (Array (Scalar <$> (chain_rank ids <$> ids))))
          = chain_rank ids <$> ids) as Hravel.
  { rewrite ravel_ndmap, ravel_scalars.
    rewrite <- (list_fmap_id (chain_rank ids <$> ids)) at 2.
    apply list_fmap_ext. intros _ c Hc%list_elem_of_lookup_2.
    apply int32_small. specialize (Hrange c Hc). unfold id. lia. }
  destruct (chain_ids_loop_Ok
              (np_unique (ndmap int32 (Array (Scalar <$> (chain_rank ids <$> ids))))) ∅)
    as (table & Htable & _ & Hin & _).
  { apply Forall_forall. intros c Hc. apply np_unique_elem in Hc.
    rewrite Hravel in Hc. specialize (Hrange c Hc). lia. }
  exists table. split; [done|]. intros c Hc. rewrite ravel_scalars in Hc.
  specialize (Hrange c Hc).
  assert (table !! c = String.get (Z.to_nat c) PDB_CHAIN_IDS) as Heq.
  { rewrite Hin by (apply np_unique_elem; by rewrite Hravel).
    by rewrite Z.mod_small by lia. }
  split; [|done]. rewrite Heq. apply string_get_is_Some.
  change (String.length PDB_CHAIN_IDS) with 62%nat. lia.
Qed.

Lemma visited_one_chain (c : string) (model : list (Chain.t F)) :
  Forall (fun cr => cr.1 = c) (visited (Some c) model).
Proof.
  induction model as [|chain model IH]; [constructor|].
  rewrite visited_cons. apply Forall_app. split; [|done].
  destruct (decide _) as [|Hn]; [constructor|].
  apply Forall_fmap, Forall_forall. intros r _. simpl.
  destruct (decide (Chain.id chain = c)) as [|Hne]; [done|].
  exfalso. apply Hn. split; [done|]. congruence.
Qed.

(** X23. Reading one chain: with a [chain_id] given, the protein that
    [from_pdb_string] returns has the chain index 0 for every residue, so
    its [chain_index] is [zeros_like(aatype)], whatever the ID of the
    chain is. *)
Theorem from_pdb_string_one_chain (pdb_str c : string) (prot : Protein F) :
  from_pdb_string rc get_structure pdb_str (Some c) = Ok prot →
  chain_index prot = zeros_like 0 (aatype prot).
Proof.
  intros Hrun.
  apply from_pdb_string_Ok in Hrun as (model & _ & _ & _ & ->).
  unfold protein_of. cbn [chain_index aatype rows_app Rows.aatype app zeros_like].
  f_equal.
  assert (Forall (fun cr : string * Residue.t F => cr.1 = c) (kept rc (Some c) model))
    as Hc.
  { unfold kept. apply Forall_forall. intros cr [_ Hcr]%list_elem_of_filter.
    pose proof (visited_one_chain c model) as Hall.
    rewrite Forall_forall in Hall. by apply Hall. }
  set (ids := (kept rc (Some c) model).*1).
  assert (∀ id, id ∈ ids → chain_rank ids id = 0) as Hrank.
  { intros id (cr & -> & Hcr)%list_elem_of_fmap.
    unfold chain_rank. rewrite filter_none; [done|].
    apply Forall_forall. intros x Hx. rewrite elem_of_remove_dups in Hx.
    apply list_elem_of_fmap in Hx as (cr' & -> & Hcr').
    rewrite Forall_forall in Hc. rewrite (Hc cr Hcr), (Hc cr' Hcr').
    apply str_lt_irrefl. }
  subst ids. revert Hrank. generalize (kept rc (Some c) model).
  intros l. generalize (chain_rank l.*1). intros g Hg.
  induction l as [|cr l IH]; [done|].
  cbn [fmap list_fmap map zeros_like] in *. f_equal.
  - f_equal. apply Hg, list_elem_of_here.
  - apply IH. intros id Hid. by apply Hg, list_elem_of_further.
Qed.

End Reader.

(** ** Strings: lines and words *)

Lemma prefix_app (sub : string) : ∀ x y : string,
  String.prefix sub x = true → String.prefix sub (x +:+ y) = true.
Proof.
  induction sub as [|a sub IH]; intros x y Hp.
  - by destruct (x +:+ y).
  - destruct x as [|b x]; [done|]. simpl in *.
    destruct (ascii_dec a b); [by apply IH|done].
Qed.

Lemma contains_cons (sub : string) (a : ascii) (s : string) :
  contains sub s = true → contains sub (String a s) = true.
Proof. intros Hc. simpl. rewrite Hc. apply orb_true_r. Qed.

Lemma contains_empty (sub : string) : contains sub "" = true → sub = "".
Proof. simpl. rewrite orb_false_r. by destruct sub. Qed.

Lemma split_on_first (c : ascii) (s : string) :
  ∃ x rest t, split_on c s = x :: rest ∧ s = x +:+ t.
Proof.
  induction s as [|a s (x & rest & t & Hs & Ht)]; simpl.
  - by exists "", [], "".
  - destruct (Ascii.eqb a c).
    + by exists "", (split_on c s), (String a s).
    + rewrite Hs. exists (String a x), rest, t. split; [done|].
      change (String a s = String a (x +:+ t)). by rewrite <- Ht.
Qed.

(** A string holds what one of its lines holds. *)
Lemma contains_split_on (sub : string) (c : ascii) (s : string) : ∀ l,
  l ∈ split_on c s → contains sub l = true → contains sub s = true.
Proof.
  induction s as [|a s IH]; intros l Hl Hc.
  - simpl in Hl. apply list_elem_of_singleton in Hl as ->. done.
  - cbn [split_on] in Hl. destruct (Ascii.eqb a c).
    + apply elem_of_cons in Hl as [->|Hl].
      * apply contains_empty in Hc as ->. done.
      * apply contains_cons. by eapply IH.
    + destruct (split_on_first c s) as (x & rest & t & Hs & Ht).
      rewrite Hs in Hl, IH. apply elem_of_cons in Hl as [->|Hl].
      * cbn [contains] in Hc. apply orb_true_iff in Hc as [Hp|Hc].
        -- apply contains_of_prefix. rewrite Ht.
           change (String a (x +:+ t)) with (String a x +:+ t). by apply prefix_app.
        -- apply contains_cons. apply (IH x); [apply list_elem_of_here|done].
      * apply contains_cons. apply (IH l); [by apply list_elem_of_further|done].
Qed.

Lemma contains_remark_PARENT (r : string) :
  contains "PARENT" ("REMARK " +:+ r) = contains "PARENT" r.
Proof. reflexivity. Qed.

Lemma word_cons (a : ascii) (w : string) :
  word (String a w) → isspace a = false ∧ (w = "" ∨ word w).
Proof.
  intros [_ Hall]. simpl in Hall. apply Forall_cons in Hall as [Ha Hall].
  split; [done|]. destruct w as [|b w]; [by left|]. right. by split.
Qed.

Lemma split_whitespace_space (s : string) :
  split_whitespace (String " " s) = split_whitespace s.
Proof. reflexivity. Qed.

Lemma split_whitespace_word_sep (w s : string) :
  word w → split_whitespace (w +:+ String " " s) = w :: split_whitespace s.
Proof.
  induction w as [|a w IH]; intros Hw; [by destruct Hw|].
  apply word_cons in Hw as [Ha Hw].
  change (String a w +:+ String " " s) with (String a (w +:+ String " " s)).
  cbn [split_whitespace]. rewrite Ha. destruct Hw as [->|Hw].
  - done.
  - rewrite (IH Hw). destruct w as [|b w]; [by destruct Hw|].
    apply word_cons in Hw as [Hb _].
    change (String b w +:+ String " " s) with (String b (w +:+ String " " s)).
    cbn iota. by rewrite Hb.
Qed.

Lemma split_whitespace_word (w : string) :
  word w → split_whitespace w = [w].
Proof.
  induction w as [|a w IH]; intros Hw; [by destruct Hw|].
  apply word_cons in Hw as [Ha Hw].
  cbn [split_whitespace]. rewrite Ha. destruct Hw as [->|Hw]; [done|].
  rewrite (IH Hw). destruct w as [|b w]; [by destruct Hw|].
  apply word_cons in Hw as [Hb _]. by rewrite Hb.
Qed.

Lemma split_whitespace_join (ps : list string) :
  Forall word ps → split_whitespace (join " " ps) = ps.
Proof.
  induction 1 as [|p ps Hp Hps IH]; [done|].
  destruct ps as [|q ps].
  - by apply split_whitespace_word.
  - change (join " " (p :: q :: ps)) with (p +:+ String " " (join " " (q :: ps))).
    by rewrite split_whitespace_word_sep, IH.
Qed.

Lemma split_whitespace_parent_line (ps : list string) :
  Forall word ps → drop 1 (split_whitespace (make_parent_line ps)) = ps.
Proof.
  intros Hps. unfold make_parent_line.
  change ("PARENT " +:+ join " " ps) with ("PARENT" +:+ String " " (join " " ps)).
  rewrite split_whitespace_word_sep.
  - simpl. by apply split_whitespace_join.
  - split; [done|]. repeat constructor.
Qed.

Lemma parents_loop_none (lines : list string) :
  Forall (fun l => contains "PARENT" l = false) lines →
  parents_loop lines None = None.
Proof.
  induction 1 as [|l lines Hl Hall IH]; [done|].
  cbn [parents_loop]. by rewrite Hl.
Qed.

Section Parents.
Context {F : Type} `{Num F}.
Import residue_constants.
Variable rc : residue_constants.t.
Variable get_structure : string → res (list (list (Chain.t F))).

(** X24. Reading back the headers: on a string whose first lines are those
    that [get_pdb_headers] writes for a protein without
    [parents_chain_index], with a remark that does not hold [PARENT], a
    protein that [from_pdb_string] returns has the parents written, when
    these are words (not empty, without whitespace) and their line does not
    hold [N/A]; for an empty list of parents, written as [N/A], it has no
    parents ([None]) when no later line holds [PARENT]. *)
Theorem from_pdb_string_reads_parents (written : Protein F) (headers : list string)
    (ps rest : list string) (pdb_str : string) (chain_id : option string)
    (prot : Protein F) :
  parents written = Some ps →
  parents_chain_index written = None →
  match remark written with
  | Some r => contains "PARENT" r = false
  | None => True
  end →
  get_pdb_headers written 0 = Val headers →
  split_on newline pdb_str = headers ++ rest →
  from_pdb_string rc get_structure pdb_str chain_id = Ok prot →
  (ps ≠ [] → Forall word ps → contains "N/A" (make_parent_line ps) = false →
   parents prot = Some ps)
  ∧ (ps = [] → Forall (fun l => contains "PARENT" l = false) rest →
     parents prot = None).
Proof.
  intros Hps Hpci Hrem Hhead Hlines Hrun.
  apply from_pdb_string_Ok in Hrun as (model & _ & _ & _ & ->).
  unfold protein_of. cbn [parents].
  unfold get_pdb_headers in Hhead. rewrite Hps, Hpci in Hhead.
  cbn [mbind result_bind] in Hhead.
  set (selected := match ps with [] => ["N/A"] | _ :: _ => ps end) in *.
  assert (headers = remark_lines written ++ [make_parent_line selected]) as ->.
  { unfold remark_lines, make_parent_line. destruct (remark written); by injection Hhead. }
  assert (contains "PARENT" pdb_str = true) as Hhas.
  { apply (contains_split_on _ newline _ (make_parent_line selected)).
    - rewrite Hlines. apply elem_of_app. left. apply elem_of_app. right.
      apply list_elem_of_here.
    - apply contains_of_prefix. unfold make_parent_line.
      change ("PARENT " +:+ join " " selected) with ("PARENT" +:+ (" " +:+ join " " selected)).
      generalize (" " +:+ join " " selected). intros s. by destruct s. }
  unfold parents_of_pdb. rewrite Hhas, Hlines, <- app_assoc.
  assert (∀ lines, parents_loop (remark_lines written ++ lines) None
                   = parents_loop lines None) as ->.
  { intros lines. unfold remark_lines. destruct (remark written) as [r|]; [|done].
    cbn [app parents_loop]. by rewrite contains_remark_PARENT, Hrem. }
  cbn [app parents_loop].
  split.
  - intros Hne Hw Hna. destruct ps as [|p ps']; [done|]. subst selected.
    assert (contains "PARENT" (make_parent_line (p :: ps')) = true) as ->.
    { apply contains_of_prefix. unfold make_parent_line.
      generalize (join " " (p :: ps')). intros s. done. }
    rewrite Hna. cbn [andb negb]. by rewrite split_whitespace_parent_line.
  - intros -> Hrest. subst selected.
    change (contains "PARENT" (make_parent_line ["N/A"])
            && negb (contains "N/A" (make_parent_line ["N/A"]))) with false.
    cbn iota. by apply parents_loop_none.
Qed.

End Parents.

Lemma rc_ex_ordered : atom_types_ordered rc_ex.
Proof.
  intros a Ha. apply list_elem_of_In in Ha. simpl in Ha.
  destruct Ha as [<-|[<-|[]]]; eexists; (split; [reflexivity|simpl; lia]).
Qed.

Lemma rc_ex_bounded : restypes_bounded rc_ex.
Proof.
  intros k v Hk. simpl in *.
  apply lookup_insert_Some in Hk as [[_ <-]|[_ Hk]]; [lia|].
  apply lookup_singleton_Some in Hk as [_ <-]. lia.
Qed.

Lemma from_pdb_string_raises_witness :
  from_pdb_string rc_ex (fun _ => Ok []) pdb_ex None
  = Err (ValueError (single_model_msg 0))
  ∧ from_pdb_string rc_ex (fun _ => Ok [model_icode_ex]) pdb_ex None
    = Err (ValueError (insertion_code_msg "A" 2))
  ∧ from_pdb_string rc_ex (fun _ => Ok [many_chains_ex]) pdb_ex None
    = Err (ValueError too_many_chains_msg).
Proof.
  split; [|split].
  - apply (proj1 (from_pdb_string_raises rc_ex (fun _ => Ok []) pdb_ex None) []);
      [reflexivity|simpl; lia].
  - apply (proj1 (proj2 (from_pdb_string_raises rc_ex (fun _ => Ok [model_icode_ex])
                           pdb_ex None))
             model_icode_ex (visited None model_ex) "A"
             (Residue.mk ("W", 2, "A") "HOH" []) []);
      [exact rc_ex_ordered|reflexivity|reflexivity| |simpl; congruence].
    vm_compute. repeat constructor; intros Hn; by apply Hn.
  - apply (proj2 (proj2 (from_pdb_string_raises rc_ex (fun _ => Ok [many_chains_ex])
                           pdb_ex None)) many_chains_ex);
      [exact rc_ex_ordered|reflexivity| |vm_compute; lia].
    apply Forall_forall. intros cr Hcr Hic. apply Hic.
    unfold many_chains_ex, visited in Hcr.
    apply list_elem_of_bind in Hcr as (chain & Hcr & Hchain).
    apply list_elem_of_fmap in Hchain as (i & -> & _).
    rewrite decide_False in Hcr by (intros [Hn _]; by apply Hn).
    simpl in Hcr. apply list_elem_of_singleton in Hcr as ->. done.
Defined.

Lemma from_pdb_string_returns_witness :
  from_pdb_string rc_ex (fun _ => Ok [model_ex]) pdb_ex None = Ok protein_read_ex.
Proof.
  refine (eq_trans
            (from_pdb_string_returns rc_ex (fun _ => Ok [model_ex]) pdb_ex None
               model_ex rc_ex_ordered eq_refl _ _) _).
  - vm_compute. repeat constructor; intros Hn; by apply Hn.
  - vm_compute. lia.
  - vm_compute. reflexivity.
Defined.

Lemma from_pdb_string_chain_order_witness :
  ∃ cis,
    chain_index protein_read_ex = Array (Scalar <$> cis)
    ∧ length cis = 2%nat
    ∧ Forall (fun c => 0 ≤ c < 2) cis
    ∧ ∀ j k idj idk cj ck,
        ["B"; "A"] !! j = Some idj → ["B"; "A"] !! k = Some idk →
        cis !! j = Some cj → cis !! k = Some ck →
        (cj < ck ↔ str_lt idj idk).
Proof.
  exact (from_pdb_string_chain_order (F:=Z) (H:=Z_num) rc_ex (fun _ => Ok [model_ex]) pdb_ex None
           model_ex protein_read_ex ltac:(vm_compute; reflexivity) eq_refl).
Defined.

Lemma from_pdb_string_writable_witness :
  ∃ table,
    to_pdb_chain_ids 20 protein_read_ex = Ok table
    ∧ ∀ c, c ∈ [1; 0] →
        is_Some (table !! c)
        ∧ table !! c = String.get (Z.to_nat c) PDB_CHAIN_IDS.
Proof.
  exact (from_pdb_string_writable (F:=Z) (H:=Z_num) rc_ex (fun _ => Ok [model_ex]) pdb_ex None
           protein_read_ex rc_ex_bounded ltac:(vm_compute; reflexivity)).
Defined.

Lemma from_pdb_string_one_chain_witness :
  ∃ prot,
    from_pdb_string rc_ex (fun _ => Ok [model_ex]) pdb_ex (Some "B") = Ok prot
    ∧ aatype prot = Array [Scalar 0]
    ∧ chain_index prot = Array [Scalar 0].
Proof.
  eexists. split; [vm_compute; reflexivity|]. split; [reflexivity|].
  exact (from_pdb_string_one_chain (F:=Z) (H:=Z_num) rc_ex (fun _ => Ok [model_ex]) pdb_ex "B" _
           ltac:(vm_compute; reflexivity)).
Defined.

Lemma from_pdb_string_reads_parents_witness :
  parents protein_read_ex = Some ["6xyz_A"; "1abc_B"].
Proof.
  apply (proj1 (from_pdb_string_reads_parents (F:=Z) (H:=Z_num) rc_ex (fun _ => Ok [model_ex])
                  written_ex ["REMARK m1"; "PARENT 6xyz_A 1abc_B"]
                  ["6xyz_A"; "1abc_B"] ["ATOM      1"; "END"] pdb_ex None
                  protein_read_ex eq_refl eq_refl eq_refl eq_refl
                  ltac:(vm_compute; reflexivity) ltac:(vm_compute; reflexivity))).
  - done.
  - repeat constructor; done.
  - vm_compute. reflexivity.
Defined.

Close Scope Z_scope.
